(** * bapsf_motion: a shallow embedding of the transform, grid-layer,
      motor-driver, exclusion, axis and run-configuration code, and the
      properties of the natural-language specification checked against
      it.

    Layout: the first half of the file holds the embedding (one module
    per source file), the second half the lemmas and theorems.

    Numbers.  Python floats are modelled by their ideal values: reals
    ([R]) where the code uses square roots and trigonometry
    (transform/lapd.py), rationals ([Q]) where it only adds, multiplies,
    divides and compares (regular_grid.py, exclusions/lapd.py).
    Rounding, infinities and NaN are outside the model; every theorem
    about the transform keeps its divisors away from zero and the
    argument of the arcsine within [-1, 1], and what a theorem says of
    the coordinates of a grid or of a unit conversion is said of the
    exact values, not of their float64 roundings.  Integer arrays hold
    unbounded integers: the wrap-around of [int32] is outside the model
    too.

    Listeners.  The driver's [status_changed] signal calls whatever
    callables are connected to it.  The driver is first modelled with
    listeners that return and leave the signal alone ([Motor.emit],
    [Motor.update_status]); [Motor.emit_with] and
    [Motor.update_status_with] are the same code with listeners that
    may raise, connect or disconnect, and agree with the former when
    every listener returns.

    The peer.  [Motor.recv] is modelled twice as well: over a finite
    script of chunks after which the peer is silent and the timeout
    fires ([Motor.recv_loop]), and over everything a peer will ever
    deliver ([Motor.recv_stream]), which covers the peer that has
    closed the connection. *)

From Stdlib Require Import Reals Lra Lia ZArith QArith Qabs List String Ascii Bool.
From Stdlib Require Import DecimalString Permutation.
From Stdlib Require Lqa.
From Stdlib Require Import Qreals.
From stdpp Require Import gmap strings.
Import ListNotations.

(** ** Python results: a value or a raised exception *)

Inductive exn : Type :=
| TypeError
| ValueError
| AttributeError
| KeyError
| ConnectionResetError
| ConnectionAbortedError
| ConnectionRefusedError
| BrokenPipeError
| TimeoutError
| InterruptedError
| SocketTimeout
| OSError
| IndexError
| AxisError.

Inductive res (A : Type) : Type :=
| Ok (a : A)
| Raise (e : exn).
Arguments Ok {A} a.
Arguments Raise {A} e.

Definition res_bind {A B} (r : res A) (k : A -> res B) : res B :=
  match r with
  | Ok a => k a
  | Raise e => Raise e
  end.

Definition is_ok {A} (r : res A) : bool :=
  match r with Ok _ => true | Raise _ => false end.

(** * transform/lapd.py *)

Module Transform.
Local Open Scope R_scope.

(** Arguments that reach [LaPDXYTransform.__init__] as distances. *)
Inductive pyobj : Type :=
| PyFloat (r : R)
| PyInt (z : Z)
| PyStr (s : string)
| PyNone.

(** [isinstance(val, (float, np.floating, int, np.integer))] together
    with the numeric value of [val]. *)
Definition as_number (v : pyobj) : option R :=
  match v with
  | PyFloat r => Some r
  | PyInt z => Some (IZR z)
  | PyStr _ | PyNone => None
  end.

(** What [np.array(polarity)] can look like. *)
Inductive array_like : Type :=
| Scalar (r : R)
| Arr1 (l : list R)
| Arr2 (l : list (list R)).

Inductive dkey : Type := pivot_to_center_k | pivot_to_drive_k | probe_axis_offset_k.

Definition dkey_eqb (a b : dkey) : bool :=
  match a, b with
  | pivot_to_center_k, pivot_to_center_k
  | pivot_to_drive_k, pivot_to_drive_k
  | probe_axis_offset_k, probe_axis_offset_k => true
  | _, _ => false
  end.

(** The keyword arguments of the constructor. *)
Record kwargs : Type := Kwargs {
  kw_pivot_to_center : pyobj;
  kw_pivot_to_drive : pyobj;
  kw_probe_axis_offset : pyobj;
  kw_drive_polarity : array_like;
  kw_mspace_polarity : array_like;
}.

Definition kw_get (kw : kwargs) (k : dkey) : pyobj :=
  match k with
  | pivot_to_center_k => kw_pivot_to_center kw
  | pivot_to_drive_k => kw_pivot_to_drive kw
  | probe_axis_offset_k => kw_probe_axis_offset kw
  end.

(** [self.inputs] after validation. *)
Record inputs : Type := Inputs {
  pivot_to_center : R;
  pivot_to_drive : R;
  probe_axis_offset : R;
  drive_polarity : R * R;
  mspace_polarity : R * R;
}.

(** The distances while the first loop of [_validate_inputs] runs:
    [inputs[key] = val] overwrites one entry. *)
Definition dist_store : Type := dkey -> R.

Definition dist_set (k : dkey) (v : R) (d : dist_store) : dist_store :=
  fun k' => if dkey_eqb k k' then v else d k'.

(** A call of [warnings.warn]; the message only interpolates [val],
    which by then holds the absolute value. *)
Inductive warning : Type := NegativeAssumedAbs (val : R).

(** One iteration of
    [for key in {"pivot_to_center", "pivot_to_drive", "probe_axis_offset"}]. *)
Definition validate_distance (v : pyobj) : res (R * list warning) :=
  match as_number v with
  | None => Raise TypeError
  | Some val =>
      if Rlt_dec val 0
      then Ok (Rabs val, [NegativeAssumedAbs (Rabs val)])
      else Ok (val, [])
  end.

(** The first loop.  Python iterates a set literal in an order it does
    not promise, so the order of the keys is an argument.  The warnings
    given so far stay given when a later key raises. *)
Fixpoint validate_distances (kw : kwargs) (order : list dkey)
  (d : dist_store) (w : list warning) : list warning * res dist_store :=
  match order with
  | [] => (w, Ok d)
  | key :: rest =>
      match validate_distance (kw_get kw key) with
      | Raise e => (w, Raise e)
      | Ok (val, w') => validate_distances kw rest (dist_set key val d) (w ++ w')
      end
  end.

Definition Req_bool (a b : R) : bool := if Req_dec_T a b then true else false.

(** One iteration of [for key in ("drive_polarity", "mspace_polarity")]:
    shape [(2,)], then [np.all(np.abs(polarity) == 1)]. *)
Definition validate_polarity (p : array_like) : res (R * R) :=
  match p with
  | Arr1 [a; b] =>
      if Req_bool (Rabs a) 1 && Req_bool (Rabs b) 1 then Ok (a, b)
      else Raise ValueError
  | _ => Raise ValueError
  end.

(** [LaPDXYTransform._validate_inputs]: the warnings it gives and what
    it returns.  The distances a key of [order] never writes keep the
    numeric value the caller passed, as [inputs[key]] does. *)
Definition _validate_inputs (order : list dkey) (kw : kwargs)
  : list warning * res inputs :=
  let raw : dist_store := fun k =>
    match as_number (kw_get kw k) with Some r => r | None => 0 end in
  let '(w, distances) := validate_distances kw order raw [] in
  (w,
   res_bind distances (fun d =>
   res_bind (validate_polarity (kw_drive_polarity kw)) (fun dp =>
   res_bind (validate_polarity (kw_mspace_polarity kw)) (fun mp =>
   Ok (Inputs (d pivot_to_center_k) (d pivot_to_drive_k)
         (d probe_axis_offset_k) dp mp))))).

(** 3x3 matrices, row major. *)
Record vec3 : Type := V3 { v0 : R; v1 : R; v2 : R }.
Record mat3 : Type := M3 { row0 : vec3; row1 : vec3; row2 : vec3 }.

Definition dot (a b : vec3) : R := v0 a * v0 b + v1 a * v1 b + v2 a * v2 b.
Definition col0 (m : mat3) : vec3 := V3 (v0 (row0 m)) (v0 (row1 m)) (v0 (row2 m)).
Definition col1 (m : mat3) : vec3 := V3 (v1 (row0 m)) (v1 (row1 m)) (v1 (row2 m)).
Definition col2 (m : mat3) : vec3 := V3 (v2 (row0 m)) (v2 (row1 m)) (v2 (row2 m)).

(** [np.matmul] on two 3x3 matrices. *)
Definition matmul (a b : mat3) : mat3 :=
  let row r := V3 (dot r (col0 b)) (dot r (col1 b)) (dot r (col2 b)) in
  M3 (row (row0 a)) (row (row1 a)) (row (row2 a)).

Definition matvec (a : mat3) (v : vec3) : vec3 :=
  V3 (dot (row0 a) v) (dot (row1 a) v) (dot (row2 a) v).

(** [np.diag(polarity.tolist() + [1.0])]. *)
Definition diag_polarity (p : R * R) : mat3 :=
  M3 (V3 (fst p) 0 0) (V3 0 (snd p) 0) (V3 0 0 1).

(** [polarity * points] for one point. *)
Definition flip (pol p : R * R) : R * R := (fst pol * fst p, snd pol * snd p).

(** [theta] in [_matrix_to_drive]: the points already carry the
    [mspace_polarity] flip. *)
Definition theta_to_drive (tr : inputs) (p : R * R) : R :=
  let pts := flip (mspace_polarity tr) p in
  let tan_theta := snd pts / (fst pts + pivot_to_center tr) in
  - atan tan_theta.

(** [T0] of [_matrix_to_drive] for one point. *)
Definition T0_to_drive (tr : inputs) (p : R * R) : mat3 :=
  let pts := flip (mspace_polarity tr) p in
  let theta := theta_to_drive tr p in
  M3 (V3 0 0 (sqrt (snd pts ^ 2 + (pivot_to_center tr + fst pts) ^ 2)
              - pivot_to_center tr))
     (V3 0 0 (pivot_to_drive tr * tan theta
              + probe_axis_offset tr * (1 - 1 / cos theta)))
     (V3 0 0 1).

Definition matrix_to_drive_1 (tr : inputs) (p : R * R) : mat3 :=
  matmul (diag_polarity (drive_polarity tr))
    (matmul (T0_to_drive tr p) (diag_polarity (mspace_polarity tr))).

(** [LaPDXYTransform._matrix_to_drive]: one matrix per point of the batch. *)
Definition _matrix_to_drive (tr : inputs) (points : list (R * R)) : list mat3 :=
  map (matrix_to_drive_1 tr) points.

(** [theta] in [_matrix_to_motion_space].  The arcsine and the
    divisions are total here, while [np.arcsin] is NaN outside [-1, 1]
    and a [pivot_to_drive] of zero divides by zero: the definition
    speaks for the code at the drive points of [in_arcsin_domain]. *)
Definition theta_to_motion_space (tr : inputs) (e : R * R) : R :=
  let pts := flip (drive_polarity tr) e in
  let sine_alpha :=
    probe_axis_offset tr
    / sqrt (pivot_to_drive tr ^ 2 + (- probe_axis_offset tr + snd pts) ^ 2) in
  let tan_beta := (- probe_axis_offset tr + snd pts) / - pivot_to_drive tr in
  atan tan_beta - asin sine_alpha.

(** The drive points at which [_matrix_to_motion_space] computes with
    numbers: no division by zero, and [sine_alpha] within [-1, 1]. *)
Definition in_arcsin_domain (tr : inputs) (e : R * R) : Prop :=
  let pts := flip (drive_polarity tr) e in
  let sine_alpha :=
    probe_axis_offset tr
    / sqrt (pivot_to_drive tr ^ 2 + (- probe_axis_offset tr + snd pts) ^ 2) in
  pivot_to_drive tr <> 0 /\ -1 <= sine_alpha <= 1.

(** [T0] of [_matrix_to_motion_space] for one point. *)
Definition T0_to_motion_space (tr : inputs) (e : R * R) : mat3 :=
  let theta := theta_to_motion_space tr e in
  M3 (V3 (cos theta) 0 (- pivot_to_center tr * (1 - cos theta)))
     (V3 (sin theta) 0 (pivot_to_center tr * sin theta))
     (V3 0 0 1).

Definition matrix_to_motion_space_1 (tr : inputs) (e : R * R) : mat3 :=
  matmul (diag_polarity (mspace_polarity tr))
    (matmul (T0_to_motion_space tr e) (diag_polarity (drive_polarity tr))).

(** [LaPDXYTransform._matrix_to_motion_space]. *)
Definition _matrix_to_motion_space (tr : inputs) (points : list (R * R))
  : list mat3 :=
  map (matrix_to_motion_space_1 tr) points.

(** Modelled from the spec: [BaseTransform] (transform/base.py), which
    applies the matrices to the points, is not among the sources.  The
    spec calls each matrix a "3×3 homogeneous transform per point": the
    point is extended by a third coordinate 1, multiplied by its matrix,
    and the first two coordinates are kept. *)
Definition apply_homogeneous (m : mat3) (p : R * R) : R * R :=
  let v := matvec m (V3 (fst p) (snd p) 1) in (v0 v, v1 v).

Definition to_drive (tr : inputs) (points : list (R * R)) : list (R * R) :=
  map (fun mp => apply_homogeneous (fst mp) (snd mp))
      (combine (_matrix_to_drive tr points) points).

Definition to_motion_space (tr : inputs) (points : list (R * R)) : list (R * R) :=
  map (fun mp => apply_homogeneous (fst mp) (snd mp))
      (combine (_matrix_to_motion_space tr points) points).

(** The two-argument arctangent the specification names, written out
    from its mathematical definition (the code never calls it). *)
Definition atan2 (y x : R) : R :=
  if Rlt_dec 0 x then atan (y / x)
  else if Rlt_dec x 0 then
    (if Rle_dec 0 y then atan (y / x) + PI else atan (y / x) - PI)
  else if Rlt_dec 0 y then PI / 2
  else if Rlt_dec y 0 then - (PI / 2)
  else 0.

(** The configurations the specification calls valid. *)
Definition is_polarity (p : R * R) : Prop :=
  (fst p = 1 \/ fst p = -1) /\ (snd p = 1 \/ snd p = -1).

Definition valid_config (tr : inputs) : Prop :=
  0 <= pivot_to_center tr /\ 0 <= pivot_to_drive tr /\ 0 <= probe_axis_offset tr
  /\ is_polarity (drive_polarity tr) /\ is_polarity (mspace_polarity tr).


(** Points in front of the pivot (on the chamber side of the ball
    valve) whose shaft angle keeps the drive-side triangle acute:
    [pivot_to_drive - probe_axis_offset * sin theta >= 0]. *)
Definition reachable (tr : inputs) (p : R * R) : Prop :=
  0 < fst (flip (mspace_polarity tr) p) + pivot_to_center tr
  /\ probe_axis_offset tr * sin (theta_to_drive tr p) <= pivot_to_drive tr.

(** A configuration and a point behind its pivot, on the far side of the
    ball valve from the chamber. *)
Definition behind_pivot : inputs := Inputs 1 1 0 (1, 1) (1, 1).

(** A configuration whose probe-axis offset exceeds the pivot-to-drive
    distance. *)
Definition large_offset : inputs := Inputs 0 1 2 (1, 1) (1, 1).

(** The east-port example of the class docstring. *)
Definition lapd_east : inputs :=
  Inputs (6294 / 100) (13351 / 100) (2016 / 100) (1, 1) (-1, 1).

Definition all_dkeys : list dkey :=
  [pivot_to_center_k; pivot_to_drive_k; probe_axis_offset_k].

Definition is_negative (r : R) : bool := if Rlt_dec r 0 then true else false.

(** Validated inputs handed to the constructor again, as a
    configuration read back from [self.inputs] would be. *)
Definition as_kwargs (tr : inputs) : kwargs :=
  Kwargs (PyFloat (pivot_to_center tr)) (PyFloat (pivot_to_drive tr))
    (PyFloat (probe_axis_offset tr))
    (Arr1 [fst (drive_polarity tr); snd (drive_polarity tr)])
    (Arr1 [fst (mspace_polarity tr); snd (mspace_polarity tr)]).

(** The warnings of the first loop of [_validate_inputs], one for each
    negative distance, in the order the keys are visited. *)
Definition warnings_of (v : dkey -> R) (order : list dkey) : list warning :=
  flat_map (fun k => if is_negative (v k)
                     then [NegativeAssumedAbs (Rabs (v k))] else []) order.

(** A polarity argument that passes its check. *)
Definition polarity_ok (p : array_like) : Prop :=
  exists a b, p = Arr1 [a; b] /\ is_polarity (a, b).

End Transform.

(** * motion_builder/layers/regular_grid.py *)

Module Grid.
Local Open Scope Q_scope.

(** numpy dtypes and [np.issubdtype]. *)
Inductive dtype : Type := float64 | float32 | int32 | int64 | bool_ | object_.

Inductive dkind : Type := floating | integer.

Definition issubdtype (dt : dtype) (k : dkind) : bool :=
  match k, dt with
  | floating, (float64 | float32) => true
  | integer, (int32 | int64) => true
  | _, _ => false
  end.

(** Array-likes of rank 0, 1 and 2; a rank-2 value is a list of rows. *)
Inductive nd (A : Type) : Type :=
| Nd0 (x : A)
| Nd1 (l : list A)
| Nd2 (rows : list (list A)).
Arguments Nd0 {A} x.
Arguments Nd1 {A} l.
Arguments Nd2 {A} rows.

(** An argument is a Python list (still to be converted) or already an
    [np.ndarray] carrying its dtype. *)
Inductive arg (A : Type) : Type :=
| PyList (a : nd A)
| NdArray (dt : dtype) (a : nd A).
Arguments PyList {A} a.
Arguments NdArray {A} dt a.

Record ndarray (A : Type) : Type := Array { arr_dtype : dtype; arr : nd A }.
Arguments Array {A} arr_dtype arr.
Arguments arr_dtype {A} n.
Arguments arr {A} n.

Definition ndim {A} (a : nd A) : nat :=
  match a with Nd0 _ => 0 | Nd1 _ => 1 | Nd2 _ => 2 end%nat.

Definition arr_size {A} (a : nd A) : nat :=
  match a with
  | Nd0 _ => 1%nat
  | Nd1 l => length l
  | Nd2 rows => length (concat rows)
  end.

(** [shape[0]] and [shape[1]]. *)
Definition shape0 {A} (a : nd A) : nat :=
  match a with Nd0 _ => 0 | Nd1 l => length l | Nd2 rows => length rows end%nat.

Definition shape1 {A} (a : nd A) : nat :=
  match a with
  | Nd2 (r :: _) => length r
  | _ => 0%nat
  end.

(** Rows of unequal length make [np.array(..., dtype=...)] raise. *)
Definition rectangular {A} (a : nd A) : bool :=
  match a with
  | Nd2 (r :: rows) => forallb (fun r' => Nat.eqb (length r') (length r)) rows
  | _ => true
  end.

(** [x if isinstance(x, np.ndarray) else np.array(x, dtype=dt)]. *)
Definition force_array {A} (dt : dtype) (x : arg A) : res (ndarray A) :=
  match x with
  | NdArray dt' a => Ok (Array dt' a)
  | PyList a => if rectangular a then Ok (Array dt a) else Raise ValueError
  end.

(** [a.squeeze()]: axes of length one are dropped. *)
Definition squeeze {A} (a : nd A) : nd A :=
  match a with
  | Nd0 x => Nd0 x
  | Nd1 [x] => Nd0 x
  | Nd1 l => Nd1 l
  | Nd2 [[x]] => Nd0 x
  | Nd2 [r] => Nd1 r
  | Nd2 rows =>
      if forallb (fun r => Nat.eqb (length r) 1) rows
      then Nd1 (concat rows) else Nd2 rows
  end.

Definition nat_in (n : nat) (l : list nat) : bool := existsb (Nat.eqb n) l.

(** [np.any(limits[..., 0] == limits[..., 1])]; indexing past the last
    axis raises. *)
Definition any_pair_equal (a : nd Q) : res bool :=
  match a with
  | Nd0 _ => Raise IndexError
  | Nd1 (x :: y :: _) => Ok (Qeq_bool x y)
  | Nd1 _ => Raise IndexError
  | Nd2 rows =>
      if forallb (fun r => Nat.leb 2 (length r)) rows
      then Ok (existsb (fun r => Qeq_bool (nth 0 r 0) (nth 1 r 0)) rows)
      else Raise IndexError
  end.

Definition sort_pair (r : list Q) : Q * Q :=
  let a := nth 0 r 0 in
  let b := nth 1 r 0 in
  if Qle_bool a b then (a, b) else (b, a).

(** The tail of [_validate_limits], after the checks: [limits.sort(axis=1)]
    (a rank-1 array has no axis 1), then one pair is repeated over all
    dimensions. *)
Definition sort_and_broadcast (mspace_ndims : nat) (a : nd Q) : res (list (Q * Q)) :=
  match a with
  | Nd2 rows =>
      let sorted := map sort_pair rows in
      match sorted with
      | [lims] => Ok (repeat lims mspace_ndims)
      | _ => Ok sorted
      end
  | _ => Raise AxisError
  end.

(** [_validate_limits] below its first test: the remaining [elif]
    branches on rank and shape, the equal-pairs guard, then the sort and
    the broadcast. *)
Definition limits_checks (mspace_ndims : nat) (a : nd Q) : res (list (Q * Q)) :=
  if negb (nat_in (ndim a) [1; 2]%nat) then Raise ValueError
  else if Nat.eqb (ndim a) 2 && negb (Nat.eqb (shape1 a) 2) then Raise ValueError
  else if Nat.eqb (ndim a) 2 && negb (nat_in (shape0 a) [1%nat; mspace_ndims])
  then Raise ValueError
  else if Nat.eqb (ndim a) 1 && negb (nat_in (shape0 a) [2%nat; mspace_ndims])
  then Raise ValueError
  else
    res_bind (any_pair_equal a) (fun some_equal =>
    if some_equal then Raise ValueError
    else sort_and_broadcast mspace_ndims a).

(** [GridLayer._validate_limits]: the conversion to an array, the dtype
    test, and the rest. *)
Definition _validate_limits (mspace_ndims : nat) (limits : arg Q)
  : res (list (Q * Q)) :=
  res_bind (force_array float64 limits) (fun limits =>
  if negb (issubdtype (arr_dtype limits) floating)
     || negb (issubdtype (arr_dtype limits) integer)
  then Raise ValueError
  else limits_checks mspace_ndims (arr limits)).

(** [GridLayer._validate_npoints].  The counts are unbounded integers;
    [np.array(npoints, dtype=np.int32)] wraps beyond [2^31 - 1], and
    what is said of the counts returned holds of the wrapped ones. *)
Definition _validate_npoints (mspace_ndims : nat) (npoints : arg Z)
  : res (list Z) :=
  res_bind (force_array int32 npoints) (fun npoints =>
  let a := arr npoints in
  if negb (issubdtype (arr_dtype npoints) integer) then Raise ValueError
  else if negb (Nat.eqb (ndim a) 1) then Raise ValueError
  else if negb (nat_in (arr_size a) [1%nat; mspace_ndims]) then Raise ValueError
  else
    match a with
    | Nd1 l =>
        if existsb (fun n => (n <=? 0)%Z) l then Raise ValueError
        else match l with
             | [n] => Ok (repeat n mspace_ndims)
             | _ => Ok l
             end
    | _ => Raise ValueError
    end).

(** [np.linspace(start, stop, num=num)] in exact arithmetic; with more
    than one sample the last one is overwritten by [stop]. *)
Definition linspace (start stop : Q) (num : Z) : res (list Q) :=
  if (num <? 0)%Z then Raise ValueError
  else
    let step := (stop - start) / inject_Z (num - 1) in
    let y := map (fun i => inject_Z (Z.of_nat i) * step + start)
                 (seq 0 (Z.to_nat num)) in
    if (1 <? num)%Z then Ok (removelast y ++ [stop]) else Ok y.

(** The loop [for lims, num in zip(self.limits, self.npoints)]. *)
Fixpoint grid_axes (limits : list (Q * Q)) (npoints : list Z)
  : res (list (list Q)) :=
  match limits, npoints with
  | lims :: limits', num :: npoints' =>
      let num := if Qeq_bool (fst lims) (snd lims) then 1%Z else num in
      res_bind (linspace (fst lims) (snd lims) num) (fun ax =>
      res_bind (grid_axes limits' npoints') (fun axs => Ok (ax :: axs)))
  | _, _ => Ok []
  end.

(** [np.meshgrid] of the axes with [indexing="ij"], stacked along a
    trailing axis by the loop [layer[..., ii] = ax_pts]:
    the points in C order, the entry at index [(i1, ..., iN)] being
    [(axs[0][i1], ..., axs[N-1][iN])]. *)
Fixpoint meshgrid_ij (axs : list (list Q)) : list (list Q) :=
  match axs with
  | [] => [[]]
  | ax :: rest => flat_map (fun a => map (cons a) (meshgrid_ij rest)) ax
  end.

(** A point matrix: its shape and, in C order, the coordinates the loop
    writes for each point (all of them when there is one axis per
    dimension, as validated inputs guarantee). *)
Record point_matrix : Type := PointMatrix {
  pm_shape : list nat;
  pm_points : list (list Q);
}.

(** [GridLayer._generate_point_matrix]. *)
Definition _generate_point_matrix (mspace_ndims : nat)
  (limits : list (Q * Q)) (npoints : list Z) : res point_matrix :=
  res_bind (grid_axes limits npoints) (fun axs =>
  if Nat.leb (length axs) mspace_ndims
  then Ok (PointMatrix (map (@length Q) axs ++ [mspace_ndims]) (meshgrid_ij axs))
  else Raise IndexError).

(** C-order offset of a multi-index, and [layer[i1, ..., iN, :]]. *)
Fixpoint flat_index (dims idx : list nat) : option nat :=
  match dims, idx with
  | [], [] => Some 0%nat
  | d :: dims', i :: idx' =>
      if Nat.ltb i d
      then option_map (fun k => (i * fold_right Nat.mul 1 dims' + k)%nat)
                      (flat_index dims' idx')
      else None
  | _, _ => None
  end.

Definition point_at (m : point_matrix) (idx : list nat) : option (list Q) :=
  match flat_index (removelast (pm_shape m)) idx with
  | Some k => nth_error (pm_points m) k
  | None => None
  end.

(** [GridLayer._validate_inputs]. *)
Definition GridLayer_validate_inputs (mspace_ndims : nat)
  (limits : arg Q) (npoints : arg Z) : res (list (Q * Q) * list Z) :=
  res_bind (_validate_limits mspace_ndims limits) (fun limits =>
  res_bind (_validate_npoints mspace_ndims npoints) (fun npoints =>
  Ok (limits, npoints))).

(** A constructed layer: the validated inputs and the point matrix. *)
Record layer : Type := Layer {
  limits : list (Q * Q);
  npoints : list Z;
  points : point_matrix;
}.

(** Modelled from the spec: [BaseLayer] (layers/base.py) is not among
    the sources.  Validation is "always raised synchronously at
    construction", and the layer's array is "written into the shared
    dataset" at construction, as [BaseExclusion.__init__] does for
    exclusions: the inputs are validated, then the matrix is generated. *)
Definition BaseLayer_init (mspace_ndims : nat)
  (validated : res (list (Q * Q) * list Z)) : res layer :=
  res_bind validated (fun v =>
  res_bind (_generate_point_matrix mspace_ndims (fst v) (snd v)) (fun m =>
  Ok (Layer (fst v) (snd v) m))).

(** [GridLayer.__init__]: [npoints] may come under its old name [steps]. *)
Definition GridLayer (mspace_ndims : nat) (limits : arg Q)
  (npoints steps : option (arg Z)) : res layer :=
  match npoints, steps with
  | Some n, _ | None, Some n =>
      BaseLayer_init mspace_ndims (GridLayer_validate_inputs mspace_ndims limits n)
  | None, None => Raise TypeError
  end.

(** [GridCNStepLayer._validate_center]. *)
Definition _validate_center (mspace_ndims : nat) (center : arg Q) : res (list Q) :=
  let conv := match center with
              | NdArray dt a => Ok (Array dt a)
              | PyList a =>
                  if rectangular a then Ok (Array float64 (squeeze a))
                  else Raise ValueError
              end in
  res_bind conv (fun center =>
  match arr center with
  | Nd1 l => if Nat.eqb (length l) mspace_ndims then Ok l else Raise ValueError
  | _ => Raise ValueError
  end).

(** [GridCNStepLayer._validate_step_size]. *)
Definition _validate_step_size (mspace_ndims : nat) (step_size : arg Q)
  : res (list Q) :=
  let conv := match step_size with
              | NdArray dt a => Ok (Array dt a)
              | PyList a =>
                  if rectangular a then Ok (Array float64 (squeeze a))
                  else Raise ValueError
              end in
  res_bind conv (fun step_size =>
  match arr step_size with
  | Nd1 l =>
      if negb (nat_in (length l) [1%nat; mspace_ndims]) then Raise ValueError
      else match l with
           | [s] => Ok (repeat s mspace_ndims)
           | _ => Ok l
           end
  | _ => Raise ValueError
  end).

(** The limits [GridCNStepLayer._validate_inputs] calculates, one row
    per entry of [center]:
    [limits[..., 1] = 0.5 * (npoints - 1) * step_size],
    [limits[..., 0] = -limits[..., 1]], [limits + center[..., None]].
    Arrays of unequal length do not broadcast.  The arithmetic is
    exact; in float64 a half width below the spacing of the floats
    around the centre is absorbed (centre 1e17, step 1) and both limits
    equal the centre. *)
Fixpoint calculate_limits (center : list Q) (npoints : list Z) (step_size : list Q)
  : res (list (list Q)) :=
  match center, npoints, step_size with
  | [], [], [] => Ok []
  | c :: center', n :: npoints', s :: step_size' =>
      let hi := (1 # 2) * inject_Z (n - 1) * s in
      res_bind (calculate_limits center' npoints' step_size') (fun rows =>
      Ok ([- hi + c; hi + c] :: rows))
  | _, _, _ => Raise ValueError
  end.

(** [GridCNStepLayer._validate_inputs]. *)
Definition GridCNStepLayer_validate_inputs (mspace_ndims : nat)
  (center : arg Q) (npoints : arg Z) (step_size : arg Q)
  : res (list (Q * Q) * list Z) :=
  res_bind (_validate_center mspace_ndims center) (fun center =>
  res_bind (_validate_npoints mspace_ndims npoints) (fun npoints =>
  res_bind (_validate_step_size mspace_ndims step_size) (fun step_size =>
  res_bind (calculate_limits center npoints step_size) (fun limits =>
  res_bind (_validate_limits mspace_ndims (NdArray float64 (Nd2 limits)))
    (fun limits => Ok (limits, npoints)))))).

(** [GridCNStepLayer.__init__]. *)
Definition GridCNStepLayer (mspace_ndims : nat)
  (center : arg Q) (npoints : arg Z) (step_size : arg Q) : res layer :=
  BaseLayer_init mspace_ndims
    (GridCNStepLayer_validate_inputs mspace_ndims center npoints step_size).

(** [(axs[0][i1], ..., axs[N-1][iN])]: the coordinates the axes hold at
    a multi-index. *)
Definition axes_at (axs : list (list Q)) (idx : list nat) : list Q :=
  map (fun ai => nth (snd ai) (fst ai) 0) (combine axs idx).

(** Equality of point lists up to the value of each rational. *)
Definition point_eqb (p q : list Q) : bool :=
  Nat.eqb (length p) (length q)
  && forallb (fun xy => Qeq_bool (fst xy) (snd xy)) (combine p q).

Definition points_eqb (ps qs : list (list Q)) : bool :=
  Nat.eqb (length ps) (length qs)
  && forallb (fun pq => point_eqb (fst pq) (snd pq)) (combine ps qs).

End Grid.

(** * motion_list/exclusions/lapd.py *)

Module Exclusion.
Local Open Scope Q_scope.

(** Values an argument of [LaPDXYExclusion.__init__] can hold: a
    number ([float] or [int]), a string (ASCII), or [None]. *)
Inductive pyval : Type :=
| PNum (q : Q)
| PStr (s : string)
| PNone.

(** [isinstance(v, (float, int))]. *)
Definition is_number (v : pyval) : bool :=
  match v with PNum _ => true | _ => false end.

Definition is_str (v : pyval) : bool :=
  match v with PStr _ => true | _ => false end.

(** [self.inputs]. *)
Record inputs : Type := Inputs {
  diameter : pyval;
  pivot_radius : pyval;
  port_location : pyval;
  cone_full_angle : pyval;
  include_cone : bool;
}.

(** [str.lower] and [str.casefold], which agree on ASCII. *)
Definition lower_ascii (c : ascii) : ascii :=
  let n := nat_of_ascii c in
  if (Nat.leb 65 n && Nat.leb n 90)%bool then ascii_of_nat (n + 32) else c.

Fixpoint lower (s : string) : string :=
  match s with
  | EmptyString => EmptyString
  | String c s' => String (lower_ascii c) (lower s')
  end.

Definition casefold : string -> string := lower.

(** [LaPDXYExclusion._port_location_to_angle]. *)
Definition _port_location_to_angle : list (string * Q) :=
  [ ("e", 0); ("east", 0);
    ("t", 90); ("top", 90);
    ("w", 180); ("west", 180);
    ("b", 270); ("bottom", 270); ("bot", 270) ]%string.

Fixpoint dict_get (d : list (string * Q)) (k : string) : option Q :=
  match d with
  | [] => None
  | (k', v) :: d' => if String.eqb k k' then Some v else dict_get d' k
  end.

Definition Qlt_bool (a b : Q) : bool := negb (Qle_bool b a).

(** [np.abs] of an argument. *)
Definition np_abs (v : pyval) : res pyval :=
  match v with
  | PNum q => Ok (PNum (Qabs q))
  | _ => Raise TypeError
  end.

(** The cone-angle test: not a number, or
    [0 <= self.cone_full_angle >= 180], Python's chained comparison
    [0 <= a and a >= 180]. *)
Definition validate_cone_full_angle (v : pyval) : res unit :=
  match v with
  | PNum a =>
      if Qle_bool 0 a && Qle_bool 180 a then Raise ValueError else Ok tt
  | _ => Raise ValueError
  end.

(** The port-location part: a string is looked up (unknown tokens
    raise) and replaced by its angle, then the angle must be a number
    in [(-180, 360)]. *)
Definition validate_port_location (v : pyval) : res pyval :=
  res_bind
    (match v with
     | PStr s =>
         if existsb (String.eqb (casefold s))
              (map (fun kv => casefold (fst kv)) _port_location_to_angle)
         then match dict_get _port_location_to_angle (lower s) with
              | Some angle => Ok (PNum angle)
              | None => Raise KeyError
              end
         else Raise ValueError
     | _ => Ok v
     end)
    (fun port =>
     match port with
     | PNum a =>
         if negb (Qlt_bool (-180) a && Qlt_bool a 360) then Raise ValueError
         else Ok port
     | _ => Raise TypeError
     end).

(** [LaPDXYExclusion._validate_inputs]: the inputs as it leaves them. *)
Definition _validate_inputs (self : inputs) : res inputs :=
  res_bind (np_abs (diameter self)) (fun d =>
  if negb (include_cone self)
  then Ok (Inputs d PNone PNone PNone (include_cone self))
  else
    res_bind (np_abs (pivot_radius self)) (fun r =>
    res_bind (validate_cone_full_angle (cone_full_angle self)) (fun _ =>
    res_bind (validate_port_location (port_location self)) (fun port =>
    Ok (Inputs d r port (cone_full_angle self) (include_cone self)))))).

(** [BaseExclusion.__init__] for this class: validation, then, unless
    [skip_ds_add], the mask is generated and stored.  The circular and
    divider exclusions the mask is composed of are not among the
    sources, so mask generation is an argument. *)
Definition LaPDXYExclusion {mask : Type} (_generate_exclusion : inputs -> mask)
  (skip_ds_add : bool) (kwargs : inputs) : res (inputs * option mask) :=
  res_bind (_validate_inputs kwargs) (fun self =>
  if skip_ds_add then Ok (self, None)
  else Ok (self, Some (_generate_exclusion self))).

(** The defaults of [__init__]: diameter 100, pivot radius -58.771,
    port "E", cone angle 80, cone included. *)
Definition defaults : inputs :=
  Inputs (PNum 100) (PNum (- (58771 # 1000))) (PStr "E") (PNum 80) true.

Definition with_cone_full_angle (v : pyval) (self : inputs) : inputs :=
  Inputs (diameter self) (pivot_radius self) (port_location self) v
    (include_cone self).

Definition with_port_location (v : pyval) (self : inputs) : inputs :=
  Inputs (diameter self) (pivot_radius self) v (cone_full_angle self)
    (include_cone self).

(** ** The mask *)

(** A boolean array over the grid of the dataset, [True] marking a
    point the probe may go to; [point] indexes the grid. *)
Definition mask (point : Type) : Type := point -> bool.

(** [np.logical_and] of two arrays over the same grid. *)
Definition logical_and {point : Type} (a b : mask point) : mask point :=
  fun p => a p && b p.

(** The exclusions a [LaPDXYExclusion] is composed of, as constructed:
    [CircularExclusion(ds, skip_ds_add=True, radius=, center=, exclude=)]
    and [DividerExclusion(ds, skip_ds_add=True, mb=, exclude=)].  The two
    classes are not among the sources; what mask each one has is an
    argument ([exclusion_of]) of the functions below. *)
Inductive composed : Type :=
| CircularExclusion (radius : R) (center : R * R) (exclude : string)
| DividerExclusion (mb : R * R) (exclude : string).

(** The loop of [_combine_exclusions], [exclusion] being its variable. *)
Fixpoint combine_loop {point : Type} (exclusion : option (mask point))
  (exs : list (mask point)) : option (mask point) :=
  match exs with
  | [] => exclusion
  | ex :: rest =>
      combine_loop
        (match exclusion with
         | None => Some ex
         | Some e => Some (logical_and e ex)
         end) rest
  end.

(** [LaPDXYExclusion._combine_exclusions]. *)
Definition _combine_exclusions {point : Type} (exclusion_of : composed -> mask point)
  (composed_exclusions : list composed) : option (mask point) :=
  combine_loop None (map exclusion_of composed_exclusions).

(** A validated input used as a number. *)
Definition number (v : pyval) : res R :=
  match v with
  | PNum q => Ok (Q2R q)
  | _ => Raise TypeError
  end.

(** [np.radians]. *)
Definition radians (deg : R) : R := (deg * (PI / 180))%R.

(** 2x2 matrices, row major; [np.linalg.inv] in exact arithmetic;
    [np.matmul] of a vector and a matrix. *)
Definition mat2 : Type := (R * R) * (R * R).

Definition rot_matrix (theta : R) : mat2 :=
  ((cos theta, - sin theta), (sin theta, cos theta))%R.

Definition linalg_inv (m : mat2) : mat2 :=
  let a := fst (fst m) in
  let b := snd (fst m) in
  let c := fst (snd m) in
  let d := snd (snd m) in
  let det := (a * d - b * c)%R in
  ((d / det, - b / det), (- c / det, a / det))%R.

Definition vecmat (v : R * R) (m : mat2) : R * R :=
  (fst v * fst (fst m) + snd v * fst (snd m),
   fst v * snd (fst m) + snd v * snd (snd m))%R.

(** The keys of [cone_trajectories], in insertion order. *)
Inductive cone_key : Type := upper_k | lower_k.

Definition cone_trajectories (alpha : R) (key : cone_key) : R * R :=
  match key with
  | upper_k => (- cos alpha, sin alpha)%R
  | lower_k => (- cos alpha, - sin alpha)%R
  end.

(** One iteration of the loop over [cone_trajectories]: the divider
    that is appended. *)
Definition cone_divider (pivot_radius theta alpha : R) (key : cone_key) : composed :=
  let pivot_xy := (pivot_radius * cos theta, pivot_radius * sin theta)%R in
  let inv_rot_matrix := linalg_inv (rot_matrix theta) in
  let p_traj := vecmat (cone_trajectories alpha key) inv_rot_matrix in
  let slope := (snd p_traj / fst p_traj)%R in
  let intercept := (snd pivot_xy - slope * fst pivot_xy)%R in
  let sign := match key with upper_k => 1%R | lower_k => (-1)%R end in
  let exc_dir := vecmat (0, sign * 1)%R inv_rot_matrix in
  let axis_is_0 :=
    if Rlt_dec (Rabs (snd exc_dir)) (Rabs (fst exc_dir)) then true else false in
  let component := if axis_is_0 then fst exc_dir else snd exc_dir in
  let axis := if axis_is_0 then "0"%string else "1"%string in
  let exclude :=
    if Rlt_dec 0 component then ("+e" ++ axis)%string else ("-e" ++ axis)%string in
  DividerExclusion (slope, intercept) exclude.

(** [LaPDXYExclusion._generate_exclusion].  The method appends to
    [self.composed_exclusions], which only [__init__] empties, so the
    list is threaded through: the list the call leaves, and what it
    returns or raises. *)
Definition _generate_exclusion {point : Type} (exclusion_of : composed -> mask point)
  (self : inputs) (composed_exclusions : list composed)
  : list composed * res (option (mask point)) :=
  match number (diameter self) with
  | Raise e => (composed_exclusions, Raise e)
  | Ok d =>
      let composed1 :=
        (composed_exclusions
           ++ [CircularExclusion (0.5 * d)%R (0, 0)%R "outside"])%list in
      if negb (include_cone self)
      then (composed1, Ok (_combine_exclusions exclusion_of composed1))
      else
        match number (port_location self) with
        | Raise e => (composed1, Raise e)
        | Ok port =>
            match number (cone_full_angle self) with
            | Raise e => (composed1, Raise e)
            | Ok cone =>
                match number (pivot_radius self) with
                | Raise e => (composed1, Raise e)
                | Ok r =>
                    let theta := radians port in
                    let alpha := (0.5 * radians cone)%R in
                    let composed3 :=
                      (composed1 ++ [cone_divider r theta alpha upper_k;
                                     cone_divider r theta alpha lower_k])%list in
                    (composed3, Ok (_combine_exclusions exclusion_of composed3))
                end
            end
        end
  end.

End Exclusion.

(** * motion_builder/exclusions/base.py *)

Module BaseExclusion.

(** [RuntimeError], and the exceptions of the methods a subclass
    supplies. *)
Inductive builder_exn : Type :=
| RuntimeError
| Builtin (e : exn).

Inductive outcome (A : Type) : Type :=
| Returns (a : A)
| Raises (e : builder_exn).
Arguments Returns {A} a.
Arguments Raises {A} e.

Definition of_res {A : Type} (r : res A) : outcome A :=
  match r with
  | Ok a => Returns a
  | Raise e => Raises (Builtin e)
  end.

Section Dataset.

(** The grid of the dataset and the coordinates of a point of the
    motion space. *)
Variable point : Type.

(** An exclusion: its name and the name of the global mask in the
    dataset, [skip_ds_add], and what its [_generate_exclusion] gives.
    The dataset [self._ds] holds named boolean arrays over the grid. *)
Record exclusion_item : Type := ExclusionItem {
  name : string;
  mask_name : string;
  skip_ds_add : bool;
  _generate_exclusion : res (Exclusion.mask point);
}.

(** Modelled from the spec: [MBItem] (motion_builder/item.py) is not
    among the sources.  Each item "owns a named entry in a shared
    N-dimensional coordinate dataset": [self.item] is the entry under
    the item's name, [self.mask] the entry under the name of the global
    mask; a missing entry is a [KeyError]. *)
Definition item (self : exclusion_item)
  (ds : gmap string (Exclusion.mask point)) : res (Exclusion.mask point) :=
  match ds !! name self with
  | Some m => Ok m
  | None => Raise KeyError
  end.

Definition global_mask (self : exclusion_item)
  (ds : gmap string (Exclusion.mask point)) : res (Exclusion.mask point) :=
  match ds !! mask_name self with
  | Some m => Ok m
  | None => Raise KeyError
  end.

(** The [exclusion] property: the stored array, or, on [KeyError], a
    freshly generated one. *)
Definition exclusion (self : exclusion_item)
  (ds : gmap string (Exclusion.mask point)) : res (Exclusion.mask point) :=
  match item self ds with
  | Ok m => Ok m
  | Raise KeyError => _generate_exclusion self
  | Raise e => Raise e
  end.

(** [BaseExclusion.regenerate_exclusion]. *)
Definition regenerate_exclusion (self : exclusion_item)
  (ds : gmap string (Exclusion.mask point))
  : outcome (gmap string (Exclusion.mask point)) :=
  if skip_ds_add self then Raises RuntimeError
  else
    match _generate_exclusion self with
    | Ok m => Returns (<[name self := m]> ds)
    | Raise e => Raises (Builtin e)
    end.

(** [BaseExclusion.update_global_mask]. *)
Definition update_global_mask (self : exclusion_item)
  (ds : gmap string (Exclusion.mask point))
  : outcome (gmap string (Exclusion.mask point)) :=
  if skip_ds_add self then Raises RuntimeError
  else
    match global_mask self ds with
    | Raise e => Raises (Builtin e)
    | Ok gm =>
        match exclusion self ds with
        | Raise e => Raises (Builtin e)
        | Ok ex => Returns (<[mask_name self := Exclusion.logical_and gm ex]> ds)
        end
    end.

(** [BaseExclusion.__init__], after the attributes are set: validation,
    then, unless [skip_ds_add], the array is stored and the global mask
    updated. *)
Definition __init__ (self : exclusion_item) (_validate_inputs : res unit)
  (ds : gmap string (Exclusion.mask point))
  : outcome (gmap string (Exclusion.mask point)) :=
  match _validate_inputs with
  | Raise e => Raises (Builtin e)
  | Ok _ =>
      if skip_ds_add self then Returns ds
      else
        match regenerate_exclusion self ds with
        | Raises e => Raises e
        | Returns ds' => update_global_mask self ds'
        end
  end.

(** [BaseExclusion.is_excluded]: [nearest] stands for
    [sel(method="nearest", ...)], the grid point next to the given
    coordinates. *)
Definition is_excluded (mspace_ndims : nat) (nearest : list R -> point)
  (self : exclusion_item) (ds : gmap string (Exclusion.mask point))
  (coordinates : list R) : res bool :=
  if negb (Nat.eqb (length coordinates) mspace_ndims) then Raise ValueError
  else
    match exclusion self ds with
    | Raise e => Raise e
    | Ok ex => Ok (negb (ex (nearest coordinates)))
    end.

End Dataset.

Arguments ExclusionItem {point} name mask_name skip_ds_add _generate_exclusion.
Arguments name {point} e.
Arguments mask_name {point} e.
Arguments skip_ds_add {point} e.
Arguments _generate_exclusion {point} e.
Arguments item {point} self ds.
Arguments global_mask {point} self ds.
Arguments exclusion {point} self ds.
Arguments regenerate_exclusion {point} self ds.
Arguments update_global_mask {point} self ds.
Arguments __init__ {point} self _validate_inputs ds.
Arguments is_excluded {point} mspace_ndims nearest self ds coordinates.

End BaseExclusion.

(** * controllers/motor.py *)

Module Motor.
Local Open Scope string_scope.

(** ** Values, status dictionaries and payloads *)

(** What a status field or a command reply can hold. *)
Inductive value : Type :=
| VNone
| VBool (b : bool)
| VInt (z : Z)
| VStr (s : string).

#[global] Instance value_eq_dec : EqDecision value.
Proof. solve_decision. Defined.

(** Python's [==] on these values: [True == 1] and [False == 0]. *)
Definition py_eq (a b : value) : bool :=
  match a, b with
  | VNone, VNone => true
  | VBool x, VBool y => Bool.eqb x y
  | VInt x, VInt y => (x =? y)%Z
  | VBool x, VInt y | VInt y, VBool x => ((if x then 1 else 0) =? y)%Z
  | VStr x, VStr y => String.eqb x y
  | _, _ => false
  end.

(** The argument of a signal: a plain value or a dictionary of fields. *)
Inductive pyobj : Type :=
| PVal (v : value)
| PDict (d : gmap string value).

Inductive loglevel : Type := Debug | Warning | Error.

(** What the driver does to the outside world, in order. *)
Inductive event : Type :=
| EvLog (lvl : loglevel)
| EvConnect                       (* socket.socket(...); s.connect(...) *)
| EvSend (data : string)          (* self.socket.send(data) *)
| EvRecv                          (* self.socket.recv(16) *)
| EvEmit (payload : pyobj)        (* status_changed.emit(payload) *)
| EvCall (handler : nat) (payload : pyobj).

(** The network, as the driver meets it: what the n-th connection
    attempt and the n-th [send] do ([None]: they succeed), and what the
    successive [recv(16)] calls return.  After the last scripted chunk
    the peer is silent and the socket's one-second timeout fires; the
    peer that closes the connection instead is met in [recv_stream]. *)
Record network : Type := Network {
  connect_outcome : nat -> option exn;
  send_outcome : nat -> option exn;
  recv_script : list (res string);
}.

(** The state of a [Motor] and of its [status_changed] signal.  A
    handler is known by its identity, and each call of a handler is
    recorded; what the handler does when called is given apart (see
    [handler_effect]).  Text and bytes are both [string]; the codec
    errors of non-ASCII text are outside the model. *)
Record motor : Type := MkMotor {
  _status : gmap string value;
  handlers : list nat;              (* status_changed.handlers *)
  max_connection_attempts : nat;    (* _settings["max_connection_attempts"] *)
  net : network;
  n_connect : nat;                  (* connection attempts made so far *)
  n_send : nat;                     (* sends made so far *)
  trace : list event;
}.

Definition _default_status : gmap string value :=
  list_to_map [
    ("connected", VBool false); ("position", VNone); ("alarm", VNone);
    ("enabled", VNone); ("fault", VNone); ("moving", VNone);
    ("homing", VNone); ("jogging", VNone); ("motion_in_progress", VNone);
    ("in_position", VNone); ("stopping", VNone); ("waiting", VNone) ].

(** ** A state-and-exception monad over [motor] *)

Definition M (A : Type) : Type := motor -> res A * motor.

Definition ret {A} (a : A) : M A := fun m => (Ok a, m).
Definition raise {A} (e : exn) : M A := fun m => (Raise e, m).

Definition bind {A B} (c : M A) (k : A -> M B) : M B :=
  fun m =>
    match c m with
    | (Ok a, m') => k a m'
    | (Raise e, m') => (Raise e, m')
    end.

Notation "x <- c ;; k" := (bind c (fun x => k))
  (at level 100, c at next level, right associativity).
Notation "c ;;; k" := (bind c (fun _ => k))
  (at level 100, right associativity).

(** [try: c  except <caught>: h]. *)
Definition try_except {A} (c : M A) (caught : exn -> bool) (h : exn -> M A) : M A :=
  fun m =>
    match c m with
    | (Raise e, m') => if caught e then h e m' else (Raise e, m')
    | r => r
    end.

Definition lift {A} (r : res A) : M A := fun m => (r, m).

Definition add_event (ev : event) (m : motor) : motor :=
  MkMotor (_status m) (handlers m) (max_connection_attempts m)
    (net m) (n_connect m) (n_send m) (trace m ++ [ev]).

Definition emit_event (ev : event) : M unit := fun m => (Ok tt, add_event ev m).

Definition log (lvl : loglevel) : M unit := emit_event (EvLog lvl).

Definition get_status : M (gmap string value) := fun m => (Ok (_status m), m).

Definition with_status (s : gmap string value) (m : motor) : motor :=
  MkMotor s (handlers m) (max_connection_attempts m)
    (net m) (n_connect m) (n_send m) (trace m).

Definition set_status (s : gmap string value) : M unit :=
  fun m => (Ok tt, with_status s m).

(** ** SimpleSignal *)

Definition handler_in (f : nat) (hs : list nat) : bool := existsb (Nat.eqb f) hs.

Definition set_handlers (hs : list nat) : M unit :=
  fun m => (Ok tt, MkMotor (_status m) hs (max_connection_attempts m)
                     (net m) (n_connect m) (n_send m) (trace m)).

(** [SimpleSignal.connect]. *)
Definition signal_connect (func : nat) : M unit :=
  fun m => if handler_in func (handlers m) then (Ok tt, m)
           else set_handlers (handlers m ++ [func]) m.

(** [list.remove]: the first occurrence goes. *)
Fixpoint list_remove (func : nat) (hs : list nat) : option (list nat) :=
  match hs with
  | [] => None
  | h :: hs' => if Nat.eqb func h then Some hs'
                else option_map (cons h) (list_remove func hs')
  end.

(** [SimpleSignal.disconnect]: the [ValueError] of a missing handler is
    swallowed. *)
Definition signal_disconnect (func : nat) : M unit :=
  fun m => match list_remove func (handlers m) with
           | Some hs => set_handlers hs m
           | None => (Ok tt, m)
           end.

(** [for handler in self.handlers: handler(payload)] when every handler
    returns and leaves the signal alone; [emit_loop] below is the loop
    for handlers that do more. *)
Fixpoint call_handlers (hs : list nat) (payload : pyobj) : M unit :=
  match hs with
  | [] => ret tt
  | h :: hs' => emit_event (EvCall h payload) ;;; call_handlers hs' payload
  end.

(** [SimpleSignal.emit] for such handlers: every handler is called with
    the payload. *)
Definition emit (payload : pyobj) : M unit :=
  emit_event (EvEmit payload) ;;;
  fun m => call_handlers (handlers m) payload m.

(** ** Motor.update_status *)

(** The dictionary [changed] that [update_status] builds from the old
    and the new status. *)
Definition changed_fields (old_status new_status : gmap string value)
  : gmap string value :=
  merge (fun o n =>
           match n with
           | None => None
           | Some value =>
               match o with
               | None => Some value
               | Some old => if py_eq old value then None else Some value
               end
           end) old_status new_status.

(** [Motor.update_status]. *)
Definition update_status (values : gmap string value) : M unit :=
  old_status <- get_status ;;
  let new_status := values ∪ old_status in
  let changed := changed_fields old_status new_status in
  (if decide (changed = ∅) then ret tt
   else log Debug ;;; emit (PVal (VBool true))) ;;;
  set_status new_status.

(** ** Listeners that act *)

(** What a handler does when it is called: it returns, it raises, or it
    connects or disconnects a handler of the signal that called it
    (itself, perhaps) and returns.  Handlers that call back into the
    motor are left out. *)
Inductive handler_effect : Type :=
| HReturns
| HRaises (e : exn)
| HConnects (func : nat)
| HDisconnects (func : nat).

(** [for handler in self.handlers: handler(payload)] of
    [SimpleSignal.emit], the handlers doing what [behaviour] says.  The
    [for] statement reads the live list by position: a handler removed
    at or before the position moves the rest one place down, a handler
    appended is called in its turn.  Nothing catches what a handler
    raises.  [fuel] bounds the number of turns; [None] when the loop
    has not ended within them. *)
Fixpoint emit_loop (behaviour : nat -> handler_effect) (payload : pyobj)
  (fuel position : nat) (m : motor) : option (res unit * motor) :=
  match fuel with
  | O => None
  | S fuel' =>
      match nth_error (handlers m) position with
      | None => Some (Ok tt, m)
      | Some handler =>
          let m := add_event (EvCall handler payload) m in
          match behaviour handler with
          | HReturns => emit_loop behaviour payload fuel' (S position) m
          | HRaises e => Some (Raise e, m)
          | HConnects func =>
              emit_loop behaviour payload fuel' (S position)
                (snd (signal_connect func m))
          | HDisconnects func =>
              emit_loop behaviour payload fuel' (S position)
                (snd (signal_disconnect func m))
          end
      end
  end.

(** [SimpleSignal.emit] with such handlers. *)
Definition emit_with (behaviour : nat -> handler_effect) (fuel : nat)
  (payload : pyobj) (m : motor) : option (res unit * motor) :=
  emit_loop behaviour payload fuel 0 (add_event (EvEmit payload) m).

(** [Motor.update_status] with such handlers: [self._status] is
    assigned when [emit] has returned, and not at all when a handler
    raises. *)
Definition update_status_with (behaviour : nat -> handler_effect) (fuel : nat)
  (values : gmap string value) (m : motor) : option (res unit * motor) :=
  let old_status := _status m in
  let new_status := values ∪ old_status in
  let changed := changed_fields old_status new_status in
  if decide (changed = ∅) then Some (Ok tt, with_status new_status m)
  else
    match emit_with behaviour fuel (PVal (VBool true)) (add_event (EvLog Debug) m) with
    | Some (Ok _, m') => Some (Ok tt, with_status new_status m')
    | Some (Raise e, m') => Some (Raise e, m')
    | None => None
    end.

(** ** The socket *)

Definition is_ConnectionError (e : exn) : bool :=
  match e with
  | ConnectionResetError | ConnectionAbortedError
  | ConnectionRefusedError | BrokenPipeError => true
  | _ => false
  end.

(** The exceptions [Motor.connect] catches. *)
Definition connect_catches (e : exn) : bool :=
  match e with
  | TimeoutError | InterruptedError | ConnectionRefusedError | SocketTimeout => true
  | _ => false
  end.

(** [s = socket.socket(...); s.settimeout(1); s.connect((ip, port))]. *)
Definition socket_connect : M unit :=
  fun m =>
    let m' := MkMotor (_status m) (handlers m) (max_connection_attempts m)
                (net m) (S (n_connect m)) (n_send m) (trace m ++ [EvConnect]) in
    match connect_outcome (net m) (n_connect m) with
    | None => (Ok tt, m')
    | Some e => (Raise e, m')
    end.

(** [self.socket.send(data)]. *)
Definition socket_send (data : string) : M unit :=
  fun m =>
    let m' := MkMotor (_status m) (handlers m) (max_connection_attempts m)
                (net m) (n_connect m) (S (n_send m)) (trace m ++ [EvSend data]) in
    match send_outcome (net m) (n_send m) with
    | None => (Ok tt, m')
    | Some e => (Raise e, m')
    end.

(** The body of [for _count in range(_allowed_attempts)] in
    [Motor.connect], for the attempts [_count], [_count + 1], ... that
    are left. *)
Fixpoint connect_loop (_allowed_attempts _count left : nat) : M unit :=
  match left with
  | O => ret tt
  | S left' =>
      connected <-
        try_except
          (log Debug ;;;
           socket_connect ;;;
           log Debug ;;;
           update_status {[ "connected" := VBool true ]} ;;;
           ret true)
          connect_catches
          (fun error_ =>
             if Nat.ltb (_count + 1) _allowed_attempts
             then log Warning ;;; ret false
             else log Error ;;; raise error_) ;;
      if (connected : bool) then ret tt
      else connect_loop _allowed_attempts (S _count) left'
  end.

(** [Motor.connect]. *)
Definition connect : M unit :=
  fun m => connect_loop (max_connection_attempts m) 0 (max_connection_attempts m) m.

(** ** Framing *)

Definition _header : string := String (ascii_of_nat 0) (String (ascii_of_nat 7) "").
Definition _eom : string := String (ascii_of_nat 13) "".

Fixpoint drop (n : nat) (s : string) : string :=
  match n, s with
  | S n', String _ s' => drop n' s'
  | _, _ => s
  end.

(** The text before and after the first occurrence of [sep]. *)
Fixpoint partition (sep s : string) : option (string * string) :=
  if String.prefix sep s then Some ("", drop (String.length sep) s)
  else match s with
       | "" => None
       | String c s' =>
           match partition sep s' with
           | Some (before, after) => Some (String c before, after)
           | None => None
           end
       end.

(** [sep in s]. *)
Definition contains (sep s : string) : bool :=
  match partition sep s with Some _ => true | None => false end.

(** [s.split(sep)[0]]. *)
Definition split_0 (sep s : string) : string :=
  match partition sep s with Some (before, _) => before | None => s end.

(** [s.split(sep)[1]], for [s] that contains [sep]. *)
Definition split_1 (sep s : string) : string :=
  match partition sep s with
  | Some (_, after) => split_0 sep after
  | None => ""
  end.

(** The loop of [Motor.recv] over the chunks still to come, each step
    one [self.socket.recv(16)]; returns the message, the chunks left,
    and how many [recv] calls were made. *)
Fixpoint recv_loop (script : list (res string)) (msg : string)
  : res string * list (res string) * nat :=
  match script with
  | [] => (Raise SocketTimeout, [], 1%nat)
  | Raise e :: script' => (Raise e, script', 1%nat)
  | Ok data :: script' =>
      let msg :=
        if (String.eqb msg "" && contains _header data)%bool
        then split_1 _header data
        else msg ++ data in
      if contains _eom msg then (Ok (split_0 _eom msg), script', 1%nat)
      else let '(r, rest, calls) := recv_loop script' msg in (r, rest, S calls)
  end.




(** [Motor.recv]. *)
Definition recv : M string :=
  fun m =>
    let '(r, rest, calls) := recv_loop (recv_script (net m)) "" in
    (r, MkMotor (_status m) (handlers m) (max_connection_attempts m)
          (Network (connect_outcome (net m)) (send_outcome (net m)) rest)
          (n_connect m) (n_send m) (trace m ++ repeat EvRecv calls)).

(** [Motor._send_raw_command]. *)
Definition _send_raw_command (cmd : string) : M string :=
  let cmd_str := _header ++ cmd ++ _eom in
  try_except (socket_send cmd_str) is_ConnectionError
    (fun _ =>
       update_status {[ "connected" := VBool false ]} ;;;
       connect ;;;
       socket_send cmd_str) ;;;
  recv.

(** ** The command table *)

(** The reply patterns, each a prefix, an optional sign and a run of
    characters from a class. *)
Inductive pattern : Type :=
| pat_AL    (* AL=(?P<return>[0-9]{4}) *)
| pat_ER    (* ER=(?P<return>[0-9]+) *)
| pat_EG    (* EG=(?P<return>[0-9]+) *)
| pat_IP    (* IP=(?P<return>-?[0-9]+) *)
| pat_RS.   (* RS=(?P<return>[ADEFHJMPRSTW]+) *)

Record command : Type := Command {
  send : option string;         (* a missing "send" key is a KeyError *)
  send_processor : bool;        (* int, when present *)
  recv_pattern : option pattern;
  recv_processor : bool;        (* int, when present *)
}.

Definition _commands (name : string) : option command :=
  if String.eqb name "alarm" then Some (Command (Some "AL") false (Some pat_AL) false)
  else if String.eqb name "alarm_reset" then Some (Command None false None false)
  else if String.eqb name "disable" then Some (Command (Some "MD") false None false)
  else if String.eqb name "enable" then Some (Command (Some "ME") false None false)
  else if String.eqb name "encoder_resolution"
  then Some (Command (Some "ER") false (Some pat_ER) true)
  else if String.eqb name "gearing" then Some (Command (Some "EG") false (Some pat_EG) true)
  else if String.eqb name "get_position"
  then Some (Command (Some "IP") false (Some pat_IP) true)
  else if String.eqb name "request_status"
  then Some (Command (Some "RS") false (Some pat_RS) false)
  else if (String.eqb name "set_position" || String.eqb name "set_distance")%bool
  then Some (Command (Some "DI{}") true None false)
  else if String.eqb name "stop" then Some (Command (Some "SK") false None false)
  else None.

Definition is_digit (c : ascii) : bool :=
  let n := nat_of_ascii c in (Nat.leb 48 n && Nat.leb n 57)%bool.

Definition is_status_letter (c : ascii) : bool :=
  existsb (Ascii.eqb c) (list_ascii_of_string "ADEFHJMPRSTW").

Fixpoint all_chars (p : ascii -> bool) (s : string) : bool :=
  match s with
  | "" => true
  | String c s' => (p c && all_chars p s')%bool
  end.

Definition strip_prefix (pre s : string) : option string :=
  if String.prefix pre s then Some (drop (String.length pre) s) else None.

Definition nonempty (s : string) : bool := negb (String.eqb s "").

(** [pattern.fullmatch(s)] and its group [return]; [None] when the
    string does not match. *)
Definition fullmatch (p : pattern) (s : string) : option string :=
  match p with
  | pat_AL =>
      match strip_prefix "AL=" s with
      | Some g => if (Nat.eqb (String.length g) 4 && all_chars is_digit g)%bool
                  then Some g else None
      | None => None
      end
  | pat_ER =>
      match strip_prefix "ER=" s with
      | Some g => if (nonempty g && all_chars is_digit g)%bool then Some g else None
      | None => None
      end
  | pat_EG =>
      match strip_prefix "EG=" s with
      | Some g => if (nonempty g && all_chars is_digit g)%bool then Some g else None
      | None => None
      end
  | pat_IP =>
      match strip_prefix "IP=" s with
      | Some g =>
          let digits := match strip_prefix "-" g with Some d => d | None => g end in
          if (nonempty digits && all_chars is_digit digits)%bool then Some g else None
      | None => None
      end
  | pat_RS =>
      match strip_prefix "RS=" s with
      | Some g => if (nonempty g && all_chars is_status_letter g)%bool
                  then Some g else None
      | None => None
      end
  end.

Definition digit_value (c : ascii) : Z := Z.of_nat (nat_of_ascii c - 48).

Fixpoint digits_value (acc : Z) (s : string) : Z :=
  match s with
  | "" => acc
  | String c s' => digits_value (10 * acc + digit_value c) s'
  end.

(** The blanks [int()] strips from ASCII text: tab, line feed, vertical
    tab, form feed, carriage return, and the space. *)
Definition is_space (c : ascii) : bool :=
  let n := nat_of_ascii c in
  ((Nat.leb 9 n && Nat.leb n 13) || Nat.eqb n 32)%bool.

Fixpoint lstrip (s : string) : string :=
  match s with
  | "" => ""
  | String c s' => if is_space c then lstrip s' else s
  end.

Fixpoint rstrip (s : string) : string :=
  match s with
  | "" => ""
  | String c s' =>
      match rstrip s' with
      | "" => if is_space c then "" else String c ""
      | t => String c t
      end
  end.

(** Decimal digits, a single underscore allowed between two of them. *)
Fixpoint digit_groups (after_digit : bool) (s : string) : bool :=
  match s with
  | "" => after_digit
  | String c s' =>
      if is_digit c then digit_groups true s'
      else (Ascii.eqb c "_" && after_digit && digit_groups false s')%bool
  end.

Fixpoint without_underscores (s : string) : string :=
  match s with
  | "" => ""
  | String c s' =>
      if Ascii.eqb c "_" then without_underscores s'
      else String c (without_underscores s')
  end.

(** [int(s)] for a string of ASCII text: blanks at both ends are
    dropped, then come an optional sign and decimal digits, which single
    underscores may group ([int("+5")], [int(" 12 ")], [int("1_000")]);
    anything else is a [ValueError].  (The ceiling on the number of
    digits that recent interpreters apply, 4300 by default, is left
    out.) *)
Definition int_of_string (s : string) : res Z :=
  let s := rstrip (lstrip s) in
  let '(neg, digits) := match strip_prefix "-" s with
                        | Some d => (true, d)
                        | None =>
                            match strip_prefix "+" s with
                            | Some d => (false, d)
                            | None => (false, s)
                            end
                        end in
  if digit_groups false digits
  then Ok (let n := digits_value 0 (without_underscores digits) in
           if neg then - n else n)%Z
  else Raise ValueError.

(** [int(v)]. *)
Definition py_int (v : value) : res value :=
  match v with
  | VInt z => Ok (VInt z)
  | VBool b => Ok (VInt (if b then 1 else 0))
  | VStr s => res_bind (int_of_string s) (fun z => Ok (VInt z))
  | VNone => Raise TypeError
  end.

(** [str(v)], as [str.format] renders it. *)
Definition py_str (v : value) : string :=
  match v with
  | VNone => "None"
  | VBool true => "True"
  | VBool false => "False"
  | VInt z => NilZero.string_of_int (Z.to_int z)
  | VStr s => s
  end.

(** [msg.format(value)] for the templates of the table: one [{}] at
    most, at the end. *)
Definition format (msg : string) (v : value) : string :=
  match partition "{}" msg with
  | Some (before, after) => before ++ py_str v ++ after
  | None => msg
  end.

(** [Motor.send_command]. *)
Definition send_command (command : string) (args : list value) : M value :=
  match _commands command with
  | None => raise KeyError
  | Some c =>
      match send c with
      | None => raise KeyError
      | Some msg =>
          let value := match args with v :: _ => v | [] => VStr "" end in
          value <- (if send_processor c then lift (py_int value) else ret value) ;;
          let msg := format msg value in
          recv_str <- _send_raw_command msg ;;
          recv_str <- match recv_pattern c with
                      | None => ret recv_str
                      | Some p =>
                          match fullmatch p recv_str with
                          | Some g => ret g
                          | None => raise AttributeError
                          end
                      end ;;
          if recv_processor c then lift (py_int (VStr recv_str))
          else ret (VStr recv_str)
      end
  end.

(** ** Status and alarms *)

(** The "null status" of [retrieve_motor_status]. *)
Definition null_status : gmap string value :=
  list_to_map [
    ("alarm", VBool false); ("enabled", VBool false); ("fault", VBool false);
    ("moving", VBool false); ("homing", VBool false); ("jogging", VBool false);
    ("motion_in_progress", VBool false); ("in_position", VBool false);
    ("stopping", VBool false); ("waiting", VBool false) ].

(** One turn of [for letter in _rtn]. *)
Definition decode_letter (_status : gmap string value) (letter : ascii)
  : gmap string value :=
  let eq c := Ascii.eqb letter c in
  if eq "A"%char then <[ "alarm" := VBool true ]> _status
  else if (eq "D"%char || eq "R"%char)%bool
  then <[ "enabled" := VBool (eq "R"%char) ]> _status
  else if eq "E"%char then <[ "fault" := VBool true ]> _status
  else if eq "F"%char then <[ "moving" := VBool true ]> _status
  else if eq "H"%char then <[ "homing" := VBool true ]> _status
  else if eq "J"%char then <[ "jogging" := VBool true ]> _status
  else if eq "M"%char then <[ "motion_in_progress" := VBool true ]> _status
  else if eq "P"%char then <[ "in_position" := VBool true ]> _status
  else if eq "S"%char then <[ "stopping" := VBool true ]> _status
  else if (eq "T"%char || eq "W"%char)%bool
  then <[ "waiting" := VBool true ]> _status
  else _status.

(** The decoding loop of [retrieve_motor_status]. *)
Definition decode_status (_rtn : string) : gmap string value :=
  fold_left decode_letter (list_ascii_of_string _rtn) null_status.

Definition _alarm_codes : list (Z * string) :=
  [ (1, "position limit [Drive Fault]"); (2, "CCW limit"); (4, "CW limit");
    (8, "over temp  [Drive Fault]"); (10, "internal voltage [Drive Fault]");
    (20, "over voltage [Drive Fault]"); (40, "under voltage");
    (80, "over current [Drive Fault]"); (100, "open motor winding [Drive Fault]");
    (400, "common error"); (800, "bad flash"); (1000, "no move");
    (4000, "blank Q segment") ]%Z.

Fixpoint alarm_lookup (codes : list (Z * string)) (code : Z) : option string :=
  match codes with
  | [] => None
  | (c, msg) :: codes' => if (c =? code)%Z then Some msg else alarm_lookup codes' code
  end.

(** [integer * 10**(3-i)] for each digit of the reply. *)
Fixpoint alarm_codes_of (i : nat) (rtn : string) : list Z :=
  match rtn with
  | "" => []
  | String digit rtn' =>
      (digit_value digit * 10 ^ (3 - Z.of_nat i))%Z :: alarm_codes_of (S i) rtn'
  end.

Definition digit_char (d : Z) : ascii := ascii_of_nat (48 + Z.to_nat d).

(** [f"{code:04d}"] for the codes that occur (0 to 9999). *)
Definition format_04d (code : Z) : string :=
  String (digit_char (code / 1000 mod 10))
    (String (digit_char (code / 100 mod 10))
       (String (digit_char (code / 10 mod 10))
          (String (digit_char (code mod 10)) "")))%Z.

Fixpoint join (sep : string) (parts : list string) : string :=
  match parts with
  | [] => ""
  | [p] => p
  | p :: parts' => p ++ sep ++ join sep parts'
  end.

(** The text [retrieve_motor_alarm] builds from the reply to "AL". *)
Definition alarm_message_of (rtn : string) : string :=
  join " :: "
    (flat_map (fun code => match alarm_lookup _alarm_codes code with
                           | Some msg => [format_04d code ++ " - " ++ msg]
                           | None => []
                           end)
              (alarm_codes_of 0 rtn)).

Definition as_string (v : value) : string :=
  match v with VStr s => s | _ => "" end.

(** [Motor.retrieve_motor_alarm]. *)
Definition retrieve_motor_alarm (defer_status_update : bool) : M string :=
  rtn <- send_command "alarm" [] ;;
  let alarm_message := alarm_message_of (as_string rtn) in
  (if nonempty alarm_message then log Error else ret tt) ;;;
  (if (negb defer_status_update && nonempty alarm_message)%bool
   then update_status {[ "alarm_message" := VStr alarm_message ]}
   else ret tt) ;;;
  ret alarm_message.

(** [Motor.retrieve_motor_status]. *)
Definition retrieve_motor_status : M unit :=
  _rtn <- send_command "request_status" [] ;;
  let _status := decode_status (as_string _rtn) in
  pos <- send_command "get_position" [] ;;
  let _status := <[ "position" := pos ]> _status in
  _status <-
    (if decide (_status !! "alarm" = Some (VBool true))
     then alarm_message <- retrieve_motor_alarm true ;;
          ret (<[ "alarm_message" := VStr alarm_message ]> _status)
     else ret _status) ;;
  update_status _status.

(** [Motor.position]. *)
Definition position : M value :=
  pos <- send_command "get_position" [] ;;
  update_status {[ "position" := pos ]} ;;;
  ret pos.

(** [Motor.enable], [Motor.disable] and [Motor.stop]. *)
Definition enable : M unit := send_command "enable" [] ;;; retrieve_motor_status.
Definition disable : M unit := send_command "disable" [] ;;; retrieve_motor_status.
Definition stop : M unit := send_command "stop" [] ;;; ret tt.

(** A motor as [__init__] finds it when it calls [connect()]: the class
    defaults, three connection attempts allowed. *)
Definition initial (n : network) (hs : list nat) : motor :=
  MkMotor _default_status hs 3 n 0 0 [].

(** The same motor once [connect()] has succeeded. *)
Definition connected (n : network) (hs : list nat) : motor :=
  MkMotor (<[ "connected" := VBool true ]> _default_status) hs 3 n 0 0 [].

(** A reply as it travels: header, text, carriage return. *)
Definition frame (s : string) : string := _header ++ s ++ _eom.

(** A network on which every connection attempt and every send
    succeeds. *)
Definition quiet (script : list (res string)) : network :=
  Network (fun _ => None) (fun _ => None) script.

(** How often an event of some kind occurs. *)
Definition is_connect (ev : event) : bool :=
  match ev with EvConnect => true | _ => false end.
Definition is_send (ev : event) : bool :=
  match ev with EvSend _ => true | _ => false end.
Definition is_emit (ev : event) : bool :=
  match ev with EvEmit _ => true | _ => false end.

Definition count (p : event -> bool) (evs : list event) : nat :=
  length (List.filter p evs).


(** [m'] is [m] after the events [evs]: the same handlers, settings and
    network behaviour, the counters advanced by what was attempted. *)
Definition after (m : motor) (evs : list event) (m' : motor) : Prop :=
  trace m' = (trace m ++ evs)%list
  /\ handlers m' = handlers m
  /\ max_connection_attempts m' = max_connection_attempts m
  /\ connect_outcome (net m') = connect_outcome (net m)
  /\ send_outcome (net m') = send_outcome (net m)
  /\ n_connect m' = (n_connect m + count is_connect evs)%nat
  /\ n_send m' = (n_send m + count is_send evs)%nat.


End Motor.

(** * actors/axis_.py *)

Module Axis.
Local Open Scope Q_scope.

(** The units the equivalencies relate: [u.rev], [u.steps] and
    [self.units], each over a power of the second ([u / u.s / u.s]). *)
Inductive base_unit : Type := rev | steps | axis_units.

Record unit_ : Type := Unit { base : base_unit; per_second : nat }.

(** [unit / u.s]. *)
Definition over_s (x : unit_) : unit_ := Unit (base x) (S (per_second x)).

(** An entry of the list: the two units and the two conversions. *)
Record equivalency : Type := Equiv {
  from_unit : unit_;
  to_unit : unit_;
  forward : Q -> Q;
  backward : Q -> Q;
}.

(** [Axis.equivalencies]: three entries, then, for each of them in
    turn, the same conversions per second and per second squared. *)
Definition equivalencies (steps_per_rev units_per_rev : Q) : list equivalency :=
  let equivs :=
    [ Equiv (Unit rev 0) (Unit steps 0)
        (fun x => x * steps_per_rev) (fun x => x / steps_per_rev);
      Equiv (Unit rev 0) (Unit axis_units 0)
        (fun x => x * units_per_rev) (fun x => x / units_per_rev);
      Equiv (Unit steps 0) (Unit axis_units 0)
        (fun x => x * units_per_rev / steps_per_rev)
        (fun x => x * steps_per_rev / units_per_rev) ] in
  equivs
  ++ flat_map (fun equiv =>
                 [ Equiv (over_s (from_unit equiv)) (over_s (to_unit equiv))
                     (forward equiv) (backward equiv);
                   Equiv (over_s (over_s (from_unit equiv)))
                     (over_s (over_s (to_unit equiv)))
                     (forward equiv) (backward equiv) ])
       equivs.

(** [Axis.conversion_pairs]: motor unit, axis unit. *)
Definition conversion_pairs : list (unit_ * unit_) :=
  [ (Unit steps 0, Unit axis_units 0);
    (Unit steps 1, Unit axis_units 1);
    (Unit steps 2, Unit axis_units 2);
    (Unit rev 1, Unit axis_units 1);
    (Unit rev 2, Unit axis_units 2) ].

End Axis.

(** * actors/manager_.py *)

Module Manager.

(** A motion-group configuration, as far as the two checks read it:
    [val["name"]] and the [ip] of each axis of [val["drive"]["axes"]]. *)
Record motion_group : Type := MotionGroup {
  mg_name : string;
  axes_ips : list string;
}.

(** [config["motion_group"]]: keys and values in insertion order. *)
Definition motion_groups : Type := list (nat * motion_group).

Definition count (l : list string) (x : string) : nat := count_occ string_dec l x.

(** [len(set(l)) != len(l)]. *)
Definition not_all_distinct (l : list string) : bool :=
  negb (Nat.eqb (length (nodup string_dec l)) (length l)).

(** The list [duplicates]: the elements of [set(l)] that [l] counts
    more than once. *)
Definition duplicates (l : list string) : list string :=
  List.filter (fun x => negb (Nat.eqb (count l x) 1)) (nodup string_dec l).

Definition string_in (x : string) (l : list string) : bool :=
  existsb (String.eqb x) l.

(** [RunManagerConfig._validate_motion_group_names]: whether the error
    is logged, and the motion groups of the configuration it returns. *)
Definition _validate_motion_group_names (config : motion_groups)
  : bool * motion_groups :=
  let mg_config_names := map (fun kv => mg_name (snd kv)) config in
  if not_all_distinct mg_config_names
  then
    let duplicates := duplicates mg_config_names in
    let new_mg_config :=
      List.filter (fun kv => negb (string_in (mg_name (snd kv)) duplicates)) config in
    (true, new_mg_config)
  else (false, config).

(** [RunManagerConfig._validate_drive_ips]: the method builds
    [new_mg_configs] and returns [config]. *)
Definition _validate_drive_ips (config : motion_groups) : bool * motion_groups :=
  let drive_ips := flat_map (fun kv => axes_ips (snd kv)) config in
  if not_all_distinct drive_ips
  then
    let duplicates := duplicates drive_ips in
    let new_mg_configs :=
      List.filter (fun kv => negb (existsb (fun ip => string_in ip duplicates)
                                     (axes_ips (snd kv)))) config in
    (true, config)
  else (false, config).

(** The tail of [_validate_config]: both checks, one after the other. *)
Definition validate_motion_groups (config : motion_groups) : motion_groups :=
  snd (_validate_drive_ips (snd (_validate_motion_group_names config))).

End Manager.

(** * Properties of transform/lapd.py *)

Section TransformProps.
Import Transform.
Local Open Scope R_scope.

(** ** Trigonometry of the shaft angle *)

(** An angle strictly inside [(-pi, pi)] with a non-negative cosine
    lies in the right half plane. *)

Lemma cos_nonneg_quadrant (x : R) :
  - PI < x < PI -> 0 <= cos x -> - (PI / 2) <= x <= PI / 2.
Proof.
  intros [Hlo Hhi] Hc. split.
  - destruct (Rle_lt_dec (- (PI / 2)) x) as [H | H]; [exact H | exfalso].
    assert (Hneg : cos (- x) < 0) by (apply cos_lt_0; lra).
    rewrite cos_neg in Hneg. lra.
  - destruct (Rle_lt_dec x (PI / 2)) as [H | H]; [exact H | exfalso].
    assert (Hneg : cos x < 0) by (apply cos_lt_0; lra).
    lra.
Qed.

(** The distance from the pivot is positive in front of it. *)
Lemma hyp_pos (X Y : R) : 0 < X -> 0 < sqrt (Y ^ 2 + X ^ 2).
Proof. intros HX. apply sqrt_lt_R0. nra. Qed.

Lemma sqrt_one_plus_sqr (X Y : R) :
  0 < X -> sqrt (1 + (Y / X)²) = sqrt (Y ^ 2 + X ^ 2) / X.
Proof.
  intros HX. apply sqrt_lem_1.
  - unfold Rsqr. nra.
  - apply Rlt_le, Rdiv_lt_0_compat; [apply hyp_pos|]; assumption.
  - pose proof (sqrt_def (Y ^ 2 + X ^ 2)) as Hd.
    assert (0 <= Y ^ 2 + X ^ 2) as Hnn by nra. specialize (Hd Hnn).
    unfold Rsqr. field_simplify_eq; [| lra]. 
    replace (sqrt (Y ^ 2 + X ^ 2) ^ 2) with (sqrt (Y ^ 2 + X ^ 2) * sqrt (Y ^ 2 + X ^ 2)) by ring.
    rewrite Hd. ring.
Qed.

(** Cosine and sine of [atan (Y / X)] for a point in front of the
    pivot: adjacent and opposite side over the hypotenuse. *)
Lemma cos_atan_ratio (X Y : R) :
  0 < X -> cos (atan (Y / X)) = X / sqrt (Y ^ 2 + X ^ 2).
Proof.
  intros HX. rewrite cos_atan, sqrt_one_plus_sqr by assumption.
  pose proof (hyp_pos X Y HX). field. split; lra.
Qed.

Lemma sin_atan_ratio (X Y : R) :
  0 < X -> sin (atan (Y / X)) = Y / sqrt (Y ^ 2 + X ^ 2).
Proof.
  intros HX. rewrite sin_atan, sqrt_one_plus_sqr by assumption.
  pose proof (hyp_pos X Y HX). field. split; lra.
Qed.

(** The angle [_matrix_to_motion_space] recovers.  With [th] the shaft
    angle and [E1] the cross-axis drive coordinate computed from it,
    [arctan(tan_beta) - arcsin(sine_alpha)] is [- th], as long as
    [pivot_to_drive - probe_axis_offset * sin th] is not negative: the
    sum [arctan(tan_beta) + th] then has a non-negative cosine, so the
    arcsine of its sine gives it back. *)
Lemma inverse_angle (pd po th : R) :
  0 < pd -> - (PI / 2) < th < PI / 2 -> po * sin th <= pd ->
  let E1 := pd * tan th + po * (1 - 1 / cos th) in
  atan ((- po + E1) / - pd) - asin (po / sqrt (pd ^ 2 + (- po + E1) ^ 2)) = - th.
Proof.
  intros Hpd [Hlo Hhi] Hside E1.
  assert (Hc : 0 < cos th) by (apply cos_gt_0; assumption).
  set (V := - po + E1).
  assert (HV : V * cos th = pd * sin th - po).
  { unfold V, E1, tan. field. lra. }
  set (S := sqrt (pd ^ 2 + V ^ 2)).
  assert (HS : 0 < S) by (apply sqrt_lt_R0; nra).
  assert (HSS : S * S = pd ^ 2 + V ^ 2) by (apply sqrt_def; nra).
  set (tb := V / - pd).
  assert (Hroot : sqrt (1 + tb²) = S / pd).
  { apply sqrt_lem_1.
    - unfold Rsqr. nra.
    - apply Rlt_le, Rdiv_lt_0_compat; assumption.
    - unfold Rsqr, tb. field_simplify_eq; [| lra].
      replace (S ^ 2) with (S * S) by ring. rewrite HSS. ring. }
  assert (Hcb : cos (atan tb) = pd / S).
  { rewrite cos_atan, Hroot. field. split; lra. }
  assert (Hsb : sin (atan tb) = - V / S).
  { rewrite sin_atan, Hroot. unfold tb. field. split; lra. }
  pose proof (atan_bound tb) as [Hb1 Hb2].
  assert (Hsum_sin : sin (atan tb + th) = po / S).
  { rewrite sin_plus, Hcb, Hsb.
    apply (Rmult_eq_reg_r S); [| lra]. field_simplify; [| lra | lra].
    nra. }
  assert (Hsum_cos : 0 <= cos (atan tb + th)).
  { rewrite cos_plus, Hcb, Hsb.
    assert (Heq : pd / S * cos th - - V / S * sin th
                  = (pd - po * sin th) / (S * cos th)).
    { assert (Hnum : (pd * cos th + V * sin th) * cos th = pd - po * sin th).
      { pose proof (sin2_cos2 th) as Hsc. unfold Rsqr in Hsc.
        replace ((pd * cos th + V * sin th) * cos th)
          with (pd * (cos th * cos th) + (V * cos th) * sin th) by ring.
        rewrite HV.
        replace (cos th * cos th) with (1 - sin th * sin th) by lra. ring. }
      rewrite <- Hnum. field. split; lra. }
    rewrite Heq. apply Rmult_le_pos; [lra |].
    apply Rlt_le, Rinv_0_lt_compat. nra. }
  assert (Hq : - (PI / 2) <= atan tb + th <= PI / 2).
  { apply cos_nonneg_quadrant; [lra | assumption]. }
  rewrite <- Hsum_sin, asin_sin by assumption. ring.
Qed.

(** ** The two mappings, point by point *)

Lemma polarity_sq (a : R) : a = 1 \/ a = -1 -> a * a = 1.
Proof. intros [-> | ->]; ring. Qed.

(** What the drive sees for one point: the two entries of [T0], each
    with its drive polarity. *)
Lemma to_drive_1 (tr : inputs) (p : R * R) :
  apply_homogeneous (matrix_to_drive_1 tr p) p
  = flip (drive_polarity tr)
      (v2 (row0 (T0_to_drive tr p)), v2 (row1 (T0_to_drive tr p))).
Proof.
  destruct tr as [pc pd po [d0 d1] [m0 m1]], p as [x y].
  cbv [apply_homogeneous matrix_to_drive_1 matmul matvec dot flip
       col0 col1 col2 diag_polarity T0_to_drive row0 row1 row2 v0 v1 v2
       fst snd drive_polarity mspace_polarity].
  f_equal; ring.
Qed.

Lemma to_motion_space_1 (tr : inputs) (e : R * R) :
  let th := theta_to_motion_space tr e in
  let E0 := fst (flip (drive_polarity tr) e) in
  apply_homogeneous (matrix_to_motion_space_1 tr e) e
  = flip (mspace_polarity tr)
      ((E0 + pivot_to_center tr) * cos th - pivot_to_center tr,
       (E0 + pivot_to_center tr) * sin th).
Proof.
  destruct tr as [pc pd po [d0 d1] [m0 m1]], e as [e0 e1].
  cbv [apply_homogeneous matrix_to_motion_space_1 matmul matvec dot flip
       col0 col1 col2 diag_polarity T0_to_motion_space row0 row1 row2 v0 v1 v2
       fst snd drive_polarity mspace_polarity pivot_to_center].
  f_equal; ring.
Qed.

Lemma flip_flip (pol p : R * R) : is_polarity pol -> flip pol (flip pol p) = p.
Proof.
  destruct pol as [a b], p as [x y]. intros [Ha Hb]. simpl in Ha, Hb.
  unfold flip. simpl. f_equal.
  - rewrite <- Rmult_assoc, (polarity_sq a Ha). ring.
  - rewrite <- Rmult_assoc, (polarity_sq b Hb). ring.
Qed.

(** A batch is mapped point by point. *)
Lemma to_drive_map (tr : inputs) (pts : list (R * R)) :
  to_drive tr pts = map (fun p => apply_homogeneous (matrix_to_drive_1 tr p) p) pts.
Proof.
  unfold to_drive, _matrix_to_drive.
  induction pts as [| p pts IH]; [reflexivity |].
  cbn [map combine fst snd]. f_equal. exact IH.
Qed.

Lemma to_motion_space_map (tr : inputs) (pts : list (R * R)) :
  to_motion_space tr pts
  = map (fun e => apply_homogeneous (matrix_to_motion_space_1 tr e) e) pts.
Proof.
  unfold to_motion_space, _matrix_to_motion_space.
  induction pts as [| p pts IH]; [reflexivity |].
  cbn [map combine fst snd]. f_equal. exact IH.
Qed.


(** ** The round trip *)

Section RoundTrip.

Variable tr : inputs.
Hypothesis Hvalid : valid_config tr.
Hypothesis Hdrive : 0 < pivot_to_drive tr.



End RoundTrip.




(** ** Where the round trip is lost *)

Lemma behind_pivot_theta : theta_to_drive behind_pivot (-2, 0) = 0.
Proof.
  unfold theta_to_drive, behind_pivot, flip. cbn.
  replace (1 * 0 / (1 * -2 + 1)) with 0 by (field; lra).
  rewrite atan_0. ring.
Qed.




Lemma sqrt_25 : sqrt 25 = 5.
Proof. replace 25 with (5 * 5) by ring. apply sqrt_square. lra. Qed.

Lemma large_offset_theta : theta_to_drive large_offset (3, -4) = atan (4 / 3).
Proof.
  unfold theta_to_drive, large_offset, flip. cbn.
  replace (1 * -4 / (1 * 3 + 0)) with (- (4 / 3)) by (field; lra).
  rewrite atan_opp. ring.
Qed.

Lemma large_offset_to_drive : to_drive large_offset [(3, -4)] = [(5, 0)].
Proof.
  rewrite to_drive_map. cbn [map]. rewrite to_drive_1.
  unfold T0_to_drive. rewrite large_offset_theta.
  assert (Hcos : cos (atan (4 / 3)) = 3 / 5).
  { rewrite cos_atan_ratio by lra.
    replace (4 ^ 2 + 3 ^ 2) with 25 by ring. now rewrite sqrt_25. }
  rewrite tan_atan, Hcos.
  unfold large_offset, flip. cbn.
  replace (1 * -4 * (1 * -4 * 1) + (0 + 1 * 3) * ((0 + 1 * 3) * 1)) with 25 by ring.
  rewrite sqrt_25. do 2 f_equal; field.
Qed.

Lemma large_offset_back : to_motion_space large_offset [(5, 0)] = [(5, 0)].
Proof.
  rewrite to_motion_space_map. cbn [map]. rewrite to_motion_space_1. cbv zeta.
  assert (Hth : theta_to_motion_space large_offset (5, 0) = 0).
  { unfold theta_to_motion_space, large_offset, flip. cbn.
    match goal with
    | |- atan ?a - asin (2 / sqrt ?b) = 0 =>
        replace a with 2 by (field; lra);
        replace b with (1 + 2²) by (unfold Rsqr; ring)
    end.
    replace (2 / sqrt (1 + 2²)) with (sin (atan 2)) by apply sin_atan.
    rewrite asin_sin; [ring |].
    pose proof (atan_bound 2). lra. }
  rewrite Hth, cos_0, sin_0. unfold large_offset, flip. cbn.
  do 2 f_equal; ring.
Qed.

(** The second way the round trip is lost: a probe-axis offset larger
    than the pivot-to-drive distance.  With [pivot_to_drive = 1] and
    [probe_axis_offset = 2] the point [(3, -4)], in front of the pivot,
    has [sin theta = 4/5]; it is driven to [(5, 0)] and comes back as
    [(5, 0)]. *)
Lemma roundtrip_fails_for_large_offset :
  valid_config large_offset
  /\ 0 < pivot_to_drive large_offset
  /\ 0 < fst (flip (mspace_polarity large_offset) (3, -4)) + pivot_to_center large_offset
  /\ ~ reachable large_offset (3, -4)
  /\ to_motion_space large_offset (to_drive large_offset [(3, -4)]) = [(5, 0)].
Proof.
  refine (conj _ (conj _ (conj _ (conj _ _)))).
  - unfold valid_config, is_polarity, large_offset. cbn. repeat split; try lra; auto.
  - cbn. lra.
  - cbn. lra.
  - intros [_ Hside]. rewrite large_offset_theta, sin_atan_ratio in Hside by lra.
    replace (4 ^ 2 + 3 ^ 2) with 25 in Hside by ring.
    rewrite sqrt_25 in Hside. cbn in Hside. lra.
  - rewrite large_offset_to_drive. exact large_offset_back.
Qed.

(** Claim C3, amended.  After the [mspace_polarity] flip the code
    computes [theta = - arctan (y / (x + pivot_to_center))] with the
    single-argument arctangent.  For [x + pivot_to_center <> 0] that
    equals [- atan2 y (x + pivot_to_center)] exactly when
    [x + pivot_to_center > 0]; behind the pivot the two differ by pi. *)
Theorem theta_is_atan2_only_in_front (tr : inputs) (p : R * R) :
  let q := flip (mspace_polarity tr) p in
  let X := fst q + pivot_to_center tr in
  X <> 0 ->
  (theta_to_drive tr p = - atan2 (snd q) X <-> 0 < X)
  /\ (X < 0 -> Rabs (theta_to_drive tr p - - atan2 (snd q) X) = PI).
Proof.
  intros q X HX. unfold theta_to_drive. fold q. fold X.
  pose proof PI_RGT_0 as Hpi. unfold atan2.
  destruct (Rlt_dec 0 X) as [Hpos | Hnpos].
  - split; [tauto | lra].
  - destruct (Rlt_dec X 0) as [Hneg | Hnneg]; [| lra].
    destruct (Rle_dec 0 (snd q)) as [Hy | Hy].
    + split; [split; intros; lra |].
      intros _. replace (- atan (snd q / X) - - (atan (snd q / X) + PI)) with PI by ring.
      apply Rabs_right; lra.
    + split; [split; intros; lra |].
      intros _. replace (- atan (snd q / X) - - (atan (snd q / X) - PI)) with (- PI) by ring.
      rewrite Rabs_Ropp. apply Rabs_right; lra.
Qed.

Lemma theta_is_atan2_only_in_front_witness :
  (theta_to_drive lapd_east (10, 5)
   = - atan2 (snd (flip (mspace_polarity lapd_east) (10, 5)))
         (fst (flip (mspace_polarity lapd_east) (10, 5)) + pivot_to_center lapd_east)
   <-> 0 < fst (flip (mspace_polarity lapd_east) (10, 5)) + pivot_to_center lapd_east).
Proof.
  apply (theta_is_atan2_only_in_front lapd_east (10, 5)). cbn. lra.
Defined.

(** Claim C3 as stated fails where [x + pivot_to_center] is negative:
    at [(-2, 0)] with [pivot_to_center = 1] the code has [theta = 0],
    while [- atan2 0 (-1) = - PI]. *)
Lemma theta_differs_from_atan2_behind_pivot :
  theta_to_drive behind_pivot (-2, 0) = 0
  /\ - atan2 (snd (flip (mspace_polarity behind_pivot) (-2, 0)))
         (fst (flip (mspace_polarity behind_pivot) (-2, 0))
          + pivot_to_center behind_pivot) = - PI
  /\ 0 <> - PI.
Proof.
  pose proof PI_RGT_0 as Hpi.
  split; [exact behind_pivot_theta | split; [| lra]].
  unfold behind_pivot, flip, atan2. cbn.
  destruct (Rlt_dec 0 (1 * -2 + 1)) as [H | _]; [lra |].
  destruct (Rlt_dec (1 * -2 + 1) 0) as [_ | H]; [| lra].
  destruct (Rle_dec 0 (1 * 0)) as [_ | H]; [| lra].
  replace (1 * 0 / (1 * -2 + 1)) with 0 by (field; lra).
  rewrite atan_0. ring.
Qed.

(** ** Validation of the distances *)

Lemma validate_distance_numeric (v : pyobj) (r : R) :
  as_number v = Some r ->
  validate_distance v
  = Ok (Rabs r, if is_negative r then [NegativeAssumedAbs (Rabs r)] else []).
Proof.
  intros Hn. unfold validate_distance, is_negative. rewrite Hn.
  destruct (Rlt_dec r 0) as [Hneg | Hpos]; [reflexivity |].
  rewrite Rabs_right by lra. reflexivity.
Qed.

Lemma validate_distances_numeric (kw : kwargs) (v : dkey -> R) (order : list dkey) :
  (forall k, as_number (kw_get kw k) = Some (v k)) ->
  forall (d : dist_store) (w : list warning),
  exists d' w',
    validate_distances kw order d w = (w ++ w', Ok d')
    /\ (forall k, d' k = if existsb (dkey_eqb k) order then Rabs (v k) else d k)
    /\ length w' = length (List.filter (fun k => is_negative (v k)) order).
Proof.
  intros Hnum. induction order as [| key rest IH]; intros d w.
  - exists d, []. rewrite app_nil_r. repeat split; reflexivity.
  - cbn [validate_distances].
    rewrite (validate_distance_numeric _ _ (Hnum key)).
    destruct (IH (dist_set key (Rabs (v key)) d)
                 (w ++ (if is_negative (v key)
                        then [NegativeAssumedAbs (Rabs (v key))] else [])))
      as (d' & w' & Hrun & Hd & Hw).
    exists d'. eexists. rewrite Hrun, <- app_assoc. split; [reflexivity | split].
    + intros k. rewrite Hd. cbn [existsb]. unfold dist_set.
      destruct (existsb (dkey_eqb k) rest); [now rewrite orb_true_r |].
      rewrite orb_false_r.
      destruct key, k; reflexivity.
    + rewrite length_app, Hw. cbn [List.filter].
      destruct (is_negative (v key)); reflexivity.
Qed.

Lemma filter_length_Permutation {A} (f : A -> bool) (l l' : list A) :
  Permutation l l' -> length (List.filter f l) = length (List.filter f l').
Proof.
  induction 1 as [| x l l' _ IH | x y l | l l' l'' _ IH1 _ IH2]; cbn.
  - reflexivity.
  - destruct (f x); cbn; congruence.
  - destruct (f x), (f y); reflexivity.
  - congruence.
Qed.

Lemma validate_polarity_ok (a b : R) :
  validate_polarity (Arr1 [a; b]) = Ok (a, b) <-> is_polarity (a, b).
Proof.
  unfold validate_polarity, is_polarity, Req_bool. cbn [fst snd].
  destruct (Req_dec_T (Rabs a) 1) as [Ha | Ha], (Req_dec_T (Rabs b) 1) as [Hb | Hb];
    cbn [andb]; (split; [intros H; try discriminate | intros [Ha' Hb']]).
  - split.
    + unfold Rabs in Ha. destruct (Rcase_abs a); [right | left]; lra.
    + unfold Rabs in Hb. destruct (Rcase_abs b); [right | left]; lra.
  - reflexivity.
  - exfalso. apply Hb. destruct Hb' as [-> | ->];
      [apply Rabs_right | rewrite Rabs_left]; lra.
  - exfalso. apply Ha. destruct Ha' as [-> | ->];
      [apply Rabs_right | rewrite Rabs_left]; lra.
  - exfalso. apply Ha. destruct Ha' as [-> | ->];
      [apply Rabs_right | rewrite Rabs_left]; lra.
Qed.

(** Claim C10.  Whatever order the three distance keys are visited in,
    for numeric distances of any sign (and polarities that pass their
    own check) [_validate_inputs] does not raise; it stores the absolute
    value of each of [pivot_to_center], [pivot_to_drive] and
    [probe_axis_offset], so all three are non-negative afterwards, and
    it warns once per negative input. *)
Theorem validate_inputs_takes_absolute_distances
  (order : list dkey) (kw : kwargs) (a b c : R) (dp mp : R * R) :
  Permutation order all_dkeys ->
  as_number (kw_pivot_to_center kw) = Some a ->
  as_number (kw_pivot_to_drive kw) = Some b ->
  as_number (kw_probe_axis_offset kw) = Some c ->
  validate_polarity (kw_drive_polarity kw) = Ok dp ->
  validate_polarity (kw_mspace_polarity kw) = Ok mp ->
  exists (tr : inputs) (w : list warning),
    _validate_inputs order kw = (w, Ok tr)
    /\ tr = Inputs (Rabs a) (Rabs b) (Rabs c) dp mp
    /\ 0 <= pivot_to_center tr /\ 0 <= pivot_to_drive tr
    /\ 0 <= probe_axis_offset tr
    /\ length w = length (List.filter is_negative [a; b; c]).
Proof.
  intros Hperm Ha Hb Hc Hdp Hmp.
  set (v := fun k => match k with
                     | pivot_to_center_k => a
                     | pivot_to_drive_k => b
                     | probe_axis_offset_k => c
                     end).
  assert (Hnum : forall k, as_number (kw_get kw k) = Some (v k))
    by (intros []; assumption).
  unfold _validate_inputs.
  destruct (validate_distances_numeric kw v order Hnum
              (fun k => match as_number (kw_get kw k) with
                        | Some r => r | None => 0 end) [])
    as (d' & w' & Hrun & Hd & Hw).
  rewrite Hrun, Hdp, Hmp. cbn [app res_bind].
  assert (Hin : forall k, existsb (dkey_eqb k) order = true).
  { intros k. apply existsb_exists. exists k. split.
    - apply (Permutation_in k (Permutation_sym Hperm)). destruct k; cbn; auto.
    - destruct k; reflexivity. }
  eexists. exists w'. split; [reflexivity |].
  rewrite !Hd, !Hin. cbn [v].
  split; [reflexivity |]. cbn [pivot_to_center pivot_to_drive probe_axis_offset].
  repeat split; try apply Rabs_pos.
  rewrite Hw, (filter_length_Permutation _ _ _ Hperm).
  unfold all_dkeys. cbn [List.filter v].
  destruct (is_negative a), (is_negative b), (is_negative c); reflexivity.
Qed.

Lemma validate_inputs_takes_absolute_distances_witness :
  exists (tr : inputs) (w : list warning),
    _validate_inputs [probe_axis_offset_k; pivot_to_center_k; pivot_to_drive_k]
      (Kwargs (PyFloat (-6294 / 100)) (PyInt (-133)) (PyFloat (-2016 / 100))
         (Arr1 [1; 1]) (Arr1 [-1; 1])) = (w, Ok tr)
    /\ tr = Inputs (Rabs (-6294 / 100)) (Rabs (IZR (-133))) (Rabs (-2016 / 100))
              (1, 1) (-1, 1)
    /\ 0 <= pivot_to_center tr /\ 0 <= pivot_to_drive tr
    /\ 0 <= probe_axis_offset tr
    /\ length w = length (List.filter is_negative [-6294 / 100; IZR (-133); -2016 / 100]).
Proof.
  apply validate_inputs_takes_absolute_distances.
  - unfold all_dkeys.
    apply (Permutation.Permutation_cons_append
             [pivot_to_center_k; pivot_to_drive_k] probe_axis_offset_k).
  - reflexivity.
  - reflexivity.
  - reflexivity.
  - apply validate_polarity_ok. unfold is_polarity. cbn. split; left; reflexivity.
  - apply validate_polarity_ok. unfold is_polarity. cbn. split; [right | left]; reflexivity.
Defined.

(** ** More on the validation of the inputs *)

Lemma validate_distances_warnings (kw : kwargs) (v : dkey -> R) (order : list dkey) :
  (forall k, In k order -> as_number (kw_get kw k) = Some (v k)) ->
  forall (d : dist_store) (w : list warning),
  exists d',
    validate_distances kw order d w = (w ++ warnings_of v order, Ok d')
    /\ (forall k, d' k = if existsb (dkey_eqb k) order then Rabs (v k) else d k).
Proof.
  induction order as [| key rest IH]; intros Hnum d w.
  - exists d. cbn. rewrite app_nil_r. split; reflexivity.
  - cbn [validate_distances].
    rewrite (validate_distance_numeric _ _ (Hnum key (or_introl eq_refl))).
    destruct (IH (fun k Hk => Hnum k (or_intror Hk))
                 (dist_set key (Rabs (v key)) d)
                 (w ++ (if is_negative (v key)
                        then [NegativeAssumedAbs (Rabs (v key))] else [])))
      as (d' & Hrun & Hd).
    exists d'. rewrite Hrun. split.
    + unfold warnings_of. cbn [flat_map]. now rewrite <- app_assoc.
    + intros k. rewrite Hd. cbn [existsb]. unfold dist_set.
      destruct (existsb (dkey_eqb k) rest); [now rewrite orb_true_r |].
      rewrite orb_false_r. destruct key, k; reflexivity.
Qed.

(** A distance that is not a number ends the loop in [TypeError],
    wherever its key comes in the order. *)
Lemma validate_distances_not_a_number (kw : kwargs) (k : dkey) (order : list dkey) :
  In k order -> as_number (kw_get kw k) = None ->
  forall (d : dist_store) (w : list warning),
    snd (validate_distances kw order d w) = Raise TypeError.
Proof.
  induction order as [| key rest IH]; intros Hin Hnone d w; [destruct Hin |].
  cbn [validate_distances]. unfold validate_distance.
  destruct (as_number (kw_get kw key)) as [val |] eqn:Ekey.
  - destruct Hin as [-> | Hin]; [congruence |].
    destruct (Rlt_dec val 0); now apply IH.
  - reflexivity.
Qed.

Lemma all_dkeys_in (order : list dkey) (k : dkey) :
  Permutation order all_dkeys -> In k order.
Proof.
  intros Hperm. apply (Permutation_in k (Permutation_sym Hperm)).
  destruct k; cbn; auto.
Qed.

Lemma snd_validate_inputs (order : list dkey) (kw : kwargs) :
  snd (_validate_inputs order kw)
  = res_bind (snd (validate_distances kw order
                     (fun k => match as_number (kw_get kw k) with
                               | Some r => r | None => 0 end) []))
      (fun d =>
       res_bind (validate_polarity (kw_drive_polarity kw)) (fun dp =>
       res_bind (validate_polarity (kw_mspace_polarity kw)) (fun mp =>
       Ok (Inputs (d pivot_to_center_k) (d pivot_to_drive_k)
             (d probe_axis_offset_k) dp mp)))).
Proof.
  unfold _validate_inputs.
  destruct (validate_distances kw order _ []) as [w r]. reflexivity.
Qed.

Lemma fst_validate_inputs (order : list dkey) (kw : kwargs) :
  fst (_validate_inputs order kw)
  = fst (validate_distances kw order
           (fun k => match as_number (kw_get kw k) with
                     | Some r => r | None => 0 end) []).
Proof.
  unfold _validate_inputs.
  destruct (validate_distances kw order _ []) as [w r]. reflexivity.
Qed.

(** Numeric distances, in any order of the keys: the stored distances
    and the warnings. *)
Lemma validate_inputs_numeric_run (order : list dkey) (kw : kwargs) (v : dkey -> R) :
  Permutation order all_dkeys ->
  (forall k, as_number (kw_get kw k) = Some (v k)) ->
  _validate_inputs order kw
  = (warnings_of v order,
     res_bind (validate_polarity (kw_drive_polarity kw)) (fun dp =>
     res_bind (validate_polarity (kw_mspace_polarity kw)) (fun mp =>
     Ok (Inputs (Rabs (v pivot_to_center_k)) (Rabs (v pivot_to_drive_k))
           (Rabs (v probe_axis_offset_k)) dp mp)))).
Proof.
  intros Hperm Hnum. unfold _validate_inputs.
  destruct (validate_distances_warnings kw v order (fun k _ => Hnum k)
              (fun k => match as_number (kw_get kw k) with
                        | Some r => r | None => 0 end) [])
    as (d' & Hrun & Hd).
  rewrite Hrun. cbn [app res_bind]. rewrite !Hd.
  assert (Hin : forall k, existsb (dkey_eqb k) order = true).
  { intros k. apply existsb_exists. exists k.
    split; [now apply all_dkeys_in | destruct k; reflexivity]. }
  now rewrite !Hin.
Qed.

Lemma numeric_or_not (kw : kwargs) :
  (exists v, forall k, as_number (kw_get kw k) = Some (v k))
  \/ (exists k, as_number (kw_get kw k) = None).
Proof.
  destruct (as_number (kw_get kw pivot_to_center_k)) as [a |] eqn:Ea;
    [| right; now exists pivot_to_center_k].
  destruct (as_number (kw_get kw pivot_to_drive_k)) as [b |] eqn:Eb;
    [| right; now exists pivot_to_drive_k].
  destruct (as_number (kw_get kw probe_axis_offset_k)) as [c |] eqn:Ec;
    [| right; now exists probe_axis_offset_k].
  left. exists (fun k => match k with
                         | pivot_to_center_k => a
                         | pivot_to_drive_k => b
                         | probe_axis_offset_k => c
                         end).
  intros []; assumption.
Qed.

(** The order in which Python happens to iterate the set of distance
    keys does not change what [_validate_inputs] returns or raises;
    when it returns, the same warnings are given, in that order. *)
Theorem validate_inputs_order_independent (order1 order2 : list dkey) (kw : kwargs) :
  Permutation order1 all_dkeys ->
  Permutation order2 all_dkeys ->
  snd (_validate_inputs order1 kw) = snd (_validate_inputs order2 kw)
  /\ (is_ok (snd (_validate_inputs order1 kw)) = true ->
      Permutation (fst (_validate_inputs order1 kw)) (fst (_validate_inputs order2 kw))).
Proof.
  intros H1 H2. destruct (numeric_or_not kw) as [[v Hnum] | [k Hk]].
  - rewrite (validate_inputs_numeric_run order1 kw v H1 Hnum),
      (validate_inputs_numeric_run order2 kw v H2 Hnum).
    cbn [fst snd]. split; [reflexivity | intros _].
    unfold warnings_of. apply Permutation_flat_map.
    now rewrite H1, H2.
  - rewrite !snd_validate_inputs.
    rewrite (validate_distances_not_a_number kw k order1 (all_dkeys_in _ _ H1) Hk),
      (validate_distances_not_a_number kw k order2 (all_dkeys_in _ _ H2) Hk).
    split; [reflexivity | discriminate].
Qed.

Lemma validate_inputs_order_independent_witness :
  snd (_validate_inputs [probe_axis_offset_k; pivot_to_center_k; pivot_to_drive_k]
         (Kwargs (PyFloat (-1)) (PyStr "far") (PyInt (-2)) (Arr1 [1; 1]) (Arr1 [-1; 1])))
  = snd (_validate_inputs all_dkeys
           (Kwargs (PyFloat (-1)) (PyStr "far") (PyInt (-2)) (Arr1 [1; 1]) (Arr1 [-1; 1]))).
Proof.
  apply validate_inputs_order_independent.
  - apply (Permutation.Permutation_cons_append
             [pivot_to_center_k; pivot_to_drive_k] probe_axis_offset_k).
  - apply Permutation_refl.
Defined.
(** What the polarity check does on any argument. *)
Lemma validate_polarity_spec (p : array_like) :
  (exists a b, p = Arr1 [a; b] /\ is_polarity (a, b) /\ validate_polarity p = Ok (a, b))
  \/ (~ polarity_ok p /\ validate_polarity p = Raise ValueError).
Proof.
  assert (Hbad : forall q, (forall a b, q <> Arr1 [a; b]) -> ~ polarity_ok q).
  { intros q Hq (a & b & Heq & _). exact (Hq a b Heq). }
  destruct p as [x | l | rows];
    [right; split; [apply Hbad; discriminate | reflexivity] | |
     right; split; [apply Hbad; discriminate | reflexivity]].
  destruct l as [| a [| b [| c l]]];
    try (right; split; [apply Hbad; discriminate | reflexivity]).
  destruct (validate_polarity (Arr1 [a; b])) as [[a' b'] | e] eqn:E.
  - assert (Hab : (a', b') = (a, b)).
    { unfold validate_polarity in E.
      destruct (Req_bool (Rabs a) 1 && Req_bool (Rabs b) 1); congruence. }
    injection Hab as -> ->. left. exists a, b.
    split; [reflexivity | split; [now apply validate_polarity_ok | reflexivity]].
  - right. split.
    + intros (a' & b' & Heq & Hpol). injection Heq as <- <-.
      apply validate_polarity_ok in Hpol. congruence.
    + unfold validate_polarity in E |- *.
      destruct (Req_bool (Rabs a) 1 && Req_bool (Rabs b) 1); congruence.
Qed.



Lemma warnings_of_nonneg (v : dkey -> R) (order : list dkey) :
  (forall k, 0 <= v k) -> warnings_of v order = [].
Proof.
  intros Hv. unfold warnings_of.
  induction order as [| k rest IH]; [reflexivity |].
  cbn [flat_map]. rewrite IH. unfold is_negative.
  destruct (Rlt_dec (v k) 0) as [Hneg | _]; [| reflexivity].
  pose proof (Hv k). lra.
Qed.

(** Validation is idempotent: the inputs it returns, passed to it
    again, are returned unchanged and without any warning. *)
Theorem validate_inputs_idempotent (order1 order2 : list dkey) (kw : kwargs) (tr : inputs) :
  Permutation order1 all_dkeys ->
  Permutation order2 all_dkeys ->
  snd (_validate_inputs order1 kw) = Ok tr ->
  _validate_inputs order2 (as_kwargs tr) = ([], Ok tr).
Proof.
  intros H1 H2 Hrun.
  destruct (numeric_or_not kw) as [[v Hnum] | [k Hk]].
  - rewrite (validate_inputs_numeric_run order1 kw v H1 Hnum) in Hrun. cbn [snd] in Hrun.
    destruct (validate_polarity_spec (kw_drive_polarity kw))
      as [(a & b & _ & Hdp & Ed) | [_ Ed]]; rewrite Ed in Hrun;
      [| discriminate].
    destruct (validate_polarity_spec (kw_mspace_polarity kw))
      as [(c & d & _ & Hmp & Em) | [_ Em]]; rewrite Em in Hrun;
      [| discriminate].
    cbn [res_bind] in Hrun. injection Hrun as <-.
    set (v' := fun k => match k with
                        | pivot_to_center_k => Rabs (v pivot_to_center_k)
                        | pivot_to_drive_k => Rabs (v pivot_to_drive_k)
                        | probe_axis_offset_k => Rabs (v probe_axis_offset_k)
                        end).
    rewrite (validate_inputs_numeric_run order2 _ v' H2)
      by (intros []; reflexivity).
    rewrite warnings_of_nonneg by (intros []; apply Rabs_pos).
    cbn [as_kwargs kw_drive_polarity kw_mspace_polarity drive_polarity
         mspace_polarity fst snd].
    apply validate_polarity_ok in Hdp, Hmp. rewrite Hdp, Hmp.
    cbn [res_bind]. subst v'. cbv beta iota. now rewrite !Rabs_Rabsolu.
  - rewrite snd_validate_inputs,
      (validate_distances_not_a_number kw k order1 (all_dkeys_in _ _ H1) Hk) in Hrun.
    discriminate.
Qed.

Lemma validate_inputs_idempotent_witness :
  _validate_inputs all_dkeys
    (as_kwargs (Inputs (Rabs (-1)) (Rabs 2) (Rabs 0) (1, 1) (-1, 1)))
  = ([], Ok (Inputs (Rabs (-1)) (Rabs 2) (Rabs 0) (1, 1) (-1, 1))).
Proof.
  apply (validate_inputs_idempotent all_dkeys all_dkeys
           (Kwargs (PyFloat (-1)) (PyInt 2) (PyFloat 0) (Arr1 [1; 1]) (Arr1 [-1; 1]))
           _ (Permutation_refl _) (Permutation_refl _)).
  rewrite (validate_inputs_numeric_run all_dkeys _
             (fun k => match k with
                       | pivot_to_center_k => -1
                       | pivot_to_drive_k => 2
                       | probe_axis_offset_k => 0
                       end) (Permutation_refl _)) by (intros []; reflexivity).
  cbn [snd kw_drive_polarity kw_mspace_polarity].
  rewrite (proj2 (validate_polarity_ok 1 1)), (proj2 (validate_polarity_ok (-1) 1)).
  - reflexivity.
  - split; cbn [fst snd]; [right | left]; reflexivity.
  - split; cbn [fst snd]; left; reflexivity.
Defined.

(** ** Geometry of the two mappings *)

(** The centre of the chamber and the origin of the drive correspond,
    whatever the polarities and the probe-axis offset. *)
Theorem chamber_centre_is_drive_origin (tr : inputs) :
  0 < pivot_to_center tr -> 0 < pivot_to_drive tr ->
  to_drive tr [(0, 0)] = [(0, 0)] /\ to_motion_space tr [(0, 0)] = [(0, 0)].
Proof.
  destruct tr as [pc pd po [d0 d1] [m0 m1]]. cbn [pivot_to_center pivot_to_drive].
  intros Hpc Hpd. split.
  - rewrite to_drive_map. cbn [map]. rewrite to_drive_1.
    cbv [T0_to_drive theta_to_drive flip row0 row1 v2 fst snd drive_polarity
         mspace_polarity pivot_to_center pivot_to_drive probe_axis_offset].
    replace (m1 * 0 / (m0 * 0 + pc)) with 0 by (field; lra).
    rewrite atan_0, Ropp_0, tan_0, cos_0.
    replace ((m1 * 0) ^ 2 + (pc + m0 * 0) ^ 2) with (pc * pc) by ring.
    rewrite sqrt_square by lra.
    do 2 f_equal; [ring | field].
  - rewrite to_motion_space_map. cbn [map]. rewrite to_motion_space_1. cbv zeta.
    assert (Hth : theta_to_motion_space (Inputs pc pd po (d0, d1) (m0, m1)) (0, 0) = 0).
    { cbv [theta_to_motion_space flip fst snd drive_polarity pivot_to_drive
           probe_axis_offset].
      pose proof (inverse_angle pd po 0 Hpd) as H. cbv zeta in H.
      rewrite tan_0, cos_0, sin_0 in H.
      replace (d1 * 0) with (pd * 0 + po * (1 - 1 / 1)) by field.
      rewrite H; [ring | |]; [pose proof PI_RGT_0; lra | lra]. }
    rewrite Hth, cos_0, sin_0.
    cbv [flip fst snd drive_polarity mspace_polarity pivot_to_center].
    do 2 f_equal; ring.
Qed.

Lemma chamber_centre_is_drive_origin_witness :
  to_drive lapd_east [(0, 0)] = [(0, 0)]
  /\ to_motion_space lapd_east [(0, 0)] = [(0, 0)].
Proof.
  apply chamber_centre_is_drive_origin; cbn [lapd_east pivot_to_center pivot_to_drive]; lra.
Defined.

(** A point on the axis of the port, in front of the pivot: the probe
    is straight, the first drive coordinate is the point's own
    (signed) position along the axis and the second is 0. *)
Theorem on_axis_point_needs_no_tilt (tr : inputs) (x : R) :
  0 < fst (mspace_polarity tr) * x + pivot_to_center tr ->
  to_drive tr [(x, 0)]
  = [(fst (drive_polarity tr) * (fst (mspace_polarity tr) * x), 0)].
Proof.
  destruct tr as [pc pd po [d0 d1] [m0 m1]].
  cbn [pivot_to_center mspace_polarity drive_polarity fst snd].
  intros HX.
  rewrite to_drive_map. cbn [map]. rewrite to_drive_1.
  cbv [T0_to_drive theta_to_drive flip row0 row1 v2 fst snd drive_polarity
       mspace_polarity pivot_to_center pivot_to_drive probe_axis_offset].
  replace (m1 * 0 / (m0 * x + pc)) with 0 by (field; lra).
  rewrite atan_0, Ropp_0, tan_0, cos_0.
  replace ((m1 * 0) ^ 2 + (pc + m0 * x) ^ 2) with ((m0 * x + pc) * (m0 * x + pc)) by ring.
  rewrite sqrt_square by lra.
  do 2 f_equal; [ring | field].
Qed.

Lemma on_axis_point_needs_no_tilt_witness :
  to_drive lapd_east [(10, 0)] = [(1 * (-1 * 10), 0)].
Proof.
  apply (on_axis_point_needs_no_tilt lapd_east 10).
  cbn [lapd_east pivot_to_center mspace_polarity fst]. lra.
Defined.

(** An offset no longer than [pivot_to_drive] keeps every drive point
    within the domain of the arcsine. *)
Lemma small_offset_in_arcsin_domain (tr : inputs) (e : R * R) :
  0 < pivot_to_drive tr ->
  - pivot_to_drive tr <= probe_axis_offset tr <= pivot_to_drive tr ->
  in_arcsin_domain tr e.
Proof.
  intros Hpd Hpo. unfold in_arcsin_domain. cbv zeta.
  split; [lra |].
  set (t := - probe_axis_offset tr + snd (flip (drive_polarity tr) e)).
  assert (Hs : pivot_to_drive tr <= sqrt (pivot_to_drive tr ^ 2 + t ^ 2)).
  { rewrite <- (sqrt_pow2 (pivot_to_drive tr)) at 1 by lra.
    apply sqrt_le_1_alt. pose proof (pow2_ge_0 t). lra. }
  set (s := sqrt (pivot_to_drive tr ^ 2 + t ^ 2)) in *.
  assert (Hinv : 0 < / s) by (apply Rinv_0_lt_compat; lra).
  assert (Hone : s * / s = 1) by (apply Rinv_r; lra).
  unfold Rdiv. split; nra.
Qed.

(** The first drive coordinate is the insertion depth: at every drive
    point where [_matrix_to_motion_space] computes with numbers, and
    whatever the second coordinate, the point it gives lies at distance
    [|e0 + pivot_to_center|] from the pivot. *)
Theorem motion_space_point_on_insertion_circle (tr : inputs) (e q : R * R) :
  is_polarity (mspace_polarity tr) ->
  in_arcsin_domain tr e ->
  to_motion_space tr [e] = [q] ->
  let q' := flip (mspace_polarity tr) q in
  (fst q' + pivot_to_center tr) ^ 2 + snd q' ^ 2
  = (fst (flip (drive_polarity tr) e) + pivot_to_center tr) ^ 2.
Proof.
  intros Hmp _ Hq. rewrite to_motion_space_map in Hq. cbn [map] in Hq.
  injection Hq as <-. rewrite to_motion_space_1. cbv zeta.
  rewrite (flip_flip _ _ Hmp). cbn [fst snd].
  set (th := theta_to_motion_space tr e).
  pose proof (sin2_cos2 th) as Hsc. unfold Rsqr in Hsc.
  set (E := fst (flip (drive_polarity tr) e) + pivot_to_center tr).
  replace ((E * cos th - pivot_to_center tr + pivot_to_center tr) ^ 2 + (E * sin th) ^ 2)
    with (E ^ 2 * (sin th * sin th + cos th * cos th)) by ring.
  rewrite Hsc. ring.
Qed.

Lemma motion_space_point_on_insertion_circle_witness :
  exists q,
    to_motion_space lapd_east [(3, 4)] = [q]
    /\ in_arcsin_domain lapd_east (3, 4)
    /\ (fst (flip (mspace_polarity lapd_east) q) + pivot_to_center lapd_east) ^ 2
       + snd (flip (mspace_polarity lapd_east) q) ^ 2
       = (fst (flip (drive_polarity lapd_east) (3, 4)) + pivot_to_center lapd_east) ^ 2.
Proof.
  assert (Hdomain : in_arcsin_domain lapd_east (3, 4)).
  { apply small_offset_in_arcsin_domain;
      cbn [lapd_east pivot_to_drive probe_axis_offset]; lra. }
  eexists. split; [reflexivity |]. split; [exact Hdomain |].
  apply (motion_space_point_on_insertion_circle lapd_east (3, 4)).
  - split; cbn [lapd_east mspace_polarity fst snd]; [right | left]; reflexivity.
  - exact Hdomain.
  - reflexivity.
Defined.

End TransformProps.

(** * Properties of motion_builder/layers/regular_grid.py *)

Section GridProps.
Import Grid.
Local Open Scope Q_scope.

(** ** The dtype test of [_validate_limits] *)

(** No dtype is a floating and an integer dtype at once, so one of the
    two negations always holds. *)
Lemma dtype_test_rejects_every_dtype (dt : dtype) :
  negb (issubdtype dt floating) || negb (issubdtype dt integer) = true.
Proof. destruct dt; reflexivity. Qed.

(** Hence [_validate_limits] never returns. *)
Lemma validate_limits_always_raises (mspace_ndims : nat) (limits : arg Q) :
  _validate_limits mspace_ndims limits = Raise ValueError.
Proof.
  unfold _validate_limits. destruct limits as [a | dt a]; cbn [force_array].
  - destruct (rectangular a); [| reflexivity].
    cbn [res_bind arr_dtype]. reflexivity.
  - cbn [res_bind arr_dtype]. rewrite dtype_test_rejects_every_dtype. reflexivity.
Qed.

(** So no grid layer is ever constructed. *)
Lemma GridLayer_never_constructs (mspace_ndims : nat) (limits : arg Q)
  (npoints steps : option (arg Z)) :
  is_ok (GridLayer mspace_ndims limits npoints steps) = false.
Proof.
  unfold GridLayer, BaseLayer_init, GridLayer_validate_inputs.
  rewrite validate_limits_always_raises.
  destruct npoints, steps; reflexivity.
Qed.

Lemma GridCNStepLayer_never_constructs (mspace_ndims : nat)
  (center : arg Q) (npoints : arg Z) (step_size : arg Q) :
  is_ok (GridCNStepLayer mspace_ndims center npoints step_size) = false.
Proof.
  unfold GridCNStepLayer, BaseLayer_init, GridCNStepLayer_validate_inputs.
  destruct (_validate_center mspace_ndims center) as [c |]; [| reflexivity].
  destruct (_validate_npoints mspace_ndims npoints) as [n |]; [| reflexivity].
  destruct (_validate_step_size mspace_ndims step_size) as [s |]; [| reflexivity].
  cbn [res_bind].
  destruct (calculate_limits c n s) as [rows |]; [| reflexivity].
  cbn [res_bind]. rewrite validate_limits_always_raises. reflexivity.
Qed.

(** ** The generator on validated inputs *)

(** What the generator does with the limits and counts of that layer:
    axis [i] varies along dimension [i], the coordinates sit in a
    trailing dimension of size 2. *)
Lemma generate_two_by_two :
  exists m,
    _generate_point_matrix 2 [(0, 10); (0, 20)] [2; 2]%Z = Ok m
    /\ pm_shape m = [2; 2; 2]%nat
    /\ pm_points m = [[0; 0]; [0; 20]; [10; 0]; [10; 20]]
    /\ point_at m [0; 0]%nat = Some [0; 0]
    /\ point_at m [0; 1]%nat = Some [0; 20]
    /\ point_at m [1; 0]%nat = Some [10; 0]
    /\ point_at m [1; 1]%nat = Some [10; 20].
Proof. eexists. repeat split; reflexivity. Qed.

(** Claim C2, on the code.  [GridLayer(ds, limits=[[0,10],[0,20]],
    npoints=[2,2])] in a two-dimensional motion space does not
    construct a layer: [_validate_limits] raises [ValueError], because
    its dtype test holds for every dtype, although the limits pass
    every other check of the method.  The generator, given these
    limits and counts, does produce the four points (0,0), (0,20),
    (10,0), (10,20), axis [i] along dimension [i] and the coordinates
    in a trailing dimension of size 2. *)
Theorem GridLayer_rejects_well_formed_limits :
  GridLayer 2 (PyList (Nd2 [[0; 10]; [0; 20]])) (Some (PyList (Nd1 [2; 2]%Z))) None
  = Raise ValueError
  /\ _validate_limits 2 (PyList (Nd2 [[0; 10]; [0; 20]])) = Raise ValueError
  /\ limits_checks 2 (Nd2 [[0; 10]; [0; 20]]) = Ok [(0, 10); (0, 20)]
  /\ _validate_npoints 2 (PyList (Nd1 [2; 2]%Z)) = Ok [2; 2]%Z
  /\ exists m,
       _generate_point_matrix 2 [(0, 10); (0, 20)] [2; 2]%Z = Ok m
       /\ pm_shape m = [2; 2; 2]%nat
       /\ pm_points m = [[0; 0]; [0; 20]; [10; 0]; [10; 20]]
       /\ point_at m [1; 0]%nat = Some [10; 0].
Proof.
  split; [| split; [apply validate_limits_always_raises |
                    split; [reflexivity | split; [reflexivity |]]]].
  - unfold GridLayer, BaseLayer_init, GridLayer_validate_inputs.
    now rewrite validate_limits_always_raises.
  - destruct generate_two_by_two as (m & Hm & Hshape & Hpts & _ & _ & H10 & _).
    exists m. auto.
Qed.

(** ** Limits from centre, count and step *)

(** One axis: [center -/+ 0.5 * (npoints - 1) * step_size]. *)
Lemma calculate_limits_center_step (c s : Q) (n : Z) :
  calculate_limits [c] [n] [s]
  = Ok [[- ((1 # 2) * inject_Z (n - 1) * s) + c; (1 # 2) * inject_Z (n - 1) * s + c]].
Proof. reflexivity. Qed.

(** The limits of the 3x3 layer are [[-1,1],[-1,1]] in value, and the
    generator gives the same matrix on them as on those limits written
    out. *)
Lemma calculate_limits_three_by_three :
  exists rows,
    calculate_limits [0; 0] [3; 3]%Z [1; 1] = Ok rows
    /\ points_eqb rows [[-1; 1]; [-1; 1]] = true
    /\ exists m m',
         _generate_point_matrix 2 (map sort_pair rows) [3; 3]%Z = Ok m
         /\ _generate_point_matrix 2 [(-1, 1); (-1, 1)] [3; 3]%Z = Ok m'
         /\ pm_shape m = pm_shape m'
         /\ points_eqb (pm_points m) (pm_points m') = true.
Proof. eexists. repeat split. do 2 eexists. repeat split. Qed.

(** Claim C6, on the code.  [GridCNStepLayer(ds, center=[0,0],
    npoints=[3,3], step_size=[1,1])] calculates the limits
    [[-1,1],[-1,1]] and hands them to the same [_validate_limits],
    which raises [ValueError]: no point matrix is produced, and none by
    [GridLayer(ds, limits=[[-1,1],[-1,1]], npoints=[3,3])] either.  On
    the calculated limits the generator gives the matrix it gives on
    [[-1,1],[-1,1]]. *)
Theorem GridCNStepLayer_rejects_its_own_limits :
  GridCNStepLayer 2 (PyList (Nd1 [0; 0])) (PyList (Nd1 [3; 3]%Z)) (PyList (Nd1 [1; 1]))
  = Raise ValueError
  /\ GridLayer 2 (PyList (Nd2 [[-1; 1]; [-1; 1]])) (Some (PyList (Nd1 [3; 3]%Z))) None
     = Raise ValueError
  /\ exists rows,
       calculate_limits [0; 0] [3; 3]%Z [1; 1] = Ok rows
       /\ points_eqb rows [[-1; 1]; [-1; 1]] = true
       /\ _validate_limits 2 (NdArray float64 (Nd2 rows)) = Raise ValueError
       /\ exists m m',
            _generate_point_matrix 2 (map sort_pair rows) [3; 3]%Z = Ok m
            /\ _generate_point_matrix 2 [(-1, 1); (-1, 1)] [3; 3]%Z = Ok m'
            /\ pm_shape m = pm_shape m'
            /\ points_eqb (pm_points m) (pm_points m') = true.
Proof.
  split; [| split].
  - unfold GridCNStepLayer, BaseLayer_init, GridCNStepLayer_validate_inputs.
    cbn [_validate_center _validate_npoints _validate_step_size].
    reflexivity.
  - unfold GridLayer, BaseLayer_init, GridLayer_validate_inputs.
    now rewrite validate_limits_always_raises.
  - destruct calculate_limits_three_by_three as (rows & Hrows & Heq & Hgen).
    exists rows. split; [exact Hrows | split; [exact Heq | split; [| exact Hgen]]].
    apply validate_limits_always_raises.
Qed.

(** ** A degenerate axis *)

(** [np.linspace] returns as many samples as asked for. *)
Lemma linspace_length (start stop : Q) (k : nat) :
  exists ax, linspace start stop (Z.of_nat k) = Ok ax /\ length ax = k.
Proof.
  unfold linspace.
  destruct (Z.ltb_spec (Z.of_nat k) 0) as [Hneg | _]; [lia |].
  rewrite Nat2Z.id.
  destruct (Z.ltb_spec 1 (Z.of_nat k)) as [Hmany | Hfew]; eexists; split;
    try reflexivity.
  - rewrite length_app, removelast_firstn_len, length_firstn, length_map, length_seq.
    cbn. lia.
  - now rewrite length_map, length_seq.
Qed.

(** A one-point first axis puts its value in front of every point. *)
Lemma meshgrid_single_then (x : Q) (ax : list Q) :
  meshgrid_ij [[x]; ax] = map (fun a => [x; a]) ax.
Proof.
  cbn [meshgrid_ij flat_map]. rewrite app_nil_r.
  induction ax as [| a ax IH]; [reflexivity |].
  cbn [flat_map map app] in *. now rewrite IH.
Qed.

(** Claim C7 as stated fails: constructing a [GridLayer] with
    [limits=[[5,5],[0,10]]] does not succeed. *)
Lemma GridLayer_degenerate_axis_is_rejected :
  is_ok (GridLayer 2 (PyList (Nd2 [[5; 5]; [0; 10]])) (Some (PyList (Nd1 [3; 3]%Z))) None)
  = false.
Proof. reflexivity. Qed.

(** Claim C7, amended.  For [limits=[[5,5],[0,10]]] the equal-pairs
    guard of [_validate_limits] holds and its checks end in
    [ValueError]; no [GridLayer] is constructed from these limits,
    whatever [npoints] is.  The point-matrix generator itself, given
    these limits, collapses the first axis to exactly one point at
    value 5, whatever count was asked for on it. *)
Theorem degenerate_axis_rejected_generator_collapses :
  any_pair_equal (Nd2 [[5; 5]; [0; 10]]) = Ok true
  /\ limits_checks 2 (Nd2 [[5; 5]; [0; 10]]) = Raise ValueError
  /\ (forall npoints steps,
        is_ok (GridLayer 2 (PyList (Nd2 [[5; 5]; [0; 10]])) npoints steps) = false)
  /\ (forall (n0 : Z) (k : nat),
        exists m,
          _generate_point_matrix 2 [(5, 5); (0, 10)] [n0; Z.of_nat k] = Ok m
          /\ pm_shape m = [1; k; 2]%nat
          /\ length (pm_points m) = k
          /\ Forall (fun p => nth_error p 0 = Some 5) (pm_points m)).
Proof.
  split; [reflexivity | split; [reflexivity | split]].
  - intros npoints steps. apply GridLayer_never_constructs.
  - intros n0 k.
    destruct (linspace_length 0 10 k) as (ax & Hax & Hlen).
    exists (PointMatrix [1; k; 2]%nat (map (fun a => [5; a]) ax)).
    split; [| split; [reflexivity | split]].
    + unfold _generate_point_matrix. cbn [grid_axes fst snd].
      replace (Qeq_bool 5 5) with true by reflexivity.
      replace (Qeq_bool 0 10) with false by reflexivity.
      replace (linspace 5 5 1) with (Ok [5]) by reflexivity.
      rewrite Hax. cbn [res_bind length Nat.leb map app].
      rewrite meshgrid_single_then, Hlen. reflexivity.
    + cbn [pm_points]. now rewrite length_map.
    + cbn [pm_points]. apply Forall_map. apply Forall_forall. reflexivity.
Qed.

(** ** The samples of [np.linspace] *)

Lemma linspace_run (start stop : Q) (num : Z) :
  (0 <= num)%Z ->
  exists ax, linspace start stop num = Ok ax /\ length ax = Z.to_nat num.
Proof.
  intros Hnum. destruct (linspace_length start stop (Z.to_nat num)) as (ax & Hax & Hlen).
  rewrite Z2Nat.id in Hax by exact Hnum. now exists ax.
Qed.

Lemma linspace_nth (start stop : Q) (num : Z) (ax : list Q) (i : nat) :
  linspace start stop num = Ok ax ->
  (i < Z.to_nat num)%nat ->
  nth i ax 0
  == start + inject_Z (Z.of_nat i) * ((stop - start) / inject_Z (num - 1)).
Proof.
  unfold linspace. destruct (Z.ltb_spec num 0) as [Hneg | Hnum]; [discriminate |].
  set (step := (stop - start) / inject_Z (num - 1)).
  set (y := map (fun i => inject_Z (Z.of_nat i) * step + start) (seq 0 (Z.to_nat num))).
  assert (Hy : forall j, (j < Z.to_nat num)%nat ->
                         nth j y 0 = inject_Z (Z.of_nat j) * step + start).
  { intros j Hj. subst y.
    pose proof (map_nth (fun i => inject_Z (Z.of_nat i) * step + start)
                  (seq 0 (Z.to_nat num)) 0%nat j) as Hmap.
    cbv beta in Hmap.
    rewrite (nth_indep _ 0 (inject_Z (Z.of_nat 0) * step + start))
      by now rewrite length_map, length_seq.
    rewrite Hmap, seq_nth by exact Hj. reflexivity. }
  assert (Hlen : length y = Z.to_nat num) by (subst y; now rewrite length_map, length_seq).
  destruct (Z.ltb_spec 1 num) as [Hmany | Hfew]; intros [= <-] Hi.
  - destruct (Nat.eq_dec i (Z.to_nat num - 1)%nat) as [-> | Hne].
    + rewrite app_nth2 by (rewrite removelast_firstn_len, length_firstn; lia).
      rewrite removelast_firstn_len, length_firstn, Hlen.
      match goal with
      | |- context [nth ?k [stop] 0] => replace k with 0%nat by lia
      end.
      cbn [nth]. subst step.
      replace (Z.of_nat (Z.to_nat num - 1)%nat) with (num - 1)%Z by lia.
      assert (Hnz : ~ inject_Z (num - 1) == 0).
      { intros H. assert (H' : (num - 1 = 0)%Z); [| lia].
        apply (proj1 (inject_Z_injective _ _)). exact H. }
      set (n1 := inject_Z (num - 1)) in *. field. exact Hnz.
    + rewrite app_nth1 by (rewrite removelast_firstn_len, length_firstn; lia).
      rewrite removelast_firstn_len, nth_firstn.
      destruct (Nat.ltb_spec i (Init.Nat.pred (length y))) as [_ | Hge]; [| lia].
      rewrite Hy by exact Hi. ring.
  - rewrite Hy by exact Hi. ring.
Qed.

Lemma linspace_within (start stop : Q) (num : Z) (ax : list Q) :
  linspace start stop num = Ok ax ->
  start <= stop ->
  Forall (fun x => start <= x <= stop) ax.
Proof.
  intros Hrun Hle.
  assert (Hnum : (0 <= num)%Z).
  { unfold linspace in Hrun. destruct (Z.ltb_spec num 0); [discriminate | lia]. }
  destruct (linspace_run start stop num Hnum) as (ax' & Hax' & Hlen).
  assert (ax' = ax) by congruence. subst ax'.
  apply (proj2 (Forall_nth _ 0 ax)). intros i Hi.
  rewrite (linspace_nth start stop num ax i Hrun) by lia.
  destruct (Z.eq_dec num 1%Z) as [-> | Hne].
  - assert (i = 0%nat) by (rewrite Hlen in Hi; simpl in Hi; lia). subst i.
    cbn [Z.of_nat]. change (inject_Z 0) with 0.
    assert (E : start + 0 * ((stop - start) / inject_Z (1 - 1)) == start) by ring.
    rewrite E. split; [apply Qle_refl | exact Hle].
  - assert (Hpos : 0 < inject_Z (num - 1)).
    { change 0 with (inject_Z 0). rewrite <- Zlt_Qlt. lia. }
    set (n1 := inject_Z (num - 1)) in *.
    set (qi := inject_Z (Z.of_nat i)).
    assert (Hqi0 : 0 <= qi) by (subst qi; change 0 with (inject_Z 0); rewrite <- Zle_Qle; lia).
    assert (Hqi1 : qi <= n1) by (subst qi n1; rewrite <- Zle_Qle; lia).
    assert (Hnz : ~ n1 == 0) by (intros H; rewrite H in Hpos; now apply Qlt_irrefl in Hpos).
    set (t := qi / n1).
    assert (Ht0 : 0 <= t).
    { subst t. apply Qle_shift_div_l; [exact Hpos |]. now rewrite Qmult_0_l. }
    assert (Ht1 : t <= 1).
    { subst t. apply Qle_shift_div_r; [exact Hpos |]. now rewrite Qmult_1_l. }
    assert (E : start + qi * ((stop - start) / n1) == start + t * (stop - start))
      by (subst t; field; exact Hnz).
    rewrite E. split; Lqa.nra.
Qed.
(** The samples of [np.linspace(start, stop, num)]: [num] of them,
    evenly spaced from [start], the last one [stop]; all between the two
    ends when these are in order; a negative [num] raises. *)
Theorem linspace_samples (start stop : Q) (num : Z) :
  (0 <= num)%Z ->
  exists ax,
    linspace start stop num = Ok ax
    /\ length ax = Z.to_nat num
    /\ (forall i, (i < Z.to_nat num)%nat ->
          nth i ax 0
          == start + inject_Z (Z.of_nat i) * ((stop - start) / inject_Z (num - 1)))
    /\ ((1 < num)%Z -> List.last ax 0 = stop)
    /\ (start <= stop -> Forall (fun x => start <= x <= stop) ax).
Proof.
  intros Hnum. destruct (linspace_run start stop num Hnum) as (ax & Hax & Hlen).
  exists ax. refine (conj Hax (conj Hlen (conj _ (conj _ _)))).
  - intros i Hi. now apply (linspace_nth start stop num).
  - intros Hmany. unfold linspace in Hax.
    destruct (Z.ltb_spec num 0) as [Hneg | _]; [lia |].
    destruct (Z.ltb_spec 1 num) as [_ | Hfew]; [| lia].
    injection Hax as <-. apply last_last.
  - now apply (linspace_within start stop num).
Qed.

Lemma linspace_samples_witness :
  exists ax,
    linspace 0 10 3 = Ok ax
    /\ length ax = 3%nat
    /\ (forall i, (i < 3)%nat ->
          nth i ax 0 == 0 + inject_Z (Z.of_nat i) * ((10 - 0) / inject_Z (3 - 1)))
    /\ ((1 < 3)%Z -> List.last ax 0 = 10)
    /\ (0 <= 10 -> Forall (fun x => 0 <= x <= 10) ax).
Proof.
  apply (linspace_samples 0 10 3). lia.
Defined.

(** ** The point matrix *)

Lemma flat_map_uniform_length {A B : Type} (f : A -> list B) (l : list A) (L : nat) :
  (forall a, length (f a) = L) -> length (flat_map f l) = (length l * L)%nat.
Proof.
  intros Hf. induction l as [| a l IH]; [reflexivity |].
  cbn [flat_map length]. rewrite length_app, Hf, IH. lia.
Qed.

Lemma nth_error_flat_map_uniform {A B : Type} (f : A -> list B) (l : list A)
  (L i k : nat) (d : A) :
  (forall a, length (f a) = L) -> (i < length l)%nat -> (k < L)%nat ->
  nth_error (flat_map f l) (i * L + k) = nth_error (f (nth i l d)) k.
Proof.
  intros Hf. revert i. induction l as [| a l IH]; intros i Hi Hk; [cbn in Hi; lia |].
  cbn [flat_map]. destruct i as [| i].
  - cbn [nth Nat.mul Nat.add]. apply nth_error_app1. now rewrite Hf.
  - cbn [nth]. rewrite nth_error_app2 by (rewrite Hf; lia).
    rewrite Hf. replace (S i * L + k - L)%nat with (i * L + k)%nat by lia.
    apply IH; [cbn in Hi; lia | exact Hk].
Qed.

Lemma meshgrid_length (axs : list (list Q)) :
  length (meshgrid_ij axs) = fold_right Nat.mul 1%nat (map (@length Q) axs).
Proof.
  induction axs as [| ax rest IH]; [reflexivity |].
  cbn [meshgrid_ij map fold_right].
  rewrite (flat_map_uniform_length _ ax (length (meshgrid_ij rest)))
    by (intros a; apply length_map).
  now rewrite IH.
Qed.

Lemma flat_index_bound (dims idx : list nat) (k : nat) :
  flat_index dims idx = Some k ->
  (k < fold_right Nat.mul 1%nat dims)%nat /\ Forall2 lt idx dims.
Proof.
  revert idx k. induction dims as [| d dims IH]; intros [| i idx] k; cbn [flat_index];
    try discriminate.
  - intros [= <-]. split; [cbn; lia | constructor].
  - destruct (Nat.ltb_spec i d) as [Hi | _]; [| discriminate].
    destruct (flat_index dims idx) as [k' |] eqn:E; [| discriminate].
    intros [= <-]. destruct (IH idx k' E) as [Hk' Hrest].
    split; [cbn [fold_right]; nia | now constructor].
Qed.

Lemma flat_index_defined (dims idx : list nat) :
  Forall2 lt idx dims -> exists k, flat_index dims idx = Some k.
Proof.
  induction 1 as [| i d idx dims Hi _ [k Hk]]; [now exists 0%nat |].
  cbn [flat_index]. destruct (Nat.ltb_spec i d) as [_ | Hge]; [| lia].
  rewrite Hk. cbn [option_map]. eauto.
Qed.

(** The entry of the mesh at a multi-index holds, for each axis, the
    sample of that axis at the index's component. *)
Lemma meshgrid_nth (axs : list (list Q)) (idx : list nat) (k : nat) :
  flat_index (map (@length Q) axs) idx = Some k ->
  nth_error (meshgrid_ij axs) k = Some (axes_at axs idx).
Proof.
  revert idx k. induction axs as [| ax rest IH]; intros [| i idx] k;
    cbn [map flat_index]; try discriminate.
  - intros [= <-]. reflexivity.
  - destruct (Nat.ltb_spec i (length ax)) as [Hi | _]; [| discriminate].
    destruct (flat_index (map (@length Q) rest) idx) as [k' |] eqn:E; [| discriminate].
    intros [= <-]. cbn [meshgrid_ij].
    destruct (flat_index_bound _ _ _ E) as [Hk' _].
    rewrite <- meshgrid_length in *.
    rewrite (nth_error_flat_map_uniform _ ax (length (meshgrid_ij rest)) i k' 0)
      by (try (intros a; apply length_map); assumption).
    rewrite nth_error_map, (IH idx k' E). reflexivity.
Qed.

(** The index law of the point matrix.  Whenever the generator returns,
    the matrix has one axis per limit with that axis's number of
    samples, then a last axis of length [mspace_ndims]; it holds the
    product of these numbers of points; and the point at the index
    [(i1, ..., iN)] has the coordinates [(axs[0][i1], ..., axs[N-1][iN])],
    an index outside the shape giving nothing. *)
Theorem point_matrix_index_law (mspace_ndims : nat) (limits : list (Q * Q))
  (npoints : list Z) (m : point_matrix) :
  _generate_point_matrix mspace_ndims limits npoints = Ok m ->
  exists axs,
    grid_axes limits npoints = Ok axs
    /\ pm_shape m = (map (@length Q) axs ++ [mspace_ndims])%list
    /\ length (pm_points m) = fold_right Nat.mul 1%nat (map (@length Q) axs)
    /\ forall idx,
         (Forall2 lt idx (map (@length Q) axs) ->
          point_at m idx = Some (axes_at axs idx))
         /\ (~ Forall2 lt idx (map (@length Q) axs) -> point_at m idx = None).
Proof.
  unfold _generate_point_matrix.
  destruct (grid_axes limits npoints) as [axs | e]; [| discriminate].
  cbn [res_bind]. destruct (Nat.leb (length axs) mspace_ndims); [| discriminate].
  intros [= <-]. exists axs.
  refine (conj eq_refl (conj eq_refl (conj (meshgrid_length axs) _))).
  intros idx. unfold point_at. cbn [pm_shape pm_points].
  rewrite removelast_last. split.
  - intros Hidx. destruct (flat_index_defined _ _ Hidx) as [k Hk].
    rewrite Hk. now apply meshgrid_nth.
  - intros Hidx. destruct (flat_index (map (@length Q) axs) idx) as [k |] eqn:E;
      [| reflexivity].
    destruct Hidx. now apply (flat_index_bound _ _ k).
Qed.

Lemma point_matrix_index_law_witness :
  exists m,
    _generate_point_matrix 2 [(0, 10); (0, 20)] [2; 3]%Z = Ok m
    /\ exists axs,
         grid_axes [(0, 10); (0, 20)] [2; 3]%Z = Ok axs
         /\ pm_shape m = (map (@length Q) axs ++ [2%nat])%list
         /\ length (pm_points m) = fold_right Nat.mul 1%nat (map (@length Q) axs)
         /\ forall idx,
              (Forall2 lt idx (map (@length Q) axs) ->
               point_at m idx = Some (axes_at axs idx))
              /\ (~ Forall2 lt idx (map (@length Q) axs) -> point_at m idx = None).
Proof.
  eexists. split; [reflexivity |].
  apply (point_matrix_index_law 2 [(0, 10); (0, 20)] [2; 3]%Z). reflexivity.
Defined.
(** ** What the validators hand to the generator *)

Lemma sort_pair_strict (r : list Q) :
  Qeq_bool (nth 0 r 0) (nth 1 r 0) = false ->
  fst (sort_pair r) < snd (sort_pair r).
Proof.
  intros Hne. unfold sort_pair.
  assert (Hneq : ~ nth 0 r 0 == nth 1 r 0).
  { intros H. apply Qeq_bool_iff in H. congruence. }
  destruct (Qle_bool (nth 0 r 0) (nth 1 r 0)) eqn:Hle; cbn [fst snd].
  - apply Qle_bool_iff in Hle. apply Qle_lteq in Hle. tauto.
  - apply Qnot_le_lt. intros H. apply Qle_bool_iff in H. congruence.
Qed.

Lemma limits_checks_ok (mspace_ndims : nat) (a : nd Q) (ls : list (Q * Q)) :
  limits_checks mspace_ndims a = Ok ls ->
  (exists rows, a = Nd2 rows)
  /\ length ls = mspace_ndims
  /\ Forall (fun l => fst l < snd l) ls.
Proof.
  unfold limits_checks. destruct a as [x | l | rows].
  - cbn. discriminate.
  - cbn [ndim]. change (nat_in 1 [1; 2]%nat) with true. cbn [negb Nat.eqb andb].
    destruct (negb (nat_in (shape0 (Nd1 l)) [2%nat; mspace_ndims])); [discriminate |].
    destruct l as [| x [| y l]]; cbn [any_pair_equal res_bind]; try discriminate.
    destruct (Qeq_bool x y); discriminate.
  - cbn [ndim]. change (nat_in 2 [1; 2]%nat) with true. cbn [negb Nat.eqb andb].
    destruct (negb (Nat.eqb (shape1 (Nd2 rows)) 2)) eqn:Hpair; [discriminate |].
    destruct (negb (nat_in (shape0 (Nd2 rows)) [1%nat; mspace_ndims])) eqn:Hshape;
      [discriminate |].
    cbn [any_pair_equal].
    destruct (forallb (fun r => Nat.leb 2 (length r)) rows); [| discriminate].
    cbn [res_bind].
    destruct (existsb (fun r => Qeq_bool (nth 0 r 0) (nth 1 r 0)) rows) eqn:Hany;
      [discriminate |].
    assert (Hstrict : Forall (fun l => fst l < snd l) (map sort_pair rows)).
    { clear Hshape Hpair. induction rows as [| r rows IH]; [constructor |].
      cbn [existsb] in Hany. apply orb_false_iff in Hany as [Hr Hrows].
      cbn [map]. constructor; [now apply sort_pair_strict | now apply IH]. }
    apply negb_false_iff in Hshape. unfold nat_in in Hshape. cbn [existsb shape0] in Hshape.
    rewrite orb_false_r in Hshape.
    destruct rows as [| r [| r' rows]]; [discriminate Hpair | |];
      cbn [sort_and_broadcast map] in *; intros [= <-].
    + split; [now exists [r] |]. split; [apply repeat_length |].
      apply List.Forall_forall. intros l Hl. apply repeat_spec in Hl. subst l.
      now inversion Hstrict.
    + split; [now eexists |]. split; [| exact Hstrict].
      cbn [length] in *. rewrite length_map.
      apply orb_true_iff in Hshape as [H | H]; apply Nat.eqb_eq in H;
        [discriminate | exact H].
Qed.

Lemma validate_npoints_ok (mspace_ndims : nat) (x : arg Z) (ns : list Z) :
  _validate_npoints mspace_ndims x = Ok ns ->
  length ns = mspace_ndims /\ Forall (fun n => (0 < n)%Z) ns.
Proof.
  unfold _validate_npoints.
  assert (Hbody : forall dt a,
    (if negb (issubdtype dt integer) then Raise ValueError
     else if negb (Nat.eqb (ndim a) 1) then Raise ValueError
     else if negb (nat_in (arr_size a) [1%nat; mspace_ndims]) then Raise ValueError
     else match a with
          | Nd1 l =>
              if existsb (fun n => (n <=? 0)%Z) l then Raise ValueError
              else match l with
                   | [n] => Ok (repeat n mspace_ndims)
                   | _ => Ok l
                   end
          | _ => Raise ValueError
          end) = Ok ns ->
    length ns = mspace_ndims /\ Forall (fun n => (0 < n)%Z) ns).
  { intros dt a. destruct (negb (issubdtype dt integer)); [discriminate |].
    destruct (negb (Nat.eqb (ndim a) 1)); [discriminate |].
    destruct (negb (nat_in (arr_size a) [1%nat; mspace_ndims])) eqn:Hsize;
      [discriminate |].
    destruct a as [z | l | rows]; try discriminate.
    destruct (existsb (fun n => (n <=? 0)%Z) l) eqn:Hany; [discriminate |].
    assert (Hpos : Forall (fun n => (0 < n)%Z) l).
    { apply List.Forall_forall. intros n Hn.
      destruct (Z.leb_spec n 0) as [Hle | Hgt]; [| exact Hgt].
      assert (existsb (fun n => (n <=? 0)%Z) l = true); [| congruence].
      apply existsb_exists. exists n. split; [exact Hn | now apply Z.leb_le]. }
    apply negb_false_iff in Hsize. unfold nat_in in Hsize.
    cbn [existsb arr_size] in Hsize. rewrite orb_false_r in Hsize.
    destruct l as [| n [| n' l]]; intros [= <-].
    - apply orb_true_iff in Hsize as [H | H]; apply Nat.eqb_eq in H;
        [discriminate | split; [exact H | constructor]].
    - split; [apply repeat_length |].
      apply List.Forall_forall. intros k Hk. apply repeat_spec in Hk. subst k.
      now inversion Hpos.
    - split; [| exact Hpos].
      apply orb_true_iff in Hsize as [H | H]; apply Nat.eqb_eq in H;
        [discriminate | exact H]. }
  destruct x as [a | dt a]; cbn [force_array].
  - destruct (rectangular a); [| discriminate]. cbn [res_bind arr arr_dtype]. apply Hbody.
  - cbn [res_bind arr arr_dtype]. apply Hbody.
Qed.

(** What the checks of [_validate_limits] (below its dtype test) and
    [_validate_npoints] have established when they return: one
    (min, max) pair per dimension with min strictly below max, taken
    from a rank-2 argument, and one strictly positive count per
    dimension. *)
Theorem validators_postcondition (mspace_ndims : nat) (a : nd Q) (x : arg Z)
  (ls : list (Q * Q)) (ns : list Z) :
  limits_checks mspace_ndims a = Ok ls ->
  _validate_npoints mspace_ndims x = Ok ns ->
  (exists rows, a = Nd2 rows)
  /\ length ls = mspace_ndims /\ Forall (fun l => fst l < snd l) ls
  /\ length ns = mspace_ndims /\ Forall (fun n => (0 < n)%Z) ns.
Proof.
  intros Hl Hn.
  destruct (limits_checks_ok _ _ _ Hl) as (Hrows & Hlen & Hsorted).
  destruct (validate_npoints_ok _ _ _ Hn) as (Hlen' & Hpos).
  tauto.
Qed.

Lemma validators_postcondition_witness :
  (exists rows, Nd2 [[3; 1]] = Nd2 rows)
  /\ length (repeat (1, 3) 2) = 2%nat
  /\ Forall (fun l => fst l < snd l) (repeat (1, 3) 2)
  /\ length (repeat 5%Z 2) = 2%nat
  /\ Forall (fun n => (0 < n)%Z) (repeat 5%Z 2).
Proof.
  apply (validators_postcondition 2 (Nd2 [[3; 1]]) (PyList (Nd1 [5%Z]))); reflexivity.
Defined.

(** Limits given as one flat (min, max) pair, which the error messages
    of [_validate_limits] invite, are never accepted: a rank-1 array
    that passes the shape tests and has two different entries reaches
    [limits.sort(axis=1)], which raises for lack of that axis. *)
Theorem rank_one_limits_are_never_accepted (mspace_ndims : nat) (l : list Q) :
  is_ok (limits_checks mspace_ndims (Nd1 l)) = false
  /\ forall lo hi, Qeq_bool lo hi = false ->
       limits_checks mspace_ndims (Nd1 [lo; hi]) = Raise AxisError.
Proof.
  split.
  - destruct (limits_checks mspace_ndims (Nd1 l)) as [ls |] eqn:E; [| reflexivity].
    destruct (limits_checks_ok _ _ _ E) as ([rows Hrows] & _). discriminate.
  - intros lo hi Hne. unfold limits_checks.
    cbn [ndim nat_in existsb Nat.eqb negb andb orb shape0 length any_pair_equal res_bind].
    rewrite Hne. reflexivity.
Qed.

Lemma grid_axes_strict (ls : list (Q * Q)) (ns : list Z) :
  length ls = length ns ->
  Forall (fun l => fst l < snd l) ls ->
  Forall (fun n => (0 < n)%Z) ns ->
  exists axs,
    grid_axes ls ns = Ok axs
    /\ map (@length Q) axs = map Z.to_nat ns
    /\ Forall2 (fun ax l => Forall (fun x => fst l <= x <= snd l) ax) axs ls.
Proof.
  revert ns. induction ls as [| l ls IH]; intros [| n ns] Hlen Hsorted Hpos;
    try discriminate.
  - exists []. repeat split; constructor.
  - inversion Hsorted as [| ? ? Hl Hls]; subst.
    inversion Hpos as [| ? ? Hn Hns]; subst.
    destruct (IH ns ltac:(now injection Hlen) Hls Hns) as (axs & Haxs & Hshape & Hin).
    cbn [grid_axes].
    assert (Hne : Qeq_bool (fst l) (snd l) = false).
    { destruct (Qeq_bool (fst l) (snd l)) eqn:E; [| reflexivity].
      apply Qeq_bool_iff in E. rewrite E in Hl. now apply Qlt_irrefl in Hl. }
    rewrite Hne.
    destruct (linspace_run (fst l) (snd l) n ltac:(lia)) as (ax & Hax & Hlenax).
    rewrite Hax, Haxs. cbn [res_bind]. exists (ax :: axs).
    split; [reflexivity |]. split; [cbn [map]; congruence |].
    constructor; [| exact Hin].
    apply (linspace_within _ _ _ _ Hax). now apply Qlt_le_weak.
Qed.

Lemma meshgrid_points (axs : list (list Q)) (p : list Q) :
  In p (meshgrid_ij axs) -> Forall2 (fun x ax => In x ax) p axs.
Proof.
  revert p. induction axs as [| ax rest IH]; intros p; cbn [meshgrid_ij].
  - intros [<- | []]. constructor.
  - intros Hp. apply in_flat_map in Hp as (a & Ha & Hp).
    apply in_map_iff in Hp as (q & <- & Hq). constructor; [exact Ha | now apply IH].
Qed.

(** Validated inputs always generate.  From limits and counts that
    passed the checks, the generator returns a matrix of shape
    [npoints + (mspace_ndims,)] holding the product of the counts of
    points, and every coordinate of every point lies between the limits
    of its axis. *)
Theorem validated_inputs_generate_within_limits (mspace_ndims : nat) (a : nd Q)
  (x : arg Z) (ls : list (Q * Q)) (ns : list Z) :
  limits_checks mspace_ndims a = Ok ls ->
  _validate_npoints mspace_ndims x = Ok ns ->
  exists m,
    _generate_point_matrix mspace_ndims ls ns = Ok m
    /\ pm_shape m = (map Z.to_nat ns ++ [mspace_ndims])%list
    /\ length (pm_points m) = fold_right Nat.mul 1%nat (map Z.to_nat ns)
    /\ Forall (fun p => Forall2 (fun c l => fst l <= c <= snd l) p ls) (pm_points m).
Proof.
  intros Hl Hn.
  destruct (limits_checks_ok _ _ _ Hl) as (_ & Hlen & Hsorted).
  destruct (validate_npoints_ok _ _ _ Hn) as (Hlen' & Hpos).
  destruct (grid_axes_strict ls ns ltac:(congruence) Hsorted Hpos)
    as (axs & Haxs & Hshape & Hin).
  unfold _generate_point_matrix. rewrite Haxs. cbn [res_bind].
  assert (Hcount : length axs = mspace_ndims).
  { rewrite <- (length_map (@length Q) axs), Hshape, length_map. exact Hlen'. }
  rewrite Hcount, Nat.leb_refl. eexists. split; [reflexivity |].
  cbn [pm_shape pm_points]. rewrite meshgrid_length, Hshape.
  refine (conj eq_refl (conj eq_refl _)).
  apply List.Forall_forall. intros p Hp. apply meshgrid_points in Hp.
  clear - Hp Hin. revert ls Hin. induction Hp as [| c ax p axs Hc _ IH]; intros ls Hin.
  - inversion Hin. constructor.
  - inversion Hin as [| ? l ? ls' Hax Hrest]; subst. constructor; [| now apply IH].
    rewrite List.Forall_forall in Hax. now apply Hax.
Qed.

Lemma validated_inputs_generate_within_limits_witness :
  exists m,
    _generate_point_matrix 2 [(0, 10); (0, 20)] [2; 3]%Z = Ok m
    /\ pm_shape m = (map Z.to_nat [2; 3]%Z ++ [2%nat])%list
    /\ length (pm_points m) = fold_right Nat.mul 1%nat (map Z.to_nat [2; 3]%Z)
    /\ Forall (fun p => Forall2 (fun c l => fst l <= c <= snd l) p [(0, 10); (0, 20)])
         (pm_points m).
Proof.
  apply (validated_inputs_generate_within_limits 2 (Nd2 [[10; 0]; [0; 20]])
           (PyList (Nd1 [2; 3]%Z))); reflexivity.
Defined.
Lemma rank_one_limits_are_never_accepted_witness :
  limits_checks 2 (Nd1 [0; 10]) = Raise AxisError.
Proof.
  apply (proj2 (rank_one_limits_are_never_accepted 2 [0; 10])). reflexivity.
Defined.

(** ** The centred grid *)

(** The rows [calculate_limits] builds: as many as there are centres,
    two entries each, and a row with equal entries as soon as one axis
    has a single point or a zero step. *)
Lemma calculate_limits_rows (center : list Q) (npoints : list Z) (step_size : list Q)
  (rows : list (list Q)) :
  calculate_limits center npoints step_size = Ok rows ->
  length rows = length center
  /\ forallb (fun r => Nat.leb 2 (length r)) rows = true
  /\ (match rows with r :: _ => length r | [] => 0%nat end
      = match center with _ :: _ => 2%nat | [] => 0%nat end)
  /\ (In 1%Z npoints \/ Exists (fun s => s == 0) step_size ->
      existsb (fun r => Qeq_bool (nth 0 r 0) (nth 1 r 0)) rows = true).
Proof.
  revert npoints step_size rows.
  induction center as [| c center IH]; intros [| n npoints] [| s step_size] rows;
    cbn [calculate_limits]; try discriminate.
  - intros [= <-]. refine (conj eq_refl (conj eq_refl (conj eq_refl _))).
    intros [[] | H]; inversion H.
  - destruct (calculate_limits center npoints step_size) as [rows' |] eqn:E;
      [| discriminate].
    cbn [res_bind]. intros [= <-].
    destruct (IH npoints step_size rows' E) as (Hlen & Hall & _ & Hex).
    refine (conj _ (conj _ (conj eq_refl _))).
    + cbn [length]. now rewrite Hlen.
    + cbn [forallb length Nat.leb]. exact Hall.
    + intros Hone. cbn [existsb nth]. apply orb_true_iff.
      assert (Hcase : (n = 1%Z \/ s == 0) \/ (In 1%Z npoints \/ Exists (fun s => s == 0) step_size)).
      { destruct Hone as [[<- | Hin] | Hs]; [tauto | tauto |].
        inversion Hs; subst; tauto. }
      destruct Hcase as [Hhere | Hlater]; [left | right; now apply Hex].
      apply Qeq_bool_iff. destruct Hhere as [-> | Hs].
      * change (inject_Z (1 - 1)) with 0. ring.
      * rewrite Hs. ring.
Qed.

(** A centred grid with a single point along some axis, or with a zero
    step, cannot be built: the limits calculated for that axis are equal
    and the equal-pairs guard of [_validate_limits] refuses them. *)
Theorem centred_grid_single_point_axis_is_rejected (center : list Q)
  (npoints : list Z) (step_size : list Q) (rows : list (list Q)) :
  calculate_limits center npoints step_size = Ok rows ->
  In 1%Z npoints \/ Exists (fun s => s == 0) step_size ->
  limits_checks (length center) (Nd2 rows) = Raise ValueError.
Proof.
  intros Hrows Hone.
  destruct (calculate_limits_rows _ _ _ _ Hrows) as (Hlen & Hall & Hfirst & Hex).
  specialize (Hex Hone).
  assert (Hne : center <> []).
  { intros ->. destruct npoints, step_size; try discriminate.
    destruct Hone as [[] | H]; inversion H. }
  unfold limits_checks.
  cbn [ndim]. change (nat_in 2 [1; 2]%nat) with true. cbn [negb Nat.eqb andb].
  assert (Hs1 : shape1 (Nd2 rows) = 2%nat).
  { cbn [shape1]. destruct center; [congruence |]. exact Hfirst. }
  rewrite Hs1. cbn [Nat.eqb negb].
  assert (Hs0 : nat_in (shape0 (Nd2 rows)) [1%nat; length center] = true).
  { cbn [shape0]. rewrite Hlen. unfold nat_in. cbn [existsb].
    rewrite Nat.eqb_refl. now rewrite orb_true_r. }
  rewrite Hs0. cbn [negb any_pair_equal]. rewrite Hall, Hex. reflexivity.
Qed.

Lemma centred_grid_single_point_axis_is_rejected_witness :
  exists rows,
    calculate_limits [0; 0] [5; 1]%Z [1; 1] = Ok rows
    /\ limits_checks 2 (Nd2 rows) = Raise ValueError.
Proof.
  eexists. split; [reflexivity |].
  apply (centred_grid_single_point_axis_is_rejected [0; 0] [5; 1]%Z [1; 1]).
  - reflexivity.
  - left. right. left. reflexivity.
Defined.

(** In exact arithmetic: with at least two points and a positive step,
    the limits calculated for an axis are in order and the samples the
    generator takes between them are [step_size] apart, symmetric about
    the centre.  (This is a statement about the ideal values; in
    float64 the half width can be absorbed by a large centre, and the
    samples are rounded.) *)
Theorem centred_grid_axis_has_the_step_size (c s : Q) (n : Z) :
  (2 <= n)%Z -> 0 < s ->
  exists lo hi ax,
    calculate_limits [c] [n] [s] = Ok [[lo; hi]]
    /\ sort_pair [lo; hi] = (lo, hi)
    /\ grid_axes [(lo, hi)] [n] = Ok [ax]
    /\ length ax = Z.to_nat n
    /\ forall i, (i < Z.to_nat n)%nat ->
         nth i ax 0 == c + (inject_Z (Z.of_nat i) - inject_Z (n - 1) / 2) * s.
Proof.
  intros Hn Hs.
  set (h := (1 # 2) * inject_Z (n - 1) * s).
  assert (Hn1 : 0 < inject_Z (n - 1)).
  { change 0 with (inject_Z 0). rewrite <- Zlt_Qlt. lia. }
  assert (Hh : 0 < h) by (subst h; Lqa.nra).
  exists (- h + c), (h + c).
  destruct (linspace_run (- h + c) (h + c) n ltac:(lia)) as (ax & Hax & Hlen).
  exists ax. refine (conj eq_refl (conj _ (conj _ (conj Hlen _)))).
  - unfold sort_pair. cbn [nth].
    destruct (Qle_bool (- h + c) (h + c)) eqn:E; [reflexivity |].
    assert (Hle : - h + c <= h + c) by Lqa.lra.
    apply Qle_bool_iff in Hle. congruence.
  - cbn [grid_axes fst snd].
    destruct (Qeq_bool (- h + c) (h + c)) eqn:E.
    + apply Qeq_bool_iff in E. exfalso. Lqa.lra.
    + rewrite Hax. reflexivity.
  - intros i Hi. rewrite (linspace_nth _ _ _ _ i Hax Hi).
    subst h. set (n1 := inject_Z (n - 1)) in *. field.
    intros H. rewrite H in Hn1. now apply Qlt_irrefl in Hn1.
Qed.

Lemma centred_grid_axis_has_the_step_size_witness :
  exists lo hi ax,
    calculate_limits [0] [3%Z] [1] = Ok [[lo; hi]]
    /\ sort_pair [lo; hi] = (lo, hi)
    /\ grid_axes [(lo, hi)] [3%Z] = Ok [ax]
    /\ length ax = Z.to_nat 3
    /\ forall i, (i < Z.to_nat 3)%nat ->
         nth i ax 0 == 0 + (inject_Z (Z.of_nat i) - inject_Z (3 - 1) / 2) * 1.
Proof.
  apply (centred_grid_axis_has_the_step_size 0 1 3); [lia | reflexivity].
Defined.

(** ** Arguments given as Python lists *)

Lemma rectangular_concat_length (r : list Q) (rows : list (list Q)) :
  forallb (fun r' => Nat.eqb (length r') (length r)) rows = true ->
  length (concat rows) = (length rows * length r)%nat.
Proof.
  induction rows as [| r' rows IH]; [reflexivity |].
  cbn [forallb concat length]. intros H. apply andb_true_iff in H as [Hr' Hrows].
  apply Nat.eqb_eq in Hr'. rewrite length_app, Hr', (IH Hrows). lia.
Qed.

(** [squeeze] never leaves a rank-1 array with one entry. *)
Lemma squeeze_never_singleton (a : nd Q) (l : list Q) :
  squeeze a = Nd1 l -> length l <> 1%nat.
Proof.
  destruct a as [x | l0 | rows].
  - discriminate.
  - destruct l0 as [| x [| y l0]]; cbn [squeeze]; try discriminate;
      intros [= <-]; cbn [length]; lia.
  - destruct rows as [| r [| r' rows]].
    + cbn. intros [= <-]. cbn [length]. lia.
    + destruct r as [| x [| y r]]; cbn [squeeze]; try discriminate;
        intros [= <-]; cbn [length]; lia.
    + assert (Hsq : squeeze (Nd2 (r :: r' :: rows))
                    = if forallb (fun r => Nat.eqb (length r) 1) (r :: r' :: rows)
                      then Nd1 (concat (r :: r' :: rows))
                      else Nd2 (r :: r' :: rows)).
      { destruct r as [| x [| y r]]; reflexivity. }
      rewrite Hsq.
      destruct (forallb (fun r => Nat.eqb (length r) 1) (r :: r' :: rows)) eqn:E;
        [| discriminate].
      intros [= <-]. cbn [forallb] in E.
      apply andb_true_iff in E as [Hr E]. apply andb_true_iff in E as [Hr' _].
      apply Nat.eqb_eq in Hr, Hr'. cbn [concat]. rewrite !length_app. lia.
Qed.

Lemma squeeze_of_size_one (a : nd Q) :
  rectangular a = true -> arr_size a = 1%nat -> exists x, squeeze a = Nd0 x.
Proof.
  destruct a as [x | l | rows]; cbn [arr_size rectangular squeeze].
  - intros _ _. now exists x.
  - intros _ Hl. destruct l as [| x [| y l]]; try discriminate. now exists x.
  - destruct rows as [| r rows]; [discriminate |].
    intros Hrect Hsize. cbn [concat] in Hsize. rewrite length_app in Hsize.
    rewrite (rectangular_concat_length r rows Hrect) in Hsize.
    destruct rows as [| r' rows].
    + destruct r as [| x [| y r]]; try discriminate. now exists x.
    + cbn [length] in Hsize. exfalso.
      destruct (length r) as [| k]; cbn [Nat.mul Nat.add] in Hsize; lia.
Qed.

(** A Python list is squeezed after its conversion, so a list holding a
    single number reaches the checks as a rank-0 array.  Hence [center]
    and [step_size] given as such a list always end in [ValueError], and
    in a one-dimensional motion space every list does; the branch that
    repeats one step size over all dimensions is only reached by an
    [np.ndarray]. *)
Theorem single_entry_lists_are_squeezed_away (mspace_ndims : nat) (a : nd Q) :
  mspace_ndims = 1%nat \/ arr_size a = 1%nat ->
  _validate_center mspace_ndims (PyList a) = Raise ValueError
  /\ _validate_step_size mspace_ndims (PyList a) = Raise ValueError
  /\ forall dt s,
       _validate_step_size mspace_ndims (NdArray dt (Nd1 [s]))
       = Ok (repeat s mspace_ndims).
Proof.
  intros Hcase. refine (conj _ (conj _ _)).
  - unfold _validate_center. destruct (rectangular a) eqn:Hrect; [| reflexivity].
    cbn [res_bind arr]. destruct (squeeze a) as [x | l | rows] eqn:Hsq; try reflexivity.
    destruct Hcase as [-> | Hsize].
    + destruct (Nat.eqb_spec (length l) 1) as [Hone | _]; [| reflexivity].
      now destruct (squeeze_never_singleton a l Hsq).
    + destruct (squeeze_of_size_one a Hrect Hsize) as [x Hx]. congruence.
  - unfold _validate_step_size. destruct (rectangular a) eqn:Hrect; [| reflexivity].
    cbn [res_bind arr]. destruct (squeeze a) as [x | l | rows] eqn:Hsq; try reflexivity.
    destruct Hcase as [-> | Hsize].
    + unfold nat_in. cbn [existsb]. rewrite orb_false_r, orb_diag.
      destruct (Nat.eqb_spec (length l) 1) as [Hone | _]; [| reflexivity].
      now destruct (squeeze_never_singleton a l Hsq).
    + destruct (squeeze_of_size_one a Hrect Hsize) as [x Hx]. congruence.
  - intros dt s. reflexivity.
Qed.

Lemma single_entry_lists_are_squeezed_away_witness :
  _validate_center 2 (PyList (Nd1 [1 # 10])) = Raise ValueError
  /\ _validate_step_size 2 (PyList (Nd1 [1 # 10])) = Raise ValueError
  /\ forall dt s, _validate_step_size 2 (NdArray dt (Nd1 [s])) = Ok (repeat s 2).
Proof.
  apply (single_entry_lists_are_squeezed_away 2 (Nd1 [1 # 10])). right. reflexivity.
Defined.

End GridProps.

(** * Properties of motion_list/exclusions/lapd.py *)

Section ExclusionProps.
Import Exclusion.
Local Open Scope Q_scope.

(** ** Comparisons *)

Lemma Qle_bool_false (a b : Q) : Qle_bool a b = false <-> b < a.
Proof.
  split; intros H.
  - apply Qnot_le_lt. intros Hle. apply Qle_bool_iff in Hle. congruence.
  - destruct (Qle_bool a b) eqn:E; [| reflexivity].
    apply Qle_bool_iff in E. exfalso. exact (Qlt_not_le _ _ H E).
Qed.

Lemma Qlt_bool_iff (a b : Q) : Qlt_bool a b = true <-> a < b.
Proof.
  unfold Qlt_bool. rewrite negb_true_iff. apply Qle_bool_false.
Qed.

(** ** What validation accepts *)

(** The cone-angle test lets through exactly the angles below 180. *)
Lemma validate_cone_full_angle_ok (a : Q) :
  validate_cone_full_angle (PNum a) = Ok tt <-> a < 180.
Proof.
  unfold validate_cone_full_angle.
  destruct (Qle_bool 180 a) eqn:E180.
  - assert (H180 : 180 <= a) by (now apply Qle_bool_iff).
    assert (H0 : Qle_bool 0 a = true).
    { apply Qle_bool_iff. apply Qle_trans with 180; [discriminate | exact H180]. }
    rewrite H0. cbn. split; [discriminate |].
    intros Hlt. exfalso. exact (Qlt_not_le _ _ Hlt H180).
  - rewrite andb_false_r. split; [intros _ | reflexivity].
    now apply Qle_bool_false.
Qed.

(** A numeric port location passes exactly inside [(-180, 360)]. *)
Lemma validate_port_angle_ok (a : Q) :
  validate_port_location (PNum a) = Ok (PNum a) <-> -180 < a /\ a < 360.
Proof.
  unfold validate_port_location. cbn [res_bind].
  destruct (Qlt_bool (-180) a) eqn:Elo, (Qlt_bool a 360) eqn:Ehi; cbn [andb negb].
  - apply Qlt_bool_iff in Elo, Ehi. tauto.
  - split; [discriminate | intros [_ H]]. apply Qlt_bool_iff in H. congruence.
  - split; [discriminate | intros [H _]]. apply Qlt_bool_iff in H. congruence.
  - split; [discriminate | intros [H _]]. apply Qlt_bool_iff in H. congruence.
Qed.

(** Which numeric arguments [_validate_inputs] refuses when the cone is
    included. *)
Lemma validate_inputs_numeric (d r a c : Q) :
  is_ok (_validate_inputs (Inputs (PNum d) (PNum r) (PNum a) (PNum c) true)) = false
  <-> 180 <= c \/ ~ (-180 < a /\ a < 360).
Proof.
  unfold _validate_inputs. cbn [np_abs diameter pivot_radius include_cone
    cone_full_angle port_location res_bind negb].
  destruct (validate_cone_full_angle (PNum c)) as [[] | e] eqn:Ec.
  - apply validate_cone_full_angle_ok in Ec. cbn [res_bind].
    destruct (validate_port_location (PNum a)) as [p | e] eqn:Ea; cbn [res_bind is_ok].
    + assert (Hp : p = PNum a).
      { unfold validate_port_location in Ea. cbn [res_bind] in Ea.
        destruct (negb _) in Ea; congruence. }
      subst p. apply validate_port_angle_ok in Ea.
      split; [discriminate | intros [H | H]]; [| tauto].
      exfalso. exact (Qlt_not_le _ _ Ec H).
    + split; [intros _ | reflexivity]. right. intros H.
      apply validate_port_angle_ok in H. congruence.
  - cbn [res_bind is_ok]. split; [intros _ | reflexivity]. left.
    apply Qnot_lt_le. intros H. apply validate_cone_full_angle_ok in H. congruence.
Qed.

(** A compass token stands for its angle, whatever its case. *)
Lemma validate_port_token (s : string) (angle : Q) :
  dict_get _port_location_to_angle (lower s) = Some angle ->
  validate_port_location (PStr s) = validate_port_location (PNum angle).
Proof.
  intros Hget. unfold validate_port_location at 1.
  assert (Hin : existsb (String.eqb (casefold s))
                  (map (fun kv => casefold (fst kv)) _port_location_to_angle) = true).
  { replace (map (fun kv => casefold (fst kv)) _port_location_to_angle)
      with (map fst _port_location_to_angle) by reflexivity.
    unfold casefold. cbn in Hget |- *.
    repeat match type of Hget with
           | context [String.eqb ?x ?y] => destruct (String.eqb x y); [reflexivity |]
           end.
    discriminate. }
  rewrite Hin, Hget. reflexivity.
Qed.

Example port_tokens :
  validate_port_location (PStr "E") = Ok (PNum 0)
  /\ validate_port_location (PStr "east") = Ok (PNum 0)
  /\ validate_port_location (PStr "Top") = Ok (PNum 90)
  /\ validate_port_location (PStr "WEST") = Ok (PNum 180)
  /\ validate_port_location (PStr "b") = Ok (PNum 270)
  /\ validate_port_location (PStr "Bot") = Ok (PNum 270)
  /\ validate_port_location (PStr "bottom") = Ok (PNum 270)
  /\ validate_port_location (PStr "north") = Raise ValueError.
Proof. repeat split. Qed.

(** Claim C9, on the code: with the cone included and every other
    argument at its default, a non-positive [cone_full_angle] is not
    rejected.  [0 <= a >= 180] only holds from 180 on, so validation
    passes and the mask is generated with that angle. *)
Theorem non_positive_cone_angle_passes_validation
  {mask : Type} (generate : inputs -> mask) (a : Q) :
  a <= 0 ->
  exists self,
    LaPDXYExclusion generate false (with_cone_full_angle (PNum a) defaults)
    = Ok (self, Some (generate self))
    /\ cone_full_angle self = PNum a.
Proof.
  intros Ha. unfold LaPDXYExclusion, _validate_inputs, defaults, with_cone_full_angle.
  cbn [np_abs diameter pivot_radius include_cone cone_full_angle port_location
       res_bind negb].
  assert (Hc : validate_cone_full_angle (PNum a) = Ok tt).
  { apply validate_cone_full_angle_ok. apply Qle_lt_trans with 0; [exact Ha | reflexivity]. }
  rewrite Hc. cbn [res_bind].
  replace (validate_port_location (PStr "E")) with (Ok (PNum 0)) by reflexivity.
  cbn [res_bind]. eexists. split; reflexivity.
Qed.

Lemma non_positive_cone_angle_passes_validation_witness :
  exists self,
    LaPDXYExclusion (fun _ => tt) false (with_cone_full_angle (PNum 0) defaults)
    = Ok (self, Some tt)
    /\ cone_full_angle self = PNum 0.
Proof.
  apply (non_positive_cone_angle_passes_validation (fun _ => tt) 0).
  apply Qle_refl.
Defined.

(** ** Port tokens and repeated validation *)

(** A port given by its compass token, in any letter case, is the same
    as the port given by the token's angle: validation leaves the same
    inputs and the same mask is generated ("E" is 0, "Top" is 90, ...). *)
Theorem port_token_is_equivalent_to_its_angle {M : Type} (generate : inputs -> M)
  (skip_ds_add : bool) (s : string) (angle : Q) (self : inputs) :
  dict_get _port_location_to_angle (lower s) = Some angle ->
  LaPDXYExclusion generate skip_ds_add (with_port_location (PStr s) self)
  = LaPDXYExclusion generate skip_ds_add (with_port_location (PNum angle) self).
Proof.
  intros Hget. unfold LaPDXYExclusion, _validate_inputs, with_port_location.
  cbn [diameter pivot_radius port_location cone_full_angle include_cone].
  now rewrite (validate_port_token s angle Hget).
Qed.

Lemma port_token_is_equivalent_to_its_angle_witness :
  LaPDXYExclusion (fun self => port_location self) false
    (with_port_location (PStr "East") defaults)
  = LaPDXYExclusion (fun self => port_location self) false
      (with_port_location (PNum 0) defaults).
Proof.
  apply (port_token_is_equivalent_to_its_angle _ false "East" 0 defaults).
  reflexivity.
Defined.

Lemma validate_port_location_idempotent (v p : pyval) :
  validate_port_location v = Ok p -> validate_port_location p = Ok p.
Proof.
  unfold validate_port_location.
  set (check := fun port : pyval =>
                  match port with
                  | PNum a =>
                      if negb (Qlt_bool (-180) a && Qlt_bool a 360)
                      then Raise ValueError else Ok port
                  | _ => Raise TypeError
                  end).
  assert (Hcheck : forall q, check q = Ok p -> res_bind (Ok p) check = Ok p).
  { intros q Hq. cbn [res_bind]. destruct q as [a | s | ]; cbn [check] in Hq;
      try discriminate.
    destruct (negb (Qlt_bool (-180) a && Qlt_bool a 360)) eqn:E; [discriminate |].
    injection Hq as <-. cbn [check]. now rewrite E. }
  intros Hv.
  destruct p as [a | s | ].
  - destruct v as [a' | s' | ]; cbn [res_bind] in Hv.
    + now apply (Hcheck (PNum a')).
    + destruct (existsb (String.eqb (casefold s'))
                  (map (fun kv => casefold (fst kv)) _port_location_to_angle));
        [| discriminate].
      destruct (dict_get _port_location_to_angle (lower s')) as [angle |];
        [| discriminate].
      cbn [res_bind] in Hv. now apply (Hcheck (PNum angle)).
    + discriminate.
  - exfalso. destruct v as [a' | s' | ]; cbn [res_bind] in Hv.
    + cbn [check] in Hv.
      destruct (negb (Qlt_bool (-180) a' && Qlt_bool a' 360)); discriminate.
    + destruct (existsb (String.eqb (casefold s'))
                  (map (fun kv => casefold (fst kv)) _port_location_to_angle));
        [| discriminate].
      destruct (dict_get _port_location_to_angle (lower s')) as [angle |];
        [| discriminate].
      cbn [res_bind check] in Hv.
      destruct (negb (Qlt_bool (-180) angle && Qlt_bool angle 360)); discriminate.
    + discriminate.
  - exfalso. destruct v as [a' | s' | ]; cbn [res_bind] in Hv.
    + cbn [check] in Hv.
      destruct (negb (Qlt_bool (-180) a' && Qlt_bool a' 360)); discriminate.
    + destruct (existsb (String.eqb (casefold s'))
                  (map (fun kv => casefold (fst kv)) _port_location_to_angle));
        [| discriminate].
      destruct (dict_get _port_location_to_angle (lower s')) as [angle |];
        [| discriminate].
      cbn [res_bind check] in Hv.
      destruct (negb (Qlt_bool (-180) angle && Qlt_bool angle 360)); discriminate.
    + discriminate.
Qed.

Lemma Qabs_Qabs (q : Q) : Qabs (Qabs q) = Qabs q.
Proof. destruct q as [n d]. cbn [Qabs]. now rewrite Z.abs_idemp. Qed.

(** Validation is idempotent: the inputs it leaves (absolute values,
    the port as an angle, or [None] for what an exclusion without cone
    does not use) pass it again unchanged. *)
Theorem exclusion_validation_is_idempotent (self validated : inputs) :
  _validate_inputs self = Ok validated ->
  _validate_inputs validated = Ok validated.
Proof.
  unfold _validate_inputs. destruct self as [d r port cone inc].
  cbn [diameter pivot_radius port_location cone_full_angle include_cone].
  destruct d as [d | |]; try discriminate. cbn [np_abs res_bind].
  destruct inc; cbn [negb].
  - destruct r as [r | |]; try discriminate. cbn [np_abs res_bind].
    destruct (validate_cone_full_angle cone) as [[] |] eqn:Ec; [| discriminate].
    cbn [res_bind].
    destruct (validate_port_location port) as [p |] eqn:Ep; [| discriminate].
    cbn [res_bind]. intros [= <-].
    cbn [diameter pivot_radius port_location cone_full_angle include_cone
         np_abs res_bind negb].
    rewrite Ec. cbn [res_bind].
    rewrite (validate_port_location_idempotent _ _ Ep). cbn [res_bind].
    now rewrite !Qabs_Qabs.
  - intros [= <-].
    cbn [diameter include_cone np_abs res_bind negb]. now rewrite Qabs_Qabs.
Qed.

Lemma exclusion_validation_is_idempotent_witness :
  exists validated,
    _validate_inputs defaults = Ok validated
    /\ _validate_inputs validated = Ok validated.
Proof.
  eexists. split; [reflexivity |].
  apply (exclusion_validation_is_idempotent defaults). reflexivity.
Defined.

(** ** The composed mask *)

Lemma combine_loop_some {point : Type} (m0 : mask point) (exs : list (mask point)) :
  exists m,
    combine_loop (Some m0) exs = Some m
    /\ forall p, m p = m0 p && forallb (fun ex => ex p) exs.
Proof.
  revert m0. induction exs as [| ex exs IH]; intros m0.
  - exists m0. split; [reflexivity | intros p; cbn [forallb]; now rewrite andb_true_r].
  - cbn [combine_loop]. destruct (IH (logical_and m0 ex)) as (m & Hm & Hp).
    exists m. split; [exact Hm |]. intros p. rewrite Hp. unfold logical_and.
    cbn [forallb]. now rewrite andb_assoc.
Qed.

Lemma combine_exclusions_some {point : Type} (exclusion_of : composed -> mask point)
  (c : composed) (cs : list composed) :
  exists m,
    _combine_exclusions exclusion_of (c :: cs) = Some m
    /\ forall p, m p = forallb (fun ex => exclusion_of ex p) (c :: cs).
Proof.
  unfold _combine_exclusions. cbn [map combine_loop].
  destruct (combine_loop_some (exclusion_of c) (map exclusion_of cs)) as (m & Hm & Hp).
  exists m. split; [exact Hm |]. intros p. rewrite Hp. cbn [forallb]. f_equal.
  clear Hm Hp. induction cs as [| c' cs IH]; [reflexivity |].
  cbn [map forallb]. now rewrite IH.
Qed.

(** [_combine_exclusions] returns [None] exactly when nothing is
    composed; otherwise its mask allows a point exactly when every
    composed exclusion allows it.  Hence composing more exclusions can
    only exclude more, and the order of composition does not matter. *)
Theorem combined_mask_allows_what_every_part_allows {point : Type}
  (exclusion_of : composed -> mask point) (composed_exclusions : list composed) :
  (_combine_exclusions exclusion_of composed_exclusions = None
   <-> composed_exclusions = [])
  /\ (forall m, _combine_exclusions exclusion_of composed_exclusions = Some m ->
      forall p, m p = forallb (fun ex => exclusion_of ex p) composed_exclusions)
  /\ (forall more m m',
        _combine_exclusions exclusion_of composed_exclusions = Some m ->
        _combine_exclusions exclusion_of (composed_exclusions ++ more)%list = Some m' ->
        forall p, m' p = true -> m p = true)
  /\ (forall other m m',
        Permutation composed_exclusions other ->
        _combine_exclusions exclusion_of composed_exclusions = Some m ->
        _combine_exclusions exclusion_of other = Some m' ->
        forall p, m' p = m p).
Proof.
  assert (Hspec : forall cs m,
            _combine_exclusions exclusion_of cs = Some m ->
            forall p, m p = forallb (fun ex => exclusion_of ex p) cs).
  { intros [| c cs] m; [discriminate |].
    destruct (combine_exclusions_some exclusion_of c cs) as (m1 & Hm1 & Hp).
    rewrite Hm1. now intros [= <-]. }
  refine (conj _ (conj (Hspec _) (conj _ _))).
  - split; [| now intros ->].
    destruct composed_exclusions as [| c cs]; [reflexivity |].
    destruct (combine_exclusions_some exclusion_of c cs) as (m1 & Hm1 & _).
    congruence.
  - intros more m m' Hm Hm' p.
    rewrite (Hspec _ _ Hm), (Hspec _ _ Hm'), forallb_app.
    intros H. now apply andb_true_iff in H.
  - intros other m m' Hperm Hm Hm' p.
    rewrite (Hspec _ _ Hm), (Hspec _ _ Hm').
    clear Hm Hm'. induction Hperm as [| c l l' _ IH | c c' l | l l' l'' _ IH1 _ IH2].
    + reflexivity.
    + cbn [forallb]. now rewrite IH.
    + cbn [forallb]. rewrite !andb_assoc.
      now rewrite (andb_comm (exclusion_of c p)).
    + now rewrite IH2, IH1.
Qed.

Lemma combined_mask_allows_what_every_part_allows_witness :
  Nat.leb 1 3 = true.
Proof.
  apply (proj1 (proj2 (proj2 (combined_mask_allows_what_every_part_allows
           (fun ex => match ex with
                      | CircularExclusion _ _ _ => Nat.leb 1
                      | DividerExclusion _ _ => Nat.leb 2
                      end)
           [CircularExclusion 1 (0, 0)%R "outside"])))
         [DividerExclusion (1, 0)%R "+e1"]
         (Nat.leb 1) (logical_and (Nat.leb 1) (Nat.leb 2)) eq_refl eq_refl 3%nat).
  reflexivity.
Defined.

(** ** Generating the mask *)

Lemma forallb_app_twice {A : Type} (f : A -> bool) (l new : list A) :
  forallb f ((l ++ new) ++ new) = forallb f (l ++ new).
Proof.
  rewrite !forallb_app. destruct (forallb f l), (forallb f new); reflexivity.
Qed.

(** [_generate_exclusion] appends to [self.composed_exclusions] and
    nothing empties that list between calls: whenever it returns, it has
    appended the chamber wall (a circle of half the diameter about the
    origin, excluding the outside) and, with the cone, the two dividers;
    it returns a mask, which allows no point the chamber wall excludes;
    and a second call appends the same exclusions once more and returns
    a mask equal to the first at every point. *)
Theorem regeneration_repeats_the_composed_exclusions {point : Type}
  (exclusion_of : composed -> mask point) (self : inputs)
  (composed0 composed1 : list composed) (result : option (mask point)) :
  _generate_exclusion exclusion_of self composed0 = (composed1, Ok result) ->
  exists d dividers m1 m2,
    diameter self = PNum d
    /\ composed1
       = (composed0
            ++ CircularExclusion (0.5 * Q2R d)%R (0, 0)%R "outside" :: dividers)%list
    /\ length dividers = (if include_cone self then 2%nat else 0%nat)
    /\ result = Some m1
    /\ (forall p,
          m1 p = true ->
          exclusion_of (CircularExclusion (0.5 * Q2R d)%R (0, 0)%R "outside") p = true)
    /\ _generate_exclusion exclusion_of self composed1
       = ((composed1
             ++ CircularExclusion (0.5 * Q2R d)%R (0, 0)%R "outside" :: dividers)%list,
          Ok (Some m2))
    /\ forall p, m2 p = m1 p.
Proof.
  unfold _generate_exclusion.
  destruct (diameter self) as [d | |]; cbn [number]; try discriminate.
  set (wall := CircularExclusion (0.5 * Q2R d)%R (0, 0)%R "outside").
  assert (Hcombine : forall new,
    exists m1 m2,
      _combine_exclusions exclusion_of (composed0 ++ wall :: new)%list = Some m1
      /\ _combine_exclusions exclusion_of
           ((composed0 ++ wall :: new) ++ wall :: new)%list = Some m2
      /\ (forall p, m1 p = true -> exclusion_of wall p = true)
      /\ forall p, m2 p = m1 p).
  { intros new.
    assert (Hsome : forall cs, cs <> [] ->
              exists m, _combine_exclusions exclusion_of cs = Some m
                        /\ forall p, m p = forallb (fun ex => exclusion_of ex p) cs).
    { intros [| c cs] Hne; [congruence |]. apply combine_exclusions_some. }
    destruct (Hsome (composed0 ++ wall :: new)%list) as (m1 & Hm1 & Hp1);
      [now destruct composed0 |].
    destruct (Hsome ((composed0 ++ wall :: new) ++ wall :: new)%list)
      as (m2 & Hm2 & Hp2); [now destruct composed0 |].
    exists m1, m2. refine (conj Hm1 (conj Hm2 (conj _ _))).
    - intros p. rewrite Hp1, forallb_app. cbn [forallb].
      intros H. apply andb_true_iff in H as [_ H].
      now apply andb_true_iff in H as [H _].
    - intros p. rewrite Hp1, Hp2. apply forallb_app_twice. }
  destruct (include_cone self); cbn [negb].
  - destruct (port_location self) as [port | |]; cbn [number]; try discriminate.
    destruct (cone_full_angle self) as [cone | |]; cbn [number]; try discriminate.
    destruct (pivot_radius self) as [r | |]; cbn [number]; try discriminate.
    set (dividers := [cone_divider (Q2R r) (radians (Q2R port))
                        (0.5 * radians (Q2R cone)) upper_k;
                      cone_divider (Q2R r) (radians (Q2R port))
                        (0.5 * radians (Q2R cone)) lower_k]).
    destruct (Hcombine dividers) as (m1 & m2 & Hm1 & Hm2 & Hwall & Heq).
    rewrite <- !app_assoc. cbn [app].
    change (wall :: cone_divider (Q2R r) (radians (Q2R port))
                      (0.5 * radians (Q2R cone)) upper_k
                 :: cone_divider (Q2R r) (radians (Q2R port))
                      (0.5 * radians (Q2R cone)) lower_k :: nil)
      with (wall :: dividers).
    intros [= <- <-]. exists d, dividers, m1, m2.
    rewrite Hm1. refine (conj eq_refl (conj eq_refl (conj eq_refl (conj eq_refl
                           (conj Hwall (conj _ Heq)))))).
    rewrite <- Hm2. rewrite <- !app_assoc. reflexivity.
  - destruct (Hcombine []) as (m1 & m2 & Hm1 & Hm2 & Hwall & Heq).
    intros [= <- <-]. exists d, [], m1, m2.
    rewrite Hm1. refine (conj eq_refl (conj eq_refl (conj eq_refl (conj eq_refl
                           (conj Hwall (conj _ Heq)))))).
    rewrite <- Hm2. rewrite <- !app_assoc. reflexivity.
Qed.

Lemma regeneration_repeats_the_composed_exclusions_witness :
  exists composed1 result,
    _generate_exclusion (fun _ (_ : unit) => true)
      (Inputs (PNum 100) (PNum 58) (PNum 0) (PNum 80) true) [] = (composed1, Ok result)
    /\ exists d dividers m1 m2,
         PNum 100 = PNum d
         /\ composed1
            = ([] ++ CircularExclusion (0.5 * Q2R d)%R (0, 0)%R "outside" :: dividers)%list
         /\ length dividers = 2%nat
         /\ result = Some m1
         /\ (forall p, m1 p = true -> true = true)
         /\ _generate_exclusion (fun _ (_ : unit) => true)
              (Inputs (PNum 100) (PNum 58) (PNum 0) (PNum 80) true) composed1
            = ((composed1
                  ++ CircularExclusion (0.5 * Q2R d)%R (0, 0)%R "outside" :: dividers)%list,
               Ok (Some m2))
         /\ forall p, m2 p = m1 p.
Proof.
  eexists. eexists. split; [reflexivity |].
  apply (regeneration_repeats_the_composed_exclusions (fun _ (_ : unit) => true)
           (Inputs (PNum 100) (PNum 58) (PNum 0) (PNum 80) true) []).
  reflexivity.
Defined.

(** ** The cone *)

Lemma rot_det (theta : R) :
  (cos theta * cos theta - - sin theta * sin theta = 1)%R.
Proof.
  pose proof (sin2_cos2 theta) as H. unfold Rsqr in H. lra.
Qed.

(** The two dividers of the cone are lines through the pivot, at the
    angles [theta - alpha] and [theta + alpha] to the first axis,
    [theta] being the direction of the port and [alpha] half the cone
    angle (neither line vertical).  For a port within 45 degrees of
    east, the upper divider excludes towards +e1 and the lower one
    towards -e1. *)
Theorem cone_dividers_pass_through_the_pivot (pivot_radius theta alpha : R) :
  (cos (theta - alpha) <> 0)%R -> (cos (theta + alpha) <> 0)%R ->
  exists slope_u slope_l intercept_u intercept_l exclude_u exclude_l,
    cone_divider pivot_radius theta alpha upper_k
    = DividerExclusion (slope_u, intercept_u) exclude_u
    /\ cone_divider pivot_radius theta alpha lower_k
       = DividerExclusion (slope_l, intercept_l) exclude_l
    /\ slope_u = tan (theta - alpha) /\ slope_l = tan (theta + alpha)
    /\ (slope_u * (pivot_radius * cos theta) + intercept_u
        = pivot_radius * sin theta)%R
    /\ (slope_l * (pivot_radius * cos theta) + intercept_l
        = pivot_radius * sin theta)%R
    /\ ((Rabs (sin theta) <= Rabs (cos theta))%R -> (0 < cos theta)%R ->
        exclude_u = "+e1"%string /\ exclude_l = "-e1"%string).
Proof.
  intros Hu Hl.
  assert (Hslope_u :
    ((fst (- cos alpha, sin alpha) * snd (fst (linalg_inv (rot_matrix theta)))
      + snd (- cos alpha, sin alpha) * snd (snd (linalg_inv (rot_matrix theta))))
     / (fst (- cos alpha, sin alpha) * fst (fst (linalg_inv (rot_matrix theta)))
        + snd (- cos alpha, sin alpha) * fst (snd (linalg_inv (rot_matrix theta))))
     = tan (theta - alpha))%R).
  { unfold tan. rewrite cos_minus, sin_minus in *.
    cbv [linalg_inv rot_matrix fst snd]. rewrite rot_det. field. lra. }
  assert (Hslope_l :
    ((fst (- cos alpha, - sin alpha) * snd (fst (linalg_inv (rot_matrix theta)))
      + snd (- cos alpha, - sin alpha) * snd (snd (linalg_inv (rot_matrix theta))))
     / (fst (- cos alpha, - sin alpha) * fst (fst (linalg_inv (rot_matrix theta)))
        + snd (- cos alpha, - sin alpha) * fst (snd (linalg_inv (rot_matrix theta))))
     = tan (theta + alpha))%R).
  { unfold tan. rewrite cos_plus, sin_plus in *.
    cbv [linalg_inv rot_matrix fst snd]. rewrite rot_det. field. lra. }
  do 6 eexists.
  refine (conj eq_refl (conj eq_refl (conj _ (conj _ (conj _ (conj _ _)))))).
  - exact Hslope_u.
  - exact Hslope_l.
  - cbv [vecmat cone_trajectories fst snd]. ring.
  - cbv [vecmat cone_trajectories fst snd]. ring.
  - intros Hport Hcos.
    assert (Hx : forall sign : R,
              fst (vecmat (0, sign * 1)%R (linalg_inv (rot_matrix theta)))
              = (sign * - sin theta)%R).
    { intros sign. cbv [vecmat linalg_inv rot_matrix fst snd]. rewrite rot_det. field. }
    assert (Hy : forall sign : R,
              snd (vecmat (0, sign * 1)%R (linalg_inv (rot_matrix theta)))
              = (sign * cos theta)%R).
    { intros sign. cbv [vecmat linalg_inv rot_matrix fst snd]. rewrite rot_det. field. }
    rewrite !Hx, !Hy. split.
    + replace (1 * - sin theta)%R with (- sin theta)%R by ring.
      replace (1 * cos theta)%R with (cos theta) by ring.
      rewrite Rabs_Ropp.
      destruct (Rlt_dec (Rabs (cos theta)) (Rabs (sin theta))) as [Hlt | _]; [lra |].
      destruct (Rlt_dec 0 (cos theta)) as [_ | Hn]; [reflexivity | lra].
    + replace (-1 * - sin theta)%R with (sin theta) by ring.
      replace (-1 * cos theta)%R with (- cos theta)%R by ring.
      rewrite Rabs_Ropp.
      destruct (Rlt_dec (Rabs (cos theta)) (Rabs (sin theta))) as [Hlt | _]; [lra |].
      destruct (Rlt_dec 0 (- cos theta)) as [Hp | _]; [lra | reflexivity].
Qed.

Lemma cone_dividers_pass_through_the_pivot_witness :
  exists slope_u slope_l intercept_u intercept_l exclude_u exclude_l,
    cone_divider 58 0 0 upper_k = DividerExclusion (slope_u, intercept_u) exclude_u
    /\ cone_divider 58 0 0 lower_k = DividerExclusion (slope_l, intercept_l) exclude_l
    /\ slope_u = tan (0 - 0) /\ slope_l = tan (0 + 0)
    /\ (slope_u * (58 * cos 0) + intercept_u = 58 * sin 0)%R
    /\ (slope_l * (58 * cos 0) + intercept_l = 58 * sin 0)%R
    /\ ((Rabs (sin 0) <= Rabs (cos 0))%R -> (0 < cos 0)%R ->
        exclude_u = "+e1"%string /\ exclude_l = "-e1"%string).
Proof.
  apply (cone_dividers_pass_through_the_pivot 58 0 0).
  - replace (0 - 0)%R with 0%R by ring. rewrite cos_0. lra.
  - replace (0 + 0)%R with 0%R by ring. rewrite cos_0. lra.
Defined.

End ExclusionProps.

(** * Properties of motion_builder/exclusions/base.py *)

Section BaseExclusionProps.
Import BaseExclusion.
Local Open Scope string_scope.

(** An exclusion constructed with [skip_ds_add=True] never touches the
    dataset: construction leaves it as it was, and asking the exclusion
    to regenerate or to update the global mask raises [RuntimeError],
    whatever the dataset holds.  Its mask can still be had: with no
    entry under its name, [is_excluded] answers from a freshly
    generated mask. *)
Theorem detached_exclusion_never_touches_the_dataset {point : Type}
  (self : exclusion_item point) (ds : gmap string (Exclusion.mask point)) :
  skip_ds_add self = true ->
  __init__ self (Ok tt) ds = Returns ds
  /\ regenerate_exclusion self ds = Raises RuntimeError
  /\ update_global_mask self ds = Raises RuntimeError
  /\ forall mspace_ndims nearest coordinates ex,
       ds !! name self = None ->
       _generate_exclusion self = Ok ex ->
       length coordinates = mspace_ndims ->
       is_excluded mspace_ndims nearest self ds coordinates
       = Ok (negb (ex (nearest coordinates))).
Proof.
  intros Hskip. unfold __init__, regenerate_exclusion, update_global_mask.
  rewrite Hskip. refine (conj eq_refl (conj eq_refl (conj eq_refl _))).
  intros n nearest coordinates ex Hnone Hgen <-.
  unfold is_excluded, exclusion, item. rewrite Nat.eqb_refl, Hnone, Hgen. reflexivity.
Qed.
Lemma detached_exclusion_never_touches_the_dataset_witness :
  __init__ (ExclusionItem "mask_ex1" "mask" true (Ok (fun _ : nat => true))) (Ok tt) ∅
  = Returns ∅
  /\ regenerate_exclusion
       (ExclusionItem "mask_ex1" "mask" true (Ok (fun _ : nat => true))) ∅
     = Raises RuntimeError
  /\ update_global_mask
       (ExclusionItem "mask_ex1" "mask" true (Ok (fun _ : nat => true))) ∅
     = Raises RuntimeError
  /\ forall mspace_ndims nearest coordinates ex,
       (∅ : gmap string (Exclusion.mask nat)) !! "mask_ex1" = None ->
       Ok (fun _ : nat => true) = Ok ex ->
       length coordinates = mspace_ndims ->
       is_excluded mspace_ndims nearest
         (ExclusionItem "mask_ex1" "mask" true (Ok (fun _ : nat => true))) ∅ coordinates
       = Ok (negb (ex (nearest coordinates))).
Proof.
  apply (detached_exclusion_never_touches_the_dataset
           (ExclusionItem "mask_ex1" "mask" true (Ok (fun _ : nat => true))) ∅).
  reflexivity.
Defined.

(** An exclusion constructed on a dataset stores its mask under its
    name and replaces the global mask by the conjunction of the old
    global mask and its own, leaving every other entry alone: the
    global mask only ever loses points.  Updating the global mask once
    more changes no point of it, and [is_excluded] is the negation of
    the stored mask at the nearest grid point, a point of the wrong
    dimension being a [ValueError]. *)
Theorem construction_only_removes_points_from_the_global_mask {point : Type}
  (self : exclusion_item point) (ds : gmap string (Exclusion.mask point))
  (gm ex : Exclusion.mask point) :
  skip_ds_add self = false ->
  name self <> mask_name self ->
  ds !! mask_name self = Some gm ->
  _generate_exclusion self = Ok ex ->
  exists ds' gm',
    __init__ self (Ok tt) ds = Returns ds'
    /\ ds' !! name self = Some ex
    /\ ds' !! mask_name self = Some gm'
    /\ (forall p, gm' p = gm p && ex p)
    /\ (forall k, k <> name self -> k <> mask_name self -> ds' !! k = ds !! k)
    /\ (exists ds'' gm'',
          update_global_mask self ds' = Returns ds''
          /\ ds'' !! mask_name self = Some gm''
          /\ forall p, gm'' p = gm' p)
    /\ forall mspace_ndims nearest coordinates,
         is_excluded mspace_ndims nearest self ds' coordinates
         = if Nat.eqb (length coordinates) mspace_ndims
           then Ok (negb (ex (nearest coordinates)))
           else Raise ValueError.
Proof.
  intros Hskip Hne Hgm Hgen.
  unfold __init__, regenerate_exclusion, update_global_mask. rewrite Hskip, Hgen.
  assert (Hgm1 : global_mask self (<[name self := ex]> ds) = Ok gm).
  { unfold global_mask. rewrite lookup_insert_ne by exact Hne. now rewrite Hgm. }
  assert (Hex1 : exclusion self (<[name self := ex]> ds) = Ok ex).
  { unfold exclusion, item. now rewrite lookup_insert_eq. }
  rewrite Hgm1, Hex1.
  set (ds' := <[mask_name self := Exclusion.logical_and gm ex]> (<[name self := ex]> ds)).
  assert (Hname : ds' !! name self = Some ex).
  { subst ds'. rewrite lookup_insert_ne by congruence. apply lookup_insert_eq. }
  assert (Hmask : ds' !! mask_name self = Some (Exclusion.logical_and gm ex)).
  { subst ds'. apply lookup_insert_eq. }
  exists ds', (Exclusion.logical_and gm ex).
  refine (conj eq_refl (conj Hname (conj Hmask (conj (fun p => eq_refl) (conj _ (conj _ _)))))).
  - intros k Hk1 Hk2. subst ds'. now rewrite !lookup_insert_ne by congruence.
  - unfold global_mask, exclusion, item. rewrite Hmask, Hname.
    eexists. eexists. split; [reflexivity |]. split; [apply lookup_insert_eq |].
    intros p. unfold Exclusion.logical_and.
    destruct (gm p), (ex p); reflexivity.
  - intros n nearest coordinates. unfold is_excluded, exclusion, item. rewrite Hname.
    destruct (Nat.eqb (length coordinates) n); reflexivity.
Qed.

Lemma construction_only_removes_points_from_the_global_mask_witness :
  exists ds' gm',
    __init__ (ExclusionItem "mask_ex1" "mask" false (Ok (Nat.leb 2))) (Ok tt)
      (<["mask" := Nat.leb 1]> ∅) = Returns ds'
    /\ ds' !! "mask_ex1" = Some (Nat.leb 2)
    /\ ds' !! "mask" = Some gm'
    /\ (forall p, gm' p = Nat.leb 1 p && Nat.leb 2 p)
    /\ (forall k, k <> "mask_ex1" -> k <> "mask" ->
          ds' !! k = (<["mask" := Nat.leb 1]> ∅ : gmap string (Exclusion.mask nat)) !! k)
    /\ (exists ds'' gm'',
          update_global_mask (ExclusionItem "mask_ex1" "mask" false (Ok (Nat.leb 2))) ds'
          = Returns ds''
          /\ ds'' !! "mask" = Some gm''
          /\ forall p, gm'' p = gm' p)
    /\ forall mspace_ndims nearest coordinates,
         is_excluded mspace_ndims nearest
           (ExclusionItem "mask_ex1" "mask" false (Ok (Nat.leb 2))) ds' coordinates
         = if Nat.eqb (length coordinates) mspace_ndims
           then Ok (negb (Nat.leb 2 (nearest coordinates)))
           else Raise ValueError.
Proof.
  apply (construction_only_removes_points_from_the_global_mask
           (ExclusionItem "mask_ex1" "mask" false (Ok (Nat.leb 2)))
           (<["mask" := Nat.leb 1]> ∅) (Nat.leb 1) (Nat.leb 2)).
  - reflexivity.
  - discriminate.
  - apply lookup_insert_eq.
  - reflexivity.
Defined.

End BaseExclusionProps.

(** * Properties of controllers/motor.py *)

Section MotorProps.
Import Motor.
Local Open Scope string_scope.
Local Open Scope list_scope.

(** ** Status updates *)

(** A field is in [changed] when the new status has it and the old one
    lacks it or holds a different value. *)
Lemma changed_fields_lookup (old new : gmap string value) (k : string) (v : value) :
  changed_fields old new !! k = Some v
  <-> new !! k = Some v
      /\ (old !! k = None \/ exists o, old !! k = Some o /\ py_eq o v = false).
Proof.
  unfold changed_fields. rewrite lookup_merge.
  destruct (old !! k) as [o |] eqn:Eo, (new !! k) as [n |] eqn:En; cbn.
  - destruct (py_eq o n) eqn:Eeq; split.
    + discriminate.
    + intros [Hn [Hnone | (o' & Ho & Hne)]]; [discriminate |].
      congruence.
    + intros Hn. split; [exact Hn | right]. exists o. split; congruence.
    + tauto.
  - split; [discriminate | intros [H _]; discriminate].
  - split; [intros H; split; [exact H | now left] | tauto].
  - split; [discriminate | intros [H _]; discriminate].
Qed.

(** [emit] calls the handlers in order and touches nothing else. *)
Lemma call_handlers_trace (hs : list nat) (payload : pyobj) (m : motor) :
  exists m',
    call_handlers hs payload m = (Ok tt, m')
    /\ trace m' = trace m ++ map (fun h => EvCall h payload) hs
    /\ _status m' = _status m /\ handlers m' = handlers m
    /\ max_connection_attempts m' = max_connection_attempts m
    /\ net m' = net m /\ n_connect m' = n_connect m /\ n_send m' = n_send m.
Proof.
  revert m. induction hs as [| h hs IH]; intros m.
  - exists m. cbn. rewrite app_nil_r. repeat split; reflexivity.
  - cbn [call_handlers]. unfold bind, emit_event.
    destruct (IH (add_event (EvCall h payload) m)) as (m' & Hrun & Htr & Hrest).
    exists m'. rewrite Hrun. split; [reflexivity | split; [| exact Hrest]].
    rewrite Htr. cbn. now rewrite <- app_assoc.
Qed.


(** ** Listeners that act *)

Lemma signal_connect_frame (func : nat) (m : motor) :
  let m' := snd (signal_connect func m) in
  trace m' = trace m /\ _status m' = _status m
  /\ max_connection_attempts m' = max_connection_attempts m
  /\ net m' = net m /\ n_connect m' = n_connect m /\ n_send m' = n_send m.
Proof.
  unfold signal_connect. destruct (handler_in func (handlers m)); cbn;
    repeat split; reflexivity.
Qed.

Lemma signal_disconnect_frame (func : nat) (m : motor) :
  let m' := snd (signal_disconnect func m) in
  trace m' = trace m /\ _status m' = _status m
  /\ max_connection_attempts m' = max_connection_attempts m
  /\ net m' = net m /\ n_connect m' = n_connect m /\ n_send m' = n_send m.
Proof.
  unfold signal_disconnect. destruct (list_remove func (handlers m)); cbn;
    repeat split; reflexivity.
Qed.

Lemma list_remove_length (func : nat) (hs hs' : list nat) :
  list_remove func hs = Some hs' -> length hs = S (length hs').
Proof.
  revert hs'. induction hs as [| h hs IH]; intros hs' H; [discriminate |].
  cbn in H. destruct (Nat.eqb func h).
  - injection H as <-. reflexivity.
  - destruct (list_remove func hs) as [t |]; [| discriminate].
    injection H as <-. cbn. now rewrite (IH t eq_refl).
Qed.

Lemma signal_disconnect_length (func : nat) (m : motor) :
  (length (handlers (snd (signal_disconnect func m))) <= length (handlers m))%nat.
Proof.
  unfold signal_disconnect.
  destruct (list_remove func (handlers m)) as [hs |] eqn:E; cbn; [| lia].
  rewrite (list_remove_length _ _ _ E). lia.
Qed.

(** Whatever the handlers do, the loop of [emit] adds calls of handlers
    with the payload to the trace and nothing else, and leaves the
    status, the settings and the socket alone. *)
Lemma emit_loop_run (behaviour : nat -> handler_effect) (payload : pyobj) (fuel : nat) :
  forall (position : nat) (m : motor) (r : res unit) (m' : motor),
    emit_loop behaviour payload fuel position m = Some (r, m') ->
    exists calls,
      trace m' = trace m ++ calls
      /\ Forall (fun ev => exists h, ev = EvCall h payload) calls
      /\ _status m' = _status m
      /\ max_connection_attempts m' = max_connection_attempts m
      /\ net m' = net m /\ n_connect m' = n_connect m /\ n_send m' = n_send m.
Proof.
  induction fuel as [| fuel IH]; intros position m r m' Hrun; [discriminate |].
  cbn [emit_loop] in Hrun.
  destruct (nth_error (handlers m) position) as [h |].
  - assert (Hstep : forall m1,
              trace m1 = trace m ++ [EvCall h payload] ->
              _status m1 = _status m ->
              max_connection_attempts m1 = max_connection_attempts m ->
              net m1 = net m -> n_connect m1 = n_connect m -> n_send m1 = n_send m ->
              emit_loop behaviour payload fuel (S position) m1 = Some (r, m') ->
              exists calls,
                trace m' = trace m ++ calls
                /\ Forall (fun ev => exists h, ev = EvCall h payload) calls
                /\ _status m' = _status m
                /\ max_connection_attempts m' = max_connection_attempts m
                /\ net m' = net m /\ n_connect m' = n_connect m /\ n_send m' = n_send m).
    { intros m1 Htr Hst Hmax Hnet Hnc Hns Hrest.
      destruct (IH _ _ _ _ Hrest) as (calls & Htr' & Hcalls & Hst' & Hmax' & Hnet' & Hnc' & Hns').
      exists (EvCall h payload :: calls).
      rewrite Htr', Htr, <- app_assoc.
      repeat split; try congruence.
      constructor; [now exists h | exact Hcalls]. }
    cbv zeta in Hrun.
    destruct (behaviour h) as [| e | func | func].
    + exact (Hstep (add_event (EvCall h payload) m)
               eq_refl eq_refl eq_refl eq_refl eq_refl eq_refl Hrun).
    + injection Hrun as <- <-. exists [EvCall h payload].
      repeat split; try reflexivity.
      constructor; [now exists h | constructor].
    + destruct (signal_connect_frame func (add_event (EvCall h payload) m))
        as (H1 & H2 & H3 & H4 & H5 & H6).
      exact (Hstep _ H1 H2 H3 H4 H5 H6 Hrun).
    + destruct (signal_disconnect_frame func (add_event (EvCall h payload) m))
        as (H1 & H2 & H3 & H4 & H5 & H6).
      exact (Hstep _ H1 H2 H3 H4 H5 H6 Hrun).
  - injection Hrun as <- <-. exists []. rewrite app_nil_r.
    repeat split; try reflexivity. constructor.
Qed.

(** Handlers that connect nothing cannot make the list grow: the loop
    ends within one turn per handler and one more. *)
Lemma emit_loop_ends (behaviour : nat -> handler_effect) (payload : pyobj) :
  (forall h func, behaviour h <> HConnects func) ->
  forall (fuel position : nat) (m : motor),
    (length (handlers m) - position < fuel)%nat ->
    exists r m', emit_loop behaviour payload fuel position m = Some (r, m').
Proof.
  intros Hnc. induction fuel as [| fuel IH]; intros position m Hfuel; [lia |].
  cbn [emit_loop].
  destruct (nth_error (handlers m) position) as [h |] eqn:Eh; [| now eexists _, _].
  assert (Hpos : (position < length (handlers m))%nat).
  { apply nth_error_Some. congruence. }
  cbv zeta. destruct (behaviour h) as [| e | func | func] eqn:Eb.
  - apply IH. cbn [handlers add_event]. lia.
  - now eexists _, _.
  - destruct (Hnc h func Eb).
  - apply IH.
    pose proof (signal_disconnect_length func (add_event (EvCall h payload) m)) as Hlen.
    cbn [handlers add_event] in Hlen |- *. lia.
Qed.

Lemma skipn_nth_error (hs : list nat) :
  forall (position : nat),
    skipn position hs
    = match nth_error hs position with
      | Some h => h :: skipn (S position) hs
      | None => []
      end.
Proof.
  induction hs as [| h hs IH]; intros [| position]; try reflexivity.
  cbn [skipn nth_error]. rewrite IH.
  destruct (nth_error hs position); reflexivity.
Qed.

(** With handlers that return, the loop is [call_handlers]. *)
Lemma emit_loop_returning (behaviour : nat -> handler_effect) (payload : pyobj) :
  forall (fuel position : nat) (m : motor),
    (forall h, In h (handlers m) -> behaviour h = HReturns) ->
    (length (handlers m) - position < fuel)%nat ->
    emit_loop behaviour payload fuel position m
    = Some (call_handlers (skipn position (handlers m)) payload m).
Proof.
  induction fuel as [| fuel IH]; intros position m Hret Hfuel; [lia |].
  cbn [emit_loop]. rewrite (skipn_nth_error (handlers m) position).
  destruct (nth_error (handlers m) position) as [h |] eqn:Eh; [| reflexivity].
  assert (Hpos : (position < length (handlers m))%nat).
  { apply nth_error_Some. congruence. }
  cbv zeta. rewrite (Hret h (nth_error_In _ _ Eh)).
  rewrite IH.
  - reflexivity.
  - exact Hret.
  - cbn [handlers add_event]. lia.
Qed.

(** [update_status_with] is [update_status] when every connected
    handler returns. *)
Lemma update_status_with_returning (behaviour : nat -> handler_effect) (fuel : nat)
  (values : gmap string value) (m : motor) :
  (forall h, In h (handlers m) -> behaviour h = HReturns) ->
  (length (handlers m) < fuel)%nat ->
  update_status_with behaviour fuel values m = Some (update_status values m).
Proof.
  intros Hret Hfuel.
  unfold update_status_with, update_status, bind, get_status.
  destruct (decide (changed_fields (_status m) (values ∪ _status m) = ∅)) as [He | Hne].
  - reflexivity.
  - unfold emit_with, log, emit, emit_event, bind.
    rewrite emit_loop_returning; [| exact Hret | cbn [handlers add_event]; lia].
    rewrite skipn_O.
    change (handlers (add_event (EvEmit (PVal (VBool true)))
                        (add_event (EvLog Debug) m))) with (handlers m).
    destruct (call_handlers_trace (handlers m) (PVal (VBool true))
                (add_event (EvEmit (PVal (VBool true))) (add_event (EvLog Debug) m)))
      as (m1 & Hrun & _).
    rewrite Hrun. reflexivity.
Qed.

(** What one status update does, whatever its listeners do. *)
Lemma update_status_with_run (behaviour : nat -> handler_effect) (fuel : nat)
  (values : gmap string value) (m : motor) :
  let old_status := _status m in
  let new_status := values ∪ old_status in
  let changed := changed_fields old_status new_status in
  (changed = ∅ ->
   update_status_with behaviour fuel values m = Some (Ok tt, with_status new_status m))
  /\ (changed <> ∅ ->
      forall r m',
        update_status_with behaviour fuel values m = Some (r, m') ->
        exists calls,
          trace m' = trace m ++ [EvLog Debug; EvEmit (PVal (VBool true))] ++ calls
          /\ Forall (fun ev => exists h, ev = EvCall h (PVal (VBool true))) calls
          /\ _status m' = (if is_ok r then new_status else old_status)).
Proof.
  intros old_status new_status changed. unfold update_status_with.
  fold old_status new_status changed.
  destruct (decide (changed = ∅)) as [He | Hne].
  - split; [reflexivity | contradiction].
  - split; [contradiction |]. intros _ r m' Hrun.
    unfold emit_with in Hrun.
    destruct (emit_loop behaviour (PVal (VBool true)) fuel 0
                (add_event (EvEmit (PVal (VBool true))) (add_event (EvLog Debug) m)))
      as [[[[] | e] m1] |] eqn:Eloop; [| | discriminate].
    + injection Hrun as <- <-.
      destruct (emit_loop_run _ _ _ _ _ _ _ Eloop) as (calls & Htr & Hcalls & _).
      exists calls. cbn [trace add_event with_status _status is_ok] in *.
      rewrite Htr, <- !app_assoc. repeat split; try reflexivity; exact Hcalls.
    + injection Hrun as <- <-.
      destruct (emit_loop_run _ _ _ _ _ _ _ Eloop) as (calls & Htr & Hcalls & Hst & _).
      exists calls. cbn [trace add_event _status is_ok] in *.
      rewrite Htr, <- !app_assoc. repeat split; try reflexivity; assumption.
Qed.

(** Claim C8, amended.  Every status update compares the merged new
    status with the previous one, field by field (a field is changed
    when it is new or its value differs under Python's [!=]).  If no
    field changed, nothing is emitted and the status is stored.  If at
    least one changed, the signal is emitted exactly once, and its
    payload, which is all a listener is ever called with, is the
    constant [True], not the changed fields.  This holds whatever the
    listeners do when called (return, raise, connect or disconnect):
    the update ends unless listeners keep connecting new ones, the new
    status is stored when the listeners have returned and is not when
    one of them raises, and with listeners that return the update is
    that of [update_status]. *)
Theorem update_status_emits_true_once (behaviour : nat -> handler_effect)
  (fuel : nat) (values : gmap string value) (m : motor) :
  let old_status := _status m in
  let new_status := values ∪ old_status in
  let changed := changed_fields old_status new_status in
  (forall k v, changed !! k = Some v
               <-> new_status !! k = Some v
                   /\ (old_status !! k = None
                       \/ exists o, old_status !! k = Some o /\ py_eq o v = false))
  /\ (changed = ∅ ->
      exists m',
        update_status_with behaviour fuel values m = Some (Ok tt, m')
        /\ trace m' = trace m /\ _status m' = new_status)
  /\ (changed <> ∅ ->
      forall r m',
        update_status_with behaviour fuel values m = Some (r, m') ->
        exists calls,
          trace m' = trace m ++ [EvLog Debug; EvEmit (PVal (VBool true))] ++ calls
          /\ Forall (fun ev => exists h, ev = EvCall h (PVal (VBool true))) calls
          /\ _status m' = (if is_ok r then new_status else old_status))
  /\ ((forall h func, behaviour h <> HConnects func) ->
      (length (handlers m) < fuel)%nat ->
      exists r m', update_status_with behaviour fuel values m = Some (r, m'))
  /\ ((forall h, In h (handlers m) -> behaviour h = HReturns) ->
      (length (handlers m) < fuel)%nat ->
      update_status_with behaviour fuel values m = Some (update_status values m)).
Proof.
  intros old_status new_status changed.
  destruct (update_status_with_run behaviour fuel values m) as [Hsame Hdiff].
  fold old_status new_status changed in Hsame, Hdiff.
  split; [intros k v; apply changed_fields_lookup |].
  split.
  { intros He. exists (with_status new_status m).
    split; [exact (Hsame He) | split; reflexivity]. }
  split; [exact Hdiff |].
  split; [| apply update_status_with_returning].
  intros Hnc Hfuel. unfold update_status_with. fold old_status new_status changed.
  destruct (decide (changed = ∅)); [now eexists _, _ |].
  unfold emit_with.
  destruct (emit_loop_ends behaviour (PVal (VBool true)) Hnc fuel 0
              (add_event (EvEmit (PVal (VBool true))) (add_event (EvLog Debug) m)))
    as ([[] | e] & m1 & Hrun).
  - cbn [handlers add_event]. lia.
  - rewrite Hrun. now eexists _, _.
  - rewrite Hrun. now eexists _, _.
Qed.

(** The first [update_status(connected=True)] with two listeners, the
    first of which disconnects itself when called: the one event goes
    out with [True], the second listener moves into the place the loop
    has passed and is not called, and the status is stored. *)
Lemma update_status_emits_true_once_witness :
  let behaviour := fun h : nat => if Nat.eqb h 7 then HDisconnects 7 else HReturns in
  exists m',
    update_status_with behaviour 3 {[ "connected" := VBool true ]}
      (initial (quiet []) [7%nat; 9%nat])
    = Some (Ok tt, m')
    /\ trace m'
       = [EvLog Debug; EvEmit (PVal (VBool true)); EvCall 7 (PVal (VBool true))]
    /\ handlers m' = [9%nat]
    /\ _status m' = {[ "connected" := VBool true ]} ∪ _default_status.
Proof.
  intros behaviour.
  pose proof (update_status_emits_true_once behaviour 3 {[ "connected" := VBool true ]}
                (initial (quiet []) [7%nat; 9%nat])) as (_ & _ & Hdiff & _).
  cbv zeta in Hdiff.
  eexists. split; [now vm_compute |].
  split; [reflexivity |]. split; [reflexivity |].
  match goal with
  | |- _status ?m' = _ =>
      destruct (Hdiff ltac:(intros Hempty;
                            apply (f_equal (fun d : gmap string value => d !! "connected"))
                              in Hempty;
                            vm_compute in Hempty; discriminate Hempty)
                  (Ok tt) m' ltac:(now vm_compute))
        as (calls & _ & _ & Hst)
  end.
  exact Hst.
Defined.

(** Claim C8 as stated fails on the payload: the first
    [update_status(connected=True)] changes exactly the field
    [connected], and the handler is called with [True], never with the
    changed fields. *)
Lemma update_status_payload_is_not_the_changed_fields :
  let m := initial (quiet []) [7%nat] in
  let values : gmap string value := {[ "connected" := VBool true ]} in
  let changed := changed_fields (_status m) (values ∪ _status m) in
  changed = {[ "connected" := VBool true ]}
  /\ exists m',
       update_status values m = (Ok tt, m')
       /\ trace m' = [EvLog Debug; EvEmit (PVal (VBool true)); EvCall 7 (PVal (VBool true))]
       /\ ~ In (EvEmit (PDict changed)) (trace m')
       /\ ~ In (EvCall 7 (PDict changed)) (trace m').
Proof.
  cbv zeta. split; [now vm_compute |].
  eexists. split; [now vm_compute |]. cbn [trace].
  split; [reflexivity |].
  split; intros [H | [H | [H | []]]]; discriminate.
Qed.

(** ** Counting what a run does *)

Lemma count_app (p : event -> bool) (a b : list event) :
  count p (a ++ b) = (count p a + count p b)%nat.
Proof. unfold count. now rewrite List.filter_app, length_app. Qed.


Lemma count_repeat_recv (k : nat) :
  count is_connect (repeat EvRecv k) = 0%nat
  /\ count is_send (repeat EvRecv k) = 0%nat.
Proof. unfold count. induction k as [| k [IH1 IH2]]; cbn; auto. Qed.


Lemma after_trans (m m1 m2 : motor) (e1 e2 : list event) :
  after m e1 m1 -> after m1 e2 m2 -> after m (e1 ++ e2) m2.
Proof.
  intros (Ht & Hh & Hm & Hc & Hs & Hnc & Hns) (Ht' & Hh' & Hm' & Hc' & Hs' & Hnc' & Hns').
  unfold after. rewrite !count_app.
  repeat split; try congruence; try lia.
  now rewrite Ht', Ht, app_assoc.
Qed.

Lemma after_log (m : motor) (lvl : loglevel) : after m [EvLog lvl] (add_event (EvLog lvl) m).
Proof. unfold after. cbn. repeat split; lia. Qed.


Lemma socket_connect_run (m : motor) :
  exists m',
    socket_connect m
    = (match connect_outcome (net m) (n_connect m) with
       | None => Ok tt
       | Some e => Raise e
       end, m')
    /\ after m [EvConnect] m'.
Proof.
  unfold socket_connect. eexists. split.
  - destruct (connect_outcome (net m) (n_connect m)); reflexivity.
  - unfold after. cbn. repeat split; lia.
Qed.

Lemma socket_send_run (data : string) (m : motor) :
  exists m',
    socket_send data m
    = (match send_outcome (net m) (n_send m) with
       | None => Ok tt
       | Some e => Raise e
       end, m')
    /\ after m [EvSend data] m'.
Proof.
  unfold socket_send. eexists. split.
  - destruct (send_outcome (net m) (n_send m)); reflexivity.
  - unfold after. cbn. repeat split; lia.
Qed.

Lemma recv_run (m : motor) :
  exists r m' k, recv m = (r, m') /\ after m (repeat EvRecv k) m'.
Proof.
  unfold recv. destruct (recv_loop (recv_script (net m)) "") as [[r rest] calls].
  exists r. eexists. exists calls. split; [reflexivity |].
  destruct (count_repeat_recv calls) as [H1 H2].
  unfold after. rewrite H1, H2. cbn. repeat split; lia.
Qed.

(** ** Reconnecting *)

Ltac run_monad :=
  cbv beta iota delta [bind try_except log emit_event ret raise socket_connect
                       socket_send lift].

Ltac solve_after :=
  unfold after, count, add_event; cbn;
  repeat split; try reflexivity; try lia;
  try (rewrite <- ?app_assoc; reflexivity).


(** ** Sending a command *)

Lemma no_send_in (evs : list event) (P : event -> Prop) :
  count is_send evs = 0%nat -> Forall (fun ev => is_send ev = true -> P ev) evs.
Proof.
  unfold count. induction evs as [| ev evs IH]; intros Hc; constructor.
  - intros Hs. cbn in Hc. rewrite Hs in Hc. discriminate.
  - apply IH. cbn in Hc. destruct (is_send ev); [discriminate | exact Hc].
Qed.

(** A [send] that fails for another reason (a timeout, say) is not
    followed by a reconnect: its exception goes to the caller. *)
Lemma send_failure_of_other_kind_propagates (cmd : string) (m : motor) (e : exn) :
  send_outcome (net m) (n_send m) = Some e ->
  is_ConnectionError e = false ->
  exists m',
    _send_raw_command cmd m = (Raise e, m')
    /\ after m [EvSend (_header ++ cmd ++ _eom)%string] m'.
Proof.
  intros Hout Hce. unfold _send_raw_command. run_monad.
  rewrite Hout. cbv beta iota zeta. rewrite Hce.
  eexists. split; [reflexivity | solve_after].
Qed.

(** Nor is a failure while the reply is read: after a successful [send]
    the command only reads, and what [recv] returns or raises is the
    outcome; no connection is attempted. *)
Lemma recv_failure_propagates (cmd : string) (m : motor) :
  send_outcome (net m) (n_send m) = None ->
  exists r m' k,
    _send_raw_command cmd m = (r, m')
    /\ after m (EvSend (_header ++ cmd ++ _eom)%string :: repeat EvRecv k) m'.
Proof.
  intros Hout. unfold _send_raw_command. run_monad.
  rewrite Hout. cbv beta iota zeta.
  match goal with
  | |- context [recv ?st] =>
      assert (Hst : after m [EvSend (_header ++ cmd ++ _eom)%string] st) by solve_after;
      destruct (recv_run st) as (r & m' & k & Hrun & Haft)
  end.
  rewrite Hrun. exists r, m', k. split; [reflexivity |].
  exact (after_trans _ _ _ _ _ Hst Haft).
Qed.

(** ** Decoding the status letters *)

(** No letter clears the alarm flag, and A sets it. *)
Lemma decode_letter_keeps_alarm (st : gmap string value) (c : ascii) :
  st !! "alarm" = Some (VBool true) ->
  decode_letter st c !! "alarm" = Some (VBool true).
Proof.
  intros Hst. unfold decode_letter.
  repeat match goal with
         | |- context [if ?b then _ else _] => destruct b
         end;
    try exact Hst; try apply lookup_insert_eq;
    (rewrite lookup_insert_ne by discriminate; exact Hst).
Qed.

Lemma decode_letters_keep_alarm (letters : list ascii) (st : gmap string value) :
  st !! "alarm" = Some (VBool true) ->
  fold_left decode_letter letters st !! "alarm" = Some (VBool true).
Proof.
  revert st. induction letters as [| c letters IH]; intros st Hst; [exact Hst |].
  cbn [fold_left]. apply IH. now apply decode_letter_keeps_alarm.
Qed.

Lemma decode_letters_alarm (letters : list ascii) (st : gmap string value) :
  In "A"%char letters ->
  fold_left decode_letter letters st !! "alarm" = Some (VBool true).
Proof.
  revert st. induction letters as [| c letters IH]; intros st Hin; [destruct Hin |].
  cbn [fold_left]. destruct Hin as [-> | Hin].
  - apply decode_letters_keep_alarm. unfold decode_letter. cbn.
    apply lookup_insert_eq.
  - now apply IH.
Qed.

Lemma decode_status_alarm (_rtn : string) :
  In "A"%char (list_ascii_of_string _rtn) ->
  decode_status _rtn !! "alarm" = Some (VBool true).
Proof. apply decode_letters_alarm. Qed.

(** The decoding of "RPF": the null status with [enabled] (R),
    [in_position] (P) and [moving] (F) set. *)
Lemma decode_RPF :
  decode_status "RPF"
  = <[ "moving" := VBool true ]>
      (<[ "in_position" := VBool true ]>
         (<[ "enabled" := VBool true ]> null_status)).
Proof. reflexivity. Qed.

(** Written out: the ten flags. *)
Lemma decode_RPF_flags :
  decode_status "RPF"
  = list_to_map [
      ("alarm", VBool false); ("enabled", VBool true); ("fault", VBool false);
      ("moving", VBool true); ("homing", VBool false); ("jogging", VBool false);
      ("motion_in_progress", VBool false); ("in_position", VBool true);
      ("stopping", VBool false); ("waiting", VBool false) ].
Proof.
  rewrite decode_RPF. unfold null_status.
  apply map_eq. intros k.
  repeat (cbn [list_to_map foldr fst snd uncurry];
          rewrite ?lookup_insert;
          repeat match goal with
                 | |- context [decide (?a = k)] =>
                     destruct (decide (a = k)) as [<- | ?]; [reflexivity |]
                 end).
  reflexivity.
Qed.

(** Claim C4 as stated fails on "RPF": F sets [moving] and P sets
    [in_position]. *)
Lemma decode_RPF_is_moving_and_in_position :
  decode_status "RPF" !! "moving" = Some (VBool true)
  /\ decode_status "RPF" !! "in_position" = Some (VBool true)
  /\ decode_status "RPF" !! "moving" <> Some (VBool false).
Proof.
  rewrite decode_RPF. split; [| split].
  - apply lookup_insert_eq.
  - rewrite lookup_insert_ne by discriminate. apply lookup_insert_eq.
  - rewrite lookup_insert_eq. discriminate.
Qed.

(** Claim C4, amended.  Decoding "RPF" yields [enabled], [moving] and
    [in_position] true and every other flag false.  For every status
    string containing the letter A, once the status, the position and
    the alarm code have been read, [retrieve_motor_status] is one
    [update_status] that carries the decoded flags, the position and
    the alarm message built from the code. *)
Theorem status_decode_and_alarm_lookup :
  decode_status "RPF"
  = list_to_map [
      ("alarm", VBool false); ("enabled", VBool true); ("fault", VBool false);
      ("moving", VBool true); ("homing", VBool false); ("jogging", VBool false);
      ("motion_in_progress", VBool false); ("in_position", VBool true);
      ("stopping", VBool false); ("waiting", VBool false) ]
  /\ forall (m : motor) (_rtn : string) (pos : value) (code : string),
       let r1 := send_command "request_status" [] m in
       let r2 := send_command "get_position" [] (snd r1) in
       let r3 := send_command "alarm" [] (snd r2) in
       let alarm_message := alarm_message_of code in
       fst r1 = Ok (VStr _rtn) ->
       fst r2 = Ok pos ->
       fst r3 = Ok (VStr code) ->
       In "A"%char (list_ascii_of_string _rtn) ->
       retrieve_motor_status m
       = update_status
           (<[ "alarm_message" := VStr alarm_message ]>
              (<[ "position" := pos ]> (decode_status _rtn)))
           (if nonempty alarm_message then add_event (EvLog Error) (snd r3)
            else snd r3).
Proof.
  split; [exact decode_RPF_flags |].
  intros m _rtn pos code r1 r2 r3 alarm_message H1 H2 H3 HA.
  unfold retrieve_motor_status, retrieve_motor_alarm.
  unfold bind at 1. fold r1. destruct r1 as [v1 m1]. cbn [fst snd] in *. subst v1.
  unfold bind at 1. fold r2. destruct r2 as [v2 m2]. cbn [fst snd] in *. subst v2.
  cbn [as_string].
  destruct (decide (<[ "position" := pos ]> (decode_status _rtn) !! "alarm"
                    = Some (VBool true))) as [_ | Hno].
  - unfold bind at 1. unfold bind at 1. unfold bind at 1.
    fold r3. destruct r3 as [v3 m3]. cbn [fst snd] in *. subst v3.
    cbn [as_string]. fold alarm_message.
    destruct (nonempty alarm_message); cbn [negb andb];
      unfold bind, log, emit_event, ret; reflexivity.
  - exfalso. apply Hno. rewrite lookup_insert_ne by discriminate.
    now apply decode_status_alarm.
Qed.

(** A motor that answers "ARP", position -1500 and alarm code 0014. *)
Lemma status_decode_and_alarm_lookup_witness :
  let m := connected (quiet [Ok (frame "RS=ARP"); Ok (frame "IP=-1500");
                           Ok (frame "AL=0014")]) [7%nat] in
  exists m',
    retrieve_motor_status m = (Ok tt, m')
    /\ _status m' !! "alarm_message"
       = Some (VStr "0010 - internal voltage [Drive Fault] :: 0004 - CW limit")
    /\ count is_emit (trace m') = 1%nat.
Proof.
  intros m.
  destruct status_decode_and_alarm_lookup as [_ Hlookup].
  rewrite (Hlookup m "ARP" (VInt (-1500)) "0014");
    [| now vm_compute | now vm_compute | now vm_compute | cbn; auto].
  eexists. split; [now vm_compute |]. split; now vm_compute.
Defined.

(** ** The signal *)

Lemma handler_in_In (f : nat) (hs : list nat) : handler_in f hs = true <-> In f hs.
Proof.
  unfold handler_in. rewrite existsb_exists. split.
  - intros (g & Hg & Heq). apply Nat.eqb_eq in Heq. now subst.
  - intros Hf. exists f. split; [exact Hf | apply Nat.eqb_refl].
Qed.

Lemma list_remove_absent (f : nat) (hs : list nat) :
  ~ In f hs -> list_remove f hs = None.
Proof.
  induction hs as [| h hs IH]; intros Hf; [reflexivity |].
  cbn [list_remove]. destruct (Nat.eqb_spec f h) as [-> | Hne].
  - destruct Hf. now left.
  - rewrite IH; [reflexivity |]. intros H. apply Hf. now right.
Qed.

Lemma list_remove_present (f : nat) (hs : list nat) :
  In f hs -> List.NoDup hs ->
  exists hs',
    list_remove f hs = Some hs'
    /\ List.NoDup hs' /\ (forall g, In g hs' <-> g <> f /\ In g hs).
Proof.
  induction hs as [| h hs IH]; intros Hf Hnd; [destruct Hf |].
  inversion Hnd as [| ? ? Hh Hnd']; subst.
  cbn [list_remove]. destruct (Nat.eqb_spec f h) as [-> | Hne].
  - exists hs. split; [reflexivity |]. split; [exact Hnd' |].
    intros g. split.
    + intros Hg. split; [intros -> ; contradiction | now right].
    + intros [Hg [<- | Hin]]; [contradiction | exact Hin].
  - destruct Hf as [-> | Hf]; [contradiction |].
    destruct (IH Hf Hnd') as (hs' & Hrm & Hnd'' & Hin). rewrite Hrm. cbn [option_map].
    exists (h :: hs'). split; [reflexivity |]. split.
    + constructor; [| exact Hnd'']. intros Hh'. apply Hin in Hh'. tauto.
    + intros g. cbn [In]. rewrite Hin. split.
      * intros [<- | [Hg Hgin]]; [split; [congruence | now left] | tauto].
      * intros [Hg [<- | Hgin]]; [now left | right; tauto].
Qed.

Lemma list_remove_last (f : nat) (hs : list nat) :
  ~ In f hs -> list_remove f (hs ++ [f]) = Some hs.
Proof.
  induction hs as [| h hs IH]; intros Hf.
  - cbn. now rewrite Nat.eqb_refl.
  - cbn [app list_remove]. destruct (Nat.eqb_spec f h) as [-> | Hne].
    + destruct Hf. now left.
    + rewrite IH; [reflexivity |]. intros H. apply Hf. now right.
Qed.

(** The handlers of a signal stay distinct.  Connecting a handler makes
    it listed once, whatever was listed before, and connecting it again
    changes nothing; disconnecting removes it and nothing else;
    disconnecting a handler that is not connected changes nothing; and
    connecting a new handler and disconnecting it again restores the
    list.  Neither operation raises or emits. *)
Theorem signal_handlers_stay_distinct (f : nat) (m : motor) :
  List.NoDup (handlers m) ->
  exists m1 m2,
    signal_connect f m = (Ok tt, m1)
    /\ signal_disconnect f m1 = (Ok tt, m2)
    /\ List.NoDup (handlers m1) /\ List.NoDup (handlers m2)
    /\ (forall g, In g (handlers m1) <-> g = f \/ In g (handlers m))
    /\ (forall g, In g (handlers m2) <-> g <> f /\ In g (handlers m))
    /\ signal_connect f m1 = (Ok tt, m1)
    /\ signal_disconnect f m2 = (Ok tt, m2)
    /\ trace m1 = trace m /\ trace m2 = trace m
    /\ _status m1 = _status m /\ _status m2 = _status m
    /\ (~ In f (handlers m) -> m2 = m /\ signal_disconnect f m = (Ok tt, m)).
Proof.
  intros Hnd. destruct m as [st hs mx nw nc ns tr]. cbn [handlers] in Hnd.
  unfold signal_connect, signal_disconnect, set_handlers. cbn [handlers].
  destruct (handler_in f hs) eqn:Hin.
  - apply handler_in_In in Hin.
    destruct (list_remove_present f hs Hin Hnd) as (hs' & Hrm & Hnd' & Hmem).
    eexists. eexists. split; [reflexivity |]. cbn [handlers].
    rewrite Hrm. split; [reflexivity |]. cbn [handlers trace _status].
    assert (Hnot : ~ In f hs') by (intros H; apply Hmem in H; tauto).
    rewrite (proj2 (handler_in_In f hs) Hin), (list_remove_absent f hs' Hnot).
    refine (conj Hnd (conj Hnd' (conj _ (conj Hmem _)))).
    + intros g. split; [now right | intros [-> | H]; assumption].
    + refine (conj eq_refl (conj eq_refl (conj eq_refl (conj eq_refl
               (conj eq_refl (conj eq_refl _)))))).
      intros Hf. contradiction.
  - assert (Hnot : ~ In f hs).
    { intros H. apply handler_in_In in H. congruence. }
    eexists. eexists. split; [reflexivity |]. cbn [handlers].
    rewrite (list_remove_last f hs Hnot). split; [reflexivity |].
    cbn [handlers trace _status].
    assert (Hin' : handler_in f (hs ++ [f]) = true).
    { apply handler_in_In, in_or_app. right. now left. }
    rewrite Hin', (list_remove_absent f hs Hnot).
    refine (conj _ (conj Hnd (conj _ (conj _ _)))).
    + apply List.NoDup_app; [exact Hnd | |].
      * constructor; [intros [] | constructor].
      * intros g Hg [<- | []]. contradiction.
    + intros g. rewrite in_app_iff. cbn [In]. intuition congruence.
    + intros g. split; [intros Hg; split; [intros ->; contradiction | exact Hg] | tauto].
    + refine (conj eq_refl (conj eq_refl (conj eq_refl (conj eq_refl
               (conj eq_refl (conj eq_refl _)))))).
      intros _. split; reflexivity.
Qed.
Lemma signal_handlers_stay_distinct_witness :
  exists m1 m2,
    signal_connect 3 (initial (quiet []) [7; 9]%nat) = (Ok tt, m1)
    /\ signal_disconnect 3 m1 = (Ok tt, m2)
    /\ handlers m1 = [7; 9; 3]%nat /\ handlers m2 = [7; 9]%nat.
Proof.
  assert (Hnd : List.NoDup (handlers (initial (quiet []) [7; 9]%nat))).
  { cbn. constructor; [intros [H | []]; discriminate |].
    constructor; [intros [] | constructor]. }
  destruct (signal_handlers_stay_distinct 3 (initial (quiet []) [7; 9]%nat) Hnd)
    as (m1 & m2 & H1 & H2 & _).
  exists m1, m2. split; [exact H1 |]. split; [exact H2 |].
  cbn in H1. injection H1 as <-. cbn in H2. injection H2 as <-. split; reflexivity.
Defined.

(** ** Repeated status updates *)

Lemma py_eq_refl (v : value) : py_eq v v = true.
Proof.
  destruct v as [| b | z | s]; cbn.
  - reflexivity.
  - now destruct b.
  - apply Z.eqb_refl.
  - apply String.eqb_refl.
Qed.

Lemma changed_fields_same (s : gmap string value) : changed_fields s s = ∅.
Proof.
  apply map_eq. intros k. rewrite lookup_empty.
  destruct (changed_fields s s !! k) as [v |] eqn:E; [| reflexivity].
  apply changed_fields_lookup in E as [Hk [Hnone | (o & Ho & Hne)]].
  - congruence.
  - assert (o = v) by congruence. subst o. rewrite py_eq_refl in Hne. discriminate.
Qed.

Lemma with_status_same (m : motor) (s : gmap string value) :
  _status m = s -> with_status s m = m.
Proof. intros <-. now destruct m. Qed.

(** A status update that returns is idempotent: every given value is
    stored, and the same values given again, whatever the listeners do
    then, change nothing and emit nothing.  An update during which a
    listener raises stores nothing, [self._status] being assigned after
    [emit]: the same values given again find the same change and emit
    it again. *)
Theorem update_status_is_idempotent (behaviour : nat -> handler_effect) (fuel : nat)
  (values : gmap string value) (m m1 : motor) (r : res unit) :
  update_status_with behaviour fuel values m = Some (r, m1) ->
  match r with
  | Ok _ =>
      (forall k v, values !! k = Some v -> _status m1 !! k = Some v)
      /\ forall behaviour' fuel',
           update_status_with behaviour' fuel' values m1 = Some (Ok tt, m1)
  | Raise _ =>
      _status m1 = _status m
      /\ forall behaviour' fuel' r2 m2,
           update_status_with behaviour' fuel' values m1 = Some (r2, m2) ->
           exists calls,
             trace m2 = trace m1 ++ [EvLog Debug; EvEmit (PVal (VBool true))] ++ calls
             /\ Forall (fun ev => exists h, ev = EvCall h (PVal (VBool true))) calls
  end.
Proof.
  intros Hrun.
  destruct (update_status_with_run behaviour fuel values m) as [Hsame Hdiff].
  cbv zeta in Hsame, Hdiff.
  assert (Hst : _status m1 = if is_ok r then values ∪ _status m else _status m).
  { destruct (decide (changed_fields (_status m) (values ∪ _status m) = ∅)) as [He | Hne].
    - rewrite (Hsame He) in Hrun. injection Hrun as <- <-. reflexivity.
    - destruct (Hdiff Hne r m1 Hrun) as (calls & _ & _ & H). exact H. }
  destruct r as [[] | e]; cbn [is_ok] in Hst.
  - split.
    + intros k v Hk. rewrite Hst. now apply lookup_union_Some_l.
    + intros behaviour' fuel'.
      assert (Hfix : values ∪ _status m1 = _status m1).
      { rewrite Hst, (assoc_L (∪)), (idemp_L (∪)). reflexivity. }
      destruct (update_status_with_run behaviour' fuel' values m1) as [Hsame' _].
      cbv zeta in Hsame'. rewrite Hfix in Hsame'.
      rewrite (Hsame' (changed_fields_same _)).
      now rewrite with_status_same.
  - split; [exact Hst |].
    assert (Hne : changed_fields (_status m) (values ∪ _status m) <> ∅).
    { intros He. rewrite (Hsame He) in Hrun. discriminate Hrun. }
    intros behaviour' fuel' r2 m2 Hrun2.
    destruct (update_status_with_run behaviour' fuel' values m1) as [_ Hdiff'].
    cbv zeta in Hdiff'. rewrite Hst in Hdiff'.
    destruct (Hdiff' Hne r2 m2 Hrun2) as (calls & Htr & Hcalls & _).
    exists calls. split; [exact Htr | exact Hcalls].
Qed.

(** A listener that raises once: nothing is stored, and the same update
    emits a second time. *)
Lemma update_status_is_idempotent_witness :
  let raising := fun h : nat => if Nat.eqb h 7 then HRaises OSError else HReturns in
  let values : gmap string value := {[ "connected" := VBool true ]} in
  exists m1 m2,
    update_status_with raising 3 values (initial (quiet []) [7%nat])
    = Some (Raise OSError, m1)
    /\ _status m1 = _default_status
    /\ update_status_with (fun _ => HReturns) 3 values m1 = Some (Ok tt, m2)
    /\ trace m2
       = [EvLog Debug; EvEmit (PVal (VBool true)); EvCall 7 (PVal (VBool true));
          EvLog Debug; EvEmit (PVal (VBool true)); EvCall 7 (PVal (VBool true))].
Proof.
  intros raising values.
  eexists _, _. split; [now vm_compute |].
  match goal with
  | |- _status ?m1 = _ /\ _ =>
      pose proof (update_status_is_idempotent raising 3 values
                    (initial (quiet []) [7%nat]) m1 (Raise OSError)
                    ltac:(now vm_compute)) as [Hst _]
  end.
  split; [exact Hst |].
  split; [now vm_compute | reflexivity].
Defined.

(** ** The letters of the status reply *)

Ltac decode_flag :=
  intros st c; unfold decode_letter;
  repeat match goal with
         | |- context [Ascii.eqb c ?l] =>
             destruct (Ascii.eqb_spec c l) as [-> | ?];
             [cbn [orb]; first [now rewrite lookup_insert_eq
                               | now rewrite lookup_insert_ne by discriminate] |]
         end;
  reflexivity.

Lemma decode_letter_alarm :
  forall st c, decode_letter st c !! "alarm"
               = if Ascii.eqb c "A" then Some (VBool true) else st !! "alarm".
Proof. decode_flag. Qed.

Lemma decode_letter_fault :
  forall st c, decode_letter st c !! "fault"
               = if Ascii.eqb c "E" then Some (VBool true) else st !! "fault".
Proof. decode_flag. Qed.

Lemma decode_letter_moving :
  forall st c, decode_letter st c !! "moving"
               = if Ascii.eqb c "F" then Some (VBool true) else st !! "moving".
Proof. decode_flag. Qed.

Lemma decode_letter_homing :
  forall st c, decode_letter st c !! "homing"
               = if Ascii.eqb c "H" then Some (VBool true) else st !! "homing".
Proof. decode_flag. Qed.

Lemma decode_letter_jogging :
  forall st c, decode_letter st c !! "jogging"
               = if Ascii.eqb c "J" then Some (VBool true) else st !! "jogging".
Proof. decode_flag. Qed.

Lemma decode_letter_motion_in_progress :
  forall st c, decode_letter st c !! "motion_in_progress"
               = if Ascii.eqb c "M" then Some (VBool true)
                 else st !! "motion_in_progress".
Proof. decode_flag. Qed.

Lemma decode_letter_in_position :
  forall st c, decode_letter st c !! "in_position"
               = if Ascii.eqb c "P" then Some (VBool true) else st !! "in_position".
Proof. decode_flag. Qed.

Lemma decode_letter_stopping :
  forall st c, decode_letter st c !! "stopping"
               = if Ascii.eqb c "S" then Some (VBool true) else st !! "stopping".
Proof. decode_flag. Qed.

Lemma decode_letter_waiting :
  forall st c, decode_letter st c !! "waiting"
               = if (Ascii.eqb c "T" || Ascii.eqb c "W")%bool then Some (VBool true)
                 else st !! "waiting".
Proof. decode_flag. Qed.

Lemma decode_letter_enabled :
  forall st c, decode_letter st c !! "enabled"
               = if (Ascii.eqb c "D" || Ascii.eqb c "R")%bool
                 then Some (VBool (Ascii.eqb c "R"))
                 else st !! "enabled".
Proof. decode_flag. Qed.

Lemma decode_letter_other_keys (k : string) :
  ~ In k ["alarm"; "enabled"; "fault"; "moving"; "homing"; "jogging";
          "motion_in_progress"; "in_position"; "stopping"; "waiting"] ->
  forall st c, decode_letter st c !! k = st !! k.
Proof.
  intros Hk st c. unfold decode_letter.
  repeat match goal with
         | |- context [if ?b then _ else _] => destruct b
         end;
    try reflexivity; apply lookup_insert_ne; intros <-; apply Hk; cbn; tauto.
Qed.

(** A flag that a letter can only switch on. *)
Lemma decode_flag_fold (k : string) (trigger : ascii -> bool) :
  (forall st c, decode_letter st c !! k
                = if trigger c then Some (VBool true) else st !! k) ->
  forall letters st,
    fold_left decode_letter letters st !! k
    = if existsb trigger letters then Some (VBool true) else st !! k.
Proof.
  intros Hstep. induction letters as [| c letters IH]; intros st; [reflexivity |].
  cbn [fold_left existsb]. rewrite IH, Hstep.
  destruct (trigger c), (existsb trigger letters); reflexivity.
Qed.

Lemma decode_enabled_fold (letters : list ascii) (st : gmap string value) :
  fold_left decode_letter letters st !! "enabled"
  = match find (fun c => Ascii.eqb c "D" || Ascii.eqb c "R")%bool (rev letters) with
    | Some c => Some (VBool (Ascii.eqb c "R"))
    | None => st !! "enabled"
    end.
Proof.
  induction letters as [| c letters IH] using rev_ind; [reflexivity |].
  rewrite fold_left_app, rev_app_distr. cbn [fold_left rev app find].
  rewrite decode_letter_enabled.
  destruct (Ascii.eqb c "D" || Ascii.eqb c "R")%bool; [reflexivity | exact IH].
Qed.

(** What [retrieve_motor_status] decodes from any reply: each flag is
    set exactly when its letter occurs ([waiting] for T or W);
    [enabled] follows the last of the letters D and R and is [False]
    without one; letters outside the vocabulary change nothing; and no
    other key is written. *)
Theorem decode_status_flags (_rtn : string) :
  let letters := list_ascii_of_string _rtn in
  let has (c : ascii) := existsb (fun l => Ascii.eqb l c) letters in
  decode_status _rtn !! "alarm" = Some (VBool (has "A"%char))
  /\ decode_status _rtn !! "fault" = Some (VBool (has "E"%char))
  /\ decode_status _rtn !! "moving" = Some (VBool (has "F"%char))
  /\ decode_status _rtn !! "homing" = Some (VBool (has "H"%char))
  /\ decode_status _rtn !! "jogging" = Some (VBool (has "J"%char))
  /\ decode_status _rtn !! "motion_in_progress" = Some (VBool (has "M"%char))
  /\ decode_status _rtn !! "in_position" = Some (VBool (has "P"%char))
  /\ decode_status _rtn !! "stopping" = Some (VBool (has "S"%char))
  /\ decode_status _rtn !! "waiting"
     = Some (VBool (has "T"%char || has "W"%char))
  /\ decode_status _rtn !! "enabled"
     = Some (VBool
               match find (fun c => Ascii.eqb c "D" || Ascii.eqb c "R")%bool
                       (rev letters) with
               | Some c => Ascii.eqb c "R"
               | None => false
               end)
  /\ forall k,
       ~ In k ["alarm"; "enabled"; "fault"; "moving"; "homing"; "jogging";
               "motion_in_progress"; "in_position"; "stopping"; "waiting"] ->
       decode_status _rtn !! k = None.
Proof.
  intros letters has. unfold decode_status. fold letters. subst has. cbv beta.
  assert (Hflag : forall k c,
            (forall st l, decode_letter st l !! k
                          = if Ascii.eqb l c then Some (VBool true) else st !! k) ->
            null_status !! k = Some (VBool false) ->
            fold_left decode_letter letters null_status !! k
            = Some (VBool (existsb (fun l => Ascii.eqb l c) letters))).
  { intros k c Hstep Hnull.
    rewrite (decode_flag_fold k (fun l => Ascii.eqb l c) Hstep), Hnull.
    now destruct (existsb _ letters). }
  refine (conj _ (conj _ (conj _ (conj _ (conj _ (conj _ (conj _ (conj _
            (conj _ (conj _ _)))))))))).
  - apply Hflag; [apply decode_letter_alarm | reflexivity].
  - apply Hflag; [apply decode_letter_fault | reflexivity].
  - apply Hflag; [apply decode_letter_moving | reflexivity].
  - apply Hflag; [apply decode_letter_homing | reflexivity].
  - apply Hflag; [apply decode_letter_jogging | reflexivity].
  - apply Hflag; [apply decode_letter_motion_in_progress | reflexivity].
  - apply Hflag; [apply decode_letter_in_position | reflexivity].
  - apply Hflag; [apply decode_letter_stopping | reflexivity].
  - rewrite (decode_flag_fold "waiting"
               (fun l => Ascii.eqb l "T" || Ascii.eqb l "W")%bool
               decode_letter_waiting).
    change (null_status !! "waiting") with (Some (VBool false)).
    assert (Hor : existsb (fun l => Ascii.eqb l "T" || Ascii.eqb l "W")%bool letters
                  = (existsb (fun l => Ascii.eqb l "T") letters
                     || existsb (fun l => Ascii.eqb l "W") letters)%bool).
    { clear. induction letters as [| l letters IH]; [reflexivity |].
      cbn [existsb]. rewrite IH.
      destruct (Ascii.eqb l "T"), (Ascii.eqb l "W"),
        (existsb (fun l => Ascii.eqb l "T") letters),
        (existsb (fun l => Ascii.eqb l "W") letters); reflexivity. }
    rewrite Hor. now destruct (_ || _)%bool.
  - rewrite decode_enabled_fold.
    destruct (find _ (rev letters)); reflexivity.
  - intros k Hk.
    assert (Hfold : forall ls st, fold_left decode_letter ls st !! k = st !! k).
    { induction ls as [| l ls IH]; intros st; [reflexivity |].
      cbn [fold_left]. now rewrite IH, (decode_letter_other_keys k Hk). }
    rewrite Hfold. unfold null_status.
    apply not_elem_of_list_to_map_1. rewrite list_elem_of_In. exact Hk.
Qed.
(** ** What a command leaves of the status *)












(** ** Framing of the replies *)

Lemma partition_cons (sep : string) (c : ascii) (s : string) :
  partition sep (String c s)
  = if String.prefix sep (String c s)
    then Some (""%string, drop (String.length sep) (String c s))
    else match partition sep s with
         | Some (before, after) => Some (String c before, after)
         | None => None
         end.
Proof. reflexivity. Qed.

Lemma prefix_nil (s : string) : String.prefix "" s = true.
Proof. now destruct s. Qed.

Lemma prefix_cons (a b : ascii) (s1 s2 : string) :
  String.prefix (String a s1) (String b s2) = (Ascii.eqb a b && String.prefix s1 s2)%bool.
Proof.
  cbn [String.prefix]. destruct (ascii_dec a b) as [-> | Hne].
  - now rewrite Ascii.eqb_refl.
  - apply Ascii.eqb_neq in Hne. now rewrite Hne.
Qed.

Lemma prefix_eom (c : ascii) (s : string) :
  String.prefix _eom (String c s) = Ascii.eqb (ascii_of_nat 13) c.
Proof. unfold _eom. now rewrite prefix_cons, prefix_nil, andb_true_r. Qed.

Lemma contains_eom_cons (c : ascii) (s : string) :
  contains _eom (String c s) = (Ascii.eqb (ascii_of_nat 13) c || contains _eom s)%bool.
Proof.
  unfold contains. rewrite partition_cons, prefix_eom.
  destruct (Ascii.eqb (ascii_of_nat 13) c); [reflexivity |].
  now destruct (partition _eom s) as [[before after] |].
Qed.

Lemma contains_eom_app (a b : string) :
  contains _eom (a ++ b)%string = (contains _eom a || contains _eom b)%bool.
Proof.
  induction a as [| c a IH]; [reflexivity |].
  change (String c a ++ b)%string with (String c (a ++ b)%string).
  now rewrite !contains_eom_cons, IH, orb_assoc.
Qed.

(** The text before the first carriage return. *)
Lemma split_eom (a b : string) :
  contains _eom a = false ->
  contains _eom (a ++ _eom ++ b)%string = true
  /\ split_0 _eom (a ++ _eom ++ b)%string = a.
Proof.
  intros Ha. split.
  - rewrite !contains_eom_app.
    change (contains _eom _eom) with true. now rewrite orb_true_r.
  - unfold split_0. induction a as [| c a IH].
    { change ("" ++ _eom ++ b)%string with (String (ascii_of_nat 13) b).
      now rewrite partition_cons, prefix_eom, Ascii.eqb_refl. }
    rewrite contains_eom_cons in Ha. apply orb_false_iff in Ha as [Hc Ha].
    change (String c a ++ _eom ++ b)%string with (String c (a ++ _eom ++ b)%string).
    rewrite partition_cons, prefix_eom, Hc.
    specialize (IH Ha).
    destruct (partition _eom (a ++ _eom ++ b)%string) as [[before after] |];
      now rewrite IH.
Qed.

Lemma prefix_header (c : ascii) (s : string) :
  String.prefix _header (String c s)
  = (Ascii.eqb (ascii_of_nat 0) c
     && match s with
        | String d _ => Ascii.eqb (ascii_of_nat 7) d
        | EmptyString => false
        end)%bool.
Proof.
  unfold _header. rewrite prefix_cons. f_equal.
  destruct s as [| d s]; [reflexivity |].
  now rewrite prefix_cons, prefix_nil, andb_true_r.
Qed.

(** Text without a header, followed by a carriage return and anything
    else: up to the next header, it starts with the text and the
    carriage return. *)
Lemma split_header_keeps_text (t trailing : string) :
  contains _header t = false ->
  exists rest,
    split_0 _header (t ++ _eom ++ trailing)%string = (t ++ _eom ++ rest)%string.
Proof.
  unfold contains, split_0. induction t as [| c t IH]; intros Ht.
  - change ("" ++ _eom ++ trailing)%string with (String (ascii_of_nat 13) trailing).
    rewrite partition_cons, prefix_header.
    change (Ascii.eqb (ascii_of_nat 0) (ascii_of_nat 13)) with false. cbn [andb].
    destruct (partition _header trailing) as [[before after] |]; eexists; reflexivity.
  - rewrite partition_cons in Ht.
    destruct (String.prefix _header (String c t)) eqn:Hpre; [discriminate |].
    assert (Ht' : match partition _header t with Some _ => true | None => false end = false).
    { destruct (partition _header t) as [[before after] |]; [discriminate | reflexivity]. }
    destruct (IH Ht') as [rest Hrest].
    change (String c t ++ _eom ++ trailing)%string
      with (String c (t ++ _eom ++ trailing)%string).
    rewrite partition_cons.
    assert (Hpre' : String.prefix _header (String c (t ++ _eom ++ trailing)) = false).
    { rewrite prefix_header in Hpre |- *.
      destruct (Ascii.eqb (ascii_of_nat 0) c); [| reflexivity]. cbn [andb] in *.
      destruct t as [| d t]; [reflexivity | exact Hpre]. }
    rewrite Hpre'. exists rest.
    destruct (partition _header (t ++ _eom ++ trailing)%string) as [[before after] |];
      cbv beta iota in Hrest |- *; rewrite Hrest; reflexivity.
Qed.

Lemma partition_framed (s : string) :
  partition _header (_header ++ s)%string = Some (""%string, s).
Proof.
  change (_header ++ s)%string
    with (String (ascii_of_nat 0) (String (ascii_of_nat 7) s)).
  now rewrite partition_cons, prefix_header.
Qed.

Lemma contains_header_framed (s : string) : contains _header (_header ++ s)%string = true.
Proof. unfold contains. now rewrite partition_framed. Qed.

Lemma split_1_framed (s : string) :
  split_1 _header (_header ++ s)%string = split_0 _header s.
Proof. unfold split_1. now rewrite partition_framed. Qed.

Lemma append_nonempty (a b : string) : a <> ""%string -> String.eqb (a ++ b) "" = false.
Proof. destruct a as [| c a]; [congruence | reflexivity]. Qed.

Lemma string_app_assoc (a b c : string) : ((a ++ b) ++ c = a ++ b ++ c)%string.
Proof.
  induction a as [| x a IH]; [reflexivity |].
  change ((String x a ++ b) ++ c)%string with (String x ((a ++ b) ++ c)%string).
  now rewrite IH.
Qed.

(** The loop, once the message has begun: later chunks are appended
    until one holds a carriage return. *)
Lemma recv_loop_appends (middle : list string) :
  forall (msg tn trailing : string) (rest : list (res string)),
    msg <> ""%string ->
    contains _eom msg = false ->
    Forall (fun t => contains _eom t = false) middle ->
    contains _eom tn = false ->
    recv_loop (map Ok middle ++ Ok (tn ++ _eom ++ trailing)%string :: rest) msg
    = (Ok (msg ++ fold_right String.append "" middle ++ tn)%string, rest,
       S (length middle)).
Proof.
  induction middle as [| t middle IH]; intros msg tn trailing rest Hne Hmsg Hmid Htn.
  - cbn [map app recv_loop fold_right length].
    destruct msg as [| c msg]; [congruence |]. cbn [String.eqb andb].
    destruct (split_eom (String c msg ++ tn) trailing) as [Hc Hs].
    { now rewrite contains_eom_app, Hmsg, Htn. }
    rewrite string_app_assoc in Hc, Hs. now rewrite Hc, Hs.
  - inversion Hmid as [| ? ? Ht Hmid']; subst.
    cbn [map app recv_loop fold_right length].
    destruct msg as [| c msg]; [congruence |]. cbn [String.eqb andb].
    assert (Hnext : contains _eom (String c msg ++ t)%string = false).
    { now rewrite contains_eom_app, Hmsg, Ht. }
    rewrite Hnext.
    rewrite (IH (String c msg ++ t)%string tn trailing rest); try assumption.
    + now rewrite !string_app_assoc.
    + discriminate.
Qed.

(** The first chunk: the message begins behind the header. *)
Lemma recv_loop_first_chunk (t : string) (script : list (res string)) :
  recv_loop (Ok (_header ++ t)%string :: script) ""
  = let msg := split_0 _header t in
    if contains _eom msg then (Ok (split_0 _eom msg), script, 1%nat)
    else let '(r, rest, calls) := recv_loop script msg in (r, rest, S calls).
Proof.
  cbn [recv_loop String.eqb andb].
  now rewrite contains_header_framed, split_1_framed.
Qed.
Lemma contains_header_app (a b : string) :
  contains _header a = true -> contains _header (a ++ b)%string = true.
Proof.
  unfold contains. induction a as [| c a IH]; [discriminate |].
  change (String c a ++ b)%string with (String c (a ++ b)%string).
  rewrite !partition_cons, !prefix_header.
  destruct (Ascii.eqb (ascii_of_nat 0) c); cbn [andb].
  - destruct a as [| d a]; cbn [andb].
    + discriminate.
    + change (String d a ++ b)%string with (String d (a ++ b)%string).
      destruct (Ascii.eqb (ascii_of_nat 7) d); [reflexivity |].
      destruct (partition _header (String d a)) as [[before after] |];
        [| discriminate].
      intros _.
      destruct (partition _header (String d (a ++ b)%string)) as [[before' after'] |] eqn:E;
        [reflexivity |].
      assert (H : match partition _header (String d (a ++ b)%string) with
                  | Some _ => true | None => false end = true) by now apply IH.
      now rewrite E in H.
  - destruct (partition _header a) as [[before after] |]; [| discriminate].
    intros _. specialize (IH eq_refl).
    destruct (partition _header (a ++ b)%string) as [[before' after'] |];
      [reflexivity | discriminate].
Qed.

Lemma split_0_without (sep s : string) : contains sep s = false -> split_0 sep s = s.
Proof.
  unfold contains, split_0.
  destruct (partition sep s) as [[before after] |]; [discriminate | reflexivity].
Qed.

Lemma contains_eom_pieces (middle : list string) :
  contains _eom (fold_right String.append ""%string middle) = false ->
  Forall (fun t => contains _eom t = false) middle.
Proof.
  induction middle as [| t middle IH]; intros H; [constructor |].
  cbn [fold_right] in H. rewrite contains_eom_app in H.
  apply orb_false_iff in H as [Ht Hrest]. constructor; [exact Ht | now apply IH].
Qed.

Lemma recv_single_chunk (t trailing : string) (rest : list (res string)) (m : motor) :
  contains _header t = false -> contains _eom t = false ->
  recv_script (net m) = Ok (_header ++ t ++ _eom ++ trailing)%string :: rest ->
  recv m
  = (Ok t,
     MkMotor (_status m) (handlers m) (max_connection_attempts m)
       (Network (connect_outcome (net m)) (send_outcome (net m)) rest)
       (n_connect m) (n_send m) (trace m ++ [EvRecv])).
Proof.
  intros Hh He Hscript. unfold recv. rewrite Hscript, recv_loop_first_chunk.
  destruct (split_header_keeps_text t trailing Hh) as [rest' Hrest].
  cbv zeta. rewrite Hrest.
  destruct (split_eom t rest' He) as [Hc Hs]. rewrite Hc, Hs. reflexivity.
Qed.

Lemma recv_split_chunks (t1 tn trailing : string) (middle : list string)
  (rest : list (res string)) (m : motor) :
  let t := (t1 ++ fold_right String.append "" middle ++ tn)%string in
  contains _header t = false -> contains _eom t = false ->
  t1 <> ""%string ->
  recv_script (net m)
  = Ok (_header ++ t1)%string
      :: map Ok middle ++ Ok (tn ++ _eom ++ trailing)%string :: rest ->
  recv m
  = (Ok t,
     MkMotor (_status m) (handlers m) (max_connection_attempts m)
       (Network (connect_outcome (net m)) (send_outcome (net m)) rest)
       (n_connect m) (n_send m) (trace m ++ repeat EvRecv (2 + length middle))).
Proof.
  intros t Hh He Hne Hscript. subst t.
  rewrite !contains_eom_app in He.
  apply orb_false_iff in He as [He1 He]. apply orb_false_iff in He as [Hemid Hen].
  assert (Hh1 : contains _header t1 = false).
  { destruct (contains _header t1) eqn:E; [| reflexivity].
    now rewrite (contains_header_app _ _ E) in Hh. }
  unfold recv. rewrite Hscript, recv_loop_first_chunk. cbv zeta.
  rewrite (split_0_without _ _ Hh1), He1.
  rewrite (recv_loop_appends middle t1 tn trailing rest Hne He1
             (contains_eom_pieces middle Hemid) Hen).
  reflexivity.
Qed.

(** [recv] takes a reply out of its frame.  A chunk that holds the
    header, the text and the carriage return gives the text, and
    whatever follows the carriage return in that chunk is dropped, were
    it the beginning of the next reply.  A reply that arrives in several
    chunks, cut anywhere behind the first character of the text, is put
    together again, one [recv(16)] per chunk. *)
Theorem recv_takes_the_reply_out_of_its_frame (t trailing : string)
  (rest : list (res string)) (m : motor) :
  contains _header t = false -> contains _eom t = false ->
  (recv_script (net m) = Ok (_header ++ t ++ _eom ++ trailing)%string :: rest ->
   exists m',
     recv m = (Ok t, m')
     /\ recv_script (net m') = rest
     /\ trace m' = trace m ++ [EvRecv]
     /\ _status m' = _status m)
  /\ (forall (t1 tn : string) (middle : list string),
        t = (t1 ++ fold_right String.append "" middle ++ tn)%string ->
        t1 <> ""%string ->
        recv_script (net m)
        = Ok (_header ++ t1)%string
            :: map Ok middle ++ Ok (tn ++ _eom ++ trailing)%string :: rest ->
        exists m',
          recv m = (Ok t, m')
          /\ recv_script (net m') = rest
          /\ trace m' = trace m ++ repeat EvRecv (2 + length middle)
          /\ _status m' = _status m).
Proof.
  intros Hh He. split.
  - intros Hscript. rewrite (recv_single_chunk t trailing rest m Hh He Hscript).
    eexists. split; [reflexivity |]. repeat split.
  - intros t1 tn middle -> Hne Hscript.
    rewrite (recv_split_chunks t1 tn trailing middle rest m Hh He Hne Hscript).
    eexists. split; [reflexivity |]. repeat split.
Qed.

Lemma recv_takes_the_reply_out_of_its_frame_witness :
  exists m',
    recv (connected (quiet [Ok (_header ++ "IP=")%string; Ok "-15"%string;
                            Ok ("00" ++ _eom ++ _header ++ "RS=R")%string]) [])
    = (Ok "IP=-1500"%string, m')
    /\ recv_script (net m') = []
    /\ trace m' = repeat EvRecv 3.
Proof.
  destruct (proj2 (recv_takes_the_reply_out_of_its_frame "IP=-1500"
                     (_header ++ "RS=R")%string []
                     (connected (quiet [Ok (_header ++ "IP=")%string; Ok "-15"%string;
                                        Ok ("00" ++ _eom ++ _header ++ "RS=R")%string]) [])
                     eq_refl eq_refl)
              "IP="%string "00"%string ["-15"%string] eq_refl
              ltac:(discriminate) eq_refl)
    as (m' & Hrun & Hrest & Htrace & _).
  exists m'. split; [exact Hrun |]. split; [exact Hrest | exact Htrace].
Defined.
(** ** The outcomes of a command *)

(** [int] on text, as the interpreter has it. *)
Lemma int_of_string_examples :
  int_of_string "+5" = Ok 5%Z
  /\ int_of_string " 12 " = Ok 12%Z
  /\ int_of_string "1_000" = Ok 1000%Z
  /\ int_of_string "-15" = Ok (-15)%Z
  /\ int_of_string "007" = Ok 7%Z
  /\ int_of_string "" = Raise ValueError
  /\ int_of_string "-" = Raise ValueError
  /\ int_of_string "+ 1" = Raise ValueError
  /\ int_of_string "1 2" = Raise ValueError
  /\ int_of_string "_1" = Raise ValueError
  /\ int_of_string "1_" = Raise ValueError
  /\ int_of_string "1__0" = Raise ValueError
  /\ int_of_string "12a" = Raise ValueError.
Proof. repeat split; reflexivity. Qed.

(** After a send that succeeds and a reply that arrives whole, what
    [send_command] makes of the reply. *)
Lemma send_command_exchange (c : command) (msg : string) (value : Motor.value)
  (reply : string) (rest : list (res string)) (m : motor) :
  send_outcome (net m) (n_send m) = None ->
  recv_script (net m) = Ok (frame reply) :: rest ->
  contains _header reply = false ->
  contains _eom reply = false ->
  (recv_pattern c = None -> recv_processor c = false) ->
  exists m',
    (recv_str <- _send_raw_command (format msg value) ;;
     recv_str <- match recv_pattern c with
                 | None => ret recv_str
                 | Some p =>
                     match fullmatch p recv_str with
                     | Some g => ret g
                     | None => raise AttributeError
                     end
                 end ;;
     if recv_processor c then lift (py_int (VStr recv_str))
     else ret (VStr recv_str)) m
    = (match recv_pattern c with
       | None => Ok (VStr reply)
       | Some p =>
           match fullmatch p reply with
           | None => Raise AttributeError
           | Some g => if recv_processor c then py_int (VStr g) else Ok (VStr g)
           end
       end, m')
    /\ trace m' = trace m ++ [EvSend (frame (format msg value)); EvRecv]
    /\ _status m' = _status m
    /\ recv_script (net m') = rest.
Proof.
  intros Hout Hscript Hh He Htable.
  unfold bind at 1. unfold _send_raw_command.
  run_monad. rewrite Hout. cbv beta iota zeta.
  match goal with
  | |- context [recv ?st] =>
      rewrite (recv_single_chunk reply "" rest st Hh He)
        by (cbn [net]; exact Hscript)
  end.
  cbn [_status handlers max_connection_attempts net n_connect n_send trace
       connect_outcome send_outcome].
  destruct (recv_pattern c) as [p |] eqn:Epat.
  - destruct (fullmatch p reply) as [g |].
    + destruct (recv_processor c).
      * eexists. split; [reflexivity |]. cbn [trace _status net recv_script].
        rewrite <- app_assoc. repeat split.
      * eexists. split; [reflexivity |]. cbn [trace _status net recv_script].
        rewrite <- app_assoc. repeat split.
    + eexists. split; [reflexivity |]. cbn [trace _status net recv_script].
      rewrite <- app_assoc. repeat split.
  - rewrite (Htable eq_refl).
    eexists. split; [reflexivity |]. cbn [trace _status net recv_script].
    rewrite <- app_assoc. repeat split.
Qed.

(** No entry of the table has a reply processor without a reply
    pattern. *)
Lemma processor_needs_pattern (name : string) (c : command) :
  _commands name = Some c -> recv_pattern c = None -> recv_processor c = false.
Proof.
  unfold _commands.
  repeat match goal with
         | |- context [if ?b then _ else _] => destruct b
         end; intros Hc; try discriminate Hc; injection Hc as <-;
    cbn; intros; (reflexivity || discriminate).
Qed.

(** What [send_command] returns.  A name that is not in the table, and
    "alarm_reset", whose entry has no key "send", raise [KeyError]
    before anything is sent.  For every other command the value to send
    is the first argument, or the empty string when there is none, and
    where the table gives a send processor ("set_position",
    "set_distance") it goes through [int] first: when [int] raises (no
    argument, text that is no integer, [None]) its exception goes to
    the caller and nothing is sent.  Otherwise, when the send succeeds
    and the reply arrives whole, the framed request, formatted with the
    value, goes out once and the reply is read; a command without reply
    pattern passes the reply back as it is; with a pattern the reply
    must match it entirely, the matched group being returned, as an
    integer where the table says so; a reply that does not match raises
    [AttributeError] after the exchange.  The status is not touched. *)
Theorem send_command_outcomes :
  (forall name args m,
     _commands name = None \/ name = "alarm_reset"%string ->
     send_command name args m = (Raise KeyError, m))
  /\ (forall name c msg args reply rest m,
        _commands name = Some c ->
        send c = Some msg ->
        let value := match args with v :: _ => v | [] => VStr "" end in
        match (if send_processor c then py_int value else Ok value) with
        | Raise e => send_command name args m = (Raise e, m)
        | Ok sent =>
            send_outcome (net m) (n_send m) = None ->
            recv_script (net m) = Ok (frame reply) :: rest ->
            contains _header reply = false ->
            contains _eom reply = false ->
            exists m',
              send_command name args m
              = (match recv_pattern c with
                 | None => Ok (VStr reply)
                 | Some p =>
                     match fullmatch p reply with
                     | None => Raise AttributeError
                     | Some g => if recv_processor c then py_int (VStr g) else Ok (VStr g)
                     end
                 end, m')
              /\ trace m' = trace m ++ [EvSend (frame (format msg sent)); EvRecv]
              /\ _status m' = _status m
              /\ recv_script (net m') = rest
        end).
Proof.
  split.
  - intros name args m [Hnone | ->]; unfold send_command; [now rewrite Hnone |].
    reflexivity.
  - intros name c msg args reply rest m Hc Hmsg value.
    unfold send_command. rewrite Hc, Hmsg. fold value.
    destruct (send_processor c).
    + destruct (py_int value) as [v | e].
      * intros Hout Hscript Hh He.
        unfold bind at 1. unfold lift at 1.
        exact (send_command_exchange c msg v reply rest m Hout Hscript Hh He
                 (processor_needs_pattern name c Hc)).
      * reflexivity.
    + intros Hout Hscript Hh He.
      unfold bind at 1. unfold ret at 1.
      exact (send_command_exchange c msg value reply rest m Hout Hscript Hh He
               (processor_needs_pattern name c Hc)).
Qed.

(** [set_position] with the text "+5": [int] makes 5 of it and "DI5"
    goes out. *)
Lemma send_command_outcomes_witness :
  exists m',
    send_command "set_position" [VStr "+5"] (connected (quiet [Ok (frame "%")]) [])
    = (Ok (VStr "%"), m')
    /\ trace m' = [EvSend (frame "DI5"); EvRecv].
Proof.
  destruct (proj2 send_command_outcomes "set_position"
              (Command (Some "DI{}"%string) true None false) "DI{}"%string
              [VStr "+5"] "%"%string [] (connected (quiet [Ok (frame "%")]) [])
              eq_refl eq_refl eq_refl eq_refl eq_refl eq_refl)
    as (m' & Hrun & Htrace & _).
  exists m'. split; [exact Hrun | exact Htrace].
Defined.

(** ** Connecting *)




(** ** Reading the reply *)




(** ** One reconnect, one resend *)







End MotorProps.

(** * Properties of actors/axis_.py *)

Section AxisProps.
Import Axis.
Local Open Scope Q_scope.

(** The equivalencies of an axis are consistent.  With non-zero steps
    and units per revolution there are nine entries; each relates two
    units over the same power of the second, and its two conversions
    undo each other; converting steps to axis units is converting steps
    to revolutions and revolutions to axis units; and every pair of
    [conversion_pairs] has an entry of its own. *)
Theorem equivalencies_are_consistent (steps_per_rev units_per_rev : Q) :
  ~ steps_per_rev == 0 -> ~ units_per_rev == 0 ->
  let equivs := equivalencies steps_per_rev units_per_rev in
  length equivs = 9%nat
  /\ Forall (fun e =>
               per_second (from_unit e) = per_second (to_unit e)
               /\ forall x, backward e (forward e x) == x
                            /\ forward e (backward e x) == x) equivs
  /\ (forall x, x * units_per_rev / steps_per_rev == x / steps_per_rev * units_per_rev)
  /\ forall motor_unit axis_unit,
       In (motor_unit, axis_unit) conversion_pairs ->
       exists e,
         In e equivs /\ from_unit e = motor_unit /\ to_unit e = axis_unit
         /\ forall x,
              forward e x
              == match base motor_unit with
                 | steps => x * units_per_rev / steps_per_rev
                 | _ => x * units_per_rev
                 end.
Proof.
  intros Hs Hu equivs. subst equivs. unfold equivalencies.
  cbn [flat_map app from_unit to_unit forward backward over_s base per_second].
  refine (conj eq_refl (conj _ (conj _ _))).
  - repeat (apply Forall_cons_2 || apply Forall_nil_2);
      cbn [from_unit to_unit forward backward per_second];
      (split; [reflexivity | intros x; split; field; auto]).
  - intros x. field. exact Hs.
  - intros motor_unit axis_unit Hin. cbn [conversion_pairs In] in Hin.
    set (su := fun x : Q => x * units_per_rev / steps_per_rev).
    set (us := fun x : Q => x * steps_per_rev / units_per_rev).
    set (ru := fun x : Q => x * units_per_rev).
    set (ur := fun x : Q => x / units_per_rev).
    destruct Hin as [H | [H | [H | [H | [H | []]]]]]; injection H as <- <-.
    + exists (Equiv (Unit steps 0) (Unit axis_units 0) su us).
      split; [cbn [In]; tauto | repeat split; reflexivity].
    + exists (Equiv (Unit steps 1) (Unit axis_units 1) su us).
      split; [cbn [In]; tauto | repeat split; reflexivity].
    + exists (Equiv (Unit steps 2) (Unit axis_units 2) su us).
      split; [cbn [In]; tauto | repeat split; reflexivity].
    + exists (Equiv (Unit rev 1) (Unit axis_units 1) ru ur).
      split; [cbn [In]; tauto | repeat split; reflexivity].
    + exists (Equiv (Unit rev 2) (Unit axis_units 2) ru ur).
      split; [cbn [In]; tauto | repeat split; reflexivity].
Qed.

Lemma equivalencies_are_consistent_witness :
  length (equivalencies 20000 (254 # 1000)) = 9%nat.
Proof.
  apply (equivalencies_are_consistent 20000 (254 # 1000)); discriminate.
Defined.

End AxisProps.

(** * Properties of actors/manager_.py *)

Section ManagerProps.
Import Manager.
Local Open Scope string_scope.
Local Open Scope list_scope.

Lemma nodup_length_le (l : list string) :
  (length (nodup string_dec l) <= length l)%nat.
Proof.
  induction l as [| x l IH]; [reflexivity |].
  cbn [nodup]. destruct (in_dec string_dec x l); cbn [length]; lia.
Qed.

Lemma not_all_distinct_false (l : list string) :
  not_all_distinct l = false <-> List.NoDup l.
Proof.
  unfold not_all_distinct. rewrite negb_false_iff, Nat.eqb_eq. split.
  - induction l as [| x l IH]; [constructor |].
    cbn [nodup]. destruct (in_dec string_dec x l) as [Hin | Hnot]; cbn [length].
    + pose proof (nodup_length_le l). lia.
    + intros H. constructor; [exact Hnot | apply IH; lia].
  - intros Hnd. now rewrite (nodup_fixed_point string_dec Hnd).
Qed.

Lemma string_in_In (x : string) (l : list string) : string_in x l = true <-> In x l.
Proof.
  unfold string_in. rewrite existsb_exists. split.
  - intros (y & Hy & Heq). apply String.eqb_eq in Heq. now subst.
  - intros Hx. exists x. split; [exact Hx | apply String.eqb_refl].
Qed.

Lemma duplicates_In (l : list string) (x : string) :
  In x (duplicates l) <-> In x l /\ count l x <> 1%nat.
Proof.
  unfold duplicates. rewrite filter_In, nodup_In, negb_true_iff, Nat.eqb_neq.
  reflexivity.
Qed.

Lemma count_positive (l : list string) (x : string) : In x l -> (1 <= count l x)%nat.
Proof. intros H. apply (count_occ_In string_dec) in H. unfold count. lia. Qed.

Lemma distinct_names_of_kept {A : Type} (f : A -> string) (p : A -> bool) (l : list A) :
  (forall x, In x (List.filter p l) -> (count (map f l) (f x) <= 1)%nat) ->
  List.NoDup (map f (List.filter p l)).
Proof.
  induction l as [| a l IH]; intros H; [constructor |].
  assert (Htail : forall x, In x (List.filter p l) -> (count (map f l) (f x) <= 1)%nat).
  { intros x Hx. assert (Hx' : In x (List.filter p (a :: l))).
    { cbn [List.filter]. destruct (p a); [now right | exact Hx]. }
    specialize (H x Hx'). unfold count in *. cbn [map count_occ] in H.
    destruct (string_dec (f a) (f x)); lia. }
  cbn [List.filter]. destruct (p a) eqn:Hpa; [| now apply IH].
  cbn [map]. constructor; [| now apply IH].
  intros Hin. apply in_map_iff in Hin as (x & Hfx & Hx).
  assert (Ha : In a (List.filter p (a :: l))).
  { cbn [List.filter]. rewrite Hpa. now left. }
  specialize (H a Ha). unfold count in H. cbn [map count_occ] in H.
  destruct (string_dec (f a) (f a)) as [_ | Hne]; [| now destruct Hne].
  apply filter_In in Hx as [Hx _].
  assert (Hpos : (1 <= count (map f l) (f a))%nat).
  { apply count_positive. rewrite <- Hfx. now apply in_map. }
  unfold count in Hpos. lia.
Qed.

(** Of the two checks that end [_validate_config], the first drops
    every motion group whose name another group shares: the groups that
    are left are exactly those whose name occurs once, in their
    original order, and their names are distinct; without duplicates
    the configuration is returned as it is.  The second check logs
    shared drive addresses but returns the configuration unchanged, so
    what validation yields is the result of the first check alone. *)
Theorem duplicated_names_are_dropped_shared_ips_are_kept (config : motion_groups) :
  let names := map (fun kv => mg_name (snd kv)) config in
  let kept := snd (_validate_motion_group_names config) in
  List.NoDup (map (fun kv => mg_name (snd kv)) kept)
  /\ kept = List.filter (fun kv => Nat.eqb (count names (mg_name (snd kv))) 1) config
  /\ (fst (_validate_motion_group_names config) = false <-> kept = config)
  /\ (forall cfg, snd (_validate_drive_ips cfg) = cfg)
  /\ (forall cfg, fst (_validate_drive_ips cfg) = true
                  <-> ~ List.NoDup (flat_map (fun kv => axes_ips (snd kv)) cfg))
  /\ validate_motion_groups config = kept.
Proof.
  intros names kept.
  assert (Hips : forall cfg, snd (_validate_drive_ips cfg) = cfg).
  { intros cfg. unfold _validate_drive_ips.
    now destruct (not_all_distinct (flat_map (fun kv => axes_ips (snd kv)) cfg)). }
  assert (Hkept : kept
                  = List.filter (fun kv => Nat.eqb (count names (mg_name (snd kv))) 1)
                      config).
  { subst kept. unfold _validate_motion_group_names. fold names.
    destruct (not_all_distinct names) eqn:Hdup; cbn [snd].
    - apply filter_ext_in. intros kv Hkv.
      assert (Hname : In (mg_name (snd kv)) names).
      { subst names. now apply (in_map (fun kv => mg_name (snd kv))). }
      destruct (string_in (mg_name (snd kv)) (duplicates names)) eqn:Hin; cbn [negb].
      + apply string_in_In, duplicates_In in Hin as [_ Hne].
        symmetry. now apply Nat.eqb_neq.
      + symmetry. apply Nat.eqb_eq.
        destruct (Nat.eq_dec (count names (mg_name (snd kv))) 1) as [H1 | Hne];
          [exact H1 |].
        assert (Hd : In (mg_name (snd kv)) (duplicates names))
          by (apply duplicates_In; now split).
        apply string_in_In in Hd. congruence.
    - apply not_all_distinct_false in Hdup.
      symmetry. apply forallb_filter_id. apply forallb_forall. intros kv Hkv.
      apply Nat.eqb_eq. unfold count.
      apply (proj1 (NoDup_count_occ' string_dec names) Hdup).
      subst names. now apply (in_map (fun kv => mg_name (snd kv))). }
  refine (conj _ (conj Hkept (conj _ (conj Hips (conj _ _))))).
  - rewrite Hkept. apply distinct_names_of_kept. intros kv Hkv.
    apply filter_In in Hkv as [_ H1]. apply Nat.eqb_eq in H1. fold names. lia.
  - subst kept. unfold _validate_motion_group_names. fold names.
    destruct (not_all_distinct names) eqn:Hdup; cbn [fst snd].
    + split; [discriminate |]. intros Heq. exfalso.
      assert (Hnd : List.NoDup names).
      { subst names. rewrite <- Heq at 1.
        apply distinct_names_of_kept. intros kv Hkv.
        apply filter_In in Hkv as [Hkv Hnot]. apply negb_true_iff in Hnot.
        destruct (Nat.eq_dec (count (map (fun kv => mg_name (snd kv)) config)
                                (mg_name (snd kv))) 1) as [H1 | Hne]; [lia |].
        assert (Hd : In (mg_name (snd kv))
                       (duplicates (map (fun kv => mg_name (snd kv)) config))).
        { apply duplicates_In. split; [| exact Hne].
          now apply (in_map (fun kv => mg_name (snd kv))). }
        apply string_in_In in Hd. congruence. }
      apply not_all_distinct_false in Hnd. congruence.
    + split; reflexivity.
  - intros cfg. unfold _validate_drive_ips.
    destruct (not_all_distinct (flat_map (fun kv => axes_ips (snd kv)) cfg)) eqn:E;
      cbn [fst].
    + split; [intros _ Hnd | reflexivity].
      apply not_all_distinct_false in Hnd. congruence.
    + split; [discriminate | intros Hnot]. destruct Hnot.
      now apply not_all_distinct_false.
  - unfold validate_motion_groups. apply Hips.
Qed.
Lemma duplicated_names_are_dropped_shared_ips_are_kept_witness :
  validate_motion_groups
    [(0%nat, MotionGroup "x" ["192.168.0.40"]); (1%nat, MotionGroup "y" ["192.168.0.40"]);
     (2%nat, MotionGroup "z" ["192.168.0.41"]); (3%nat, MotionGroup "z" ["192.168.0.42"])]
  = [(0%nat, MotionGroup "x" ["192.168.0.40"]); (1%nat, MotionGroup "y" ["192.168.0.40"])].
Proof.
  destruct (duplicated_names_are_dropped_shared_ips_are_kept
              [(0%nat, MotionGroup "x" ["192.168.0.40"]);
               (1%nat, MotionGroup "y" ["192.168.0.40"]);
               (2%nat, MotionGroup "z" ["192.168.0.41"]);
               (3%nat, MotionGroup "z" ["192.168.0.42"])])
    as (_ & Hkept & _ & _ & _ & Hvalid).
  rewrite Hvalid, Hkept. reflexivity.
Defined.

End ManagerProps.
